(** * Mini-DBMS storage engine: the buffer manager and the B+ tree insert

    A shallow embedding of [include/StorageEngine.hpp]: the paged file of
    [StorageManager], the frame pool, page table and LRU list of
    [BufferManager], and the insertion algorithm of [BPlusTree]. *)

From Stdlib Require Import ZArith Lia.
From stdpp Require Import base list gmap sorting.

Local Open Scope Z_scope.

(** ** Global system configuration *)

Definition PAGE_SIZE : Z := 4096.
Definition BUFFER_CAPACITY : Z := 3.
Definition MAX_KEYS : Z := 3.

(** ** The type [int]

    32 bits, two's complement.  The page counter [nextPageID++] and the
    file offset [pageID * PAGE_SIZE] are computed in [int]: [wrap] brings
    the exact result back into the range of the type. *)

Definition INT_MIN : Z := -2147483648.
Definition INT_MAX : Z := 2147483647.
Definition wrap (z : Z) : Z := (z - INT_MIN) mod 4294967296 + INT_MIN.

(** ** Pages seen as B+ tree nodes

    The tree reads and writes a page only through the cast
    [(BPlusNode* )bm.fetchPage(..)], so a page is modelled by the node
    record laid over its first bytes.  [keys] is the array [int keys[MAX_KEYS]]
    and [children] is [int children[MAX_KEYS + 1]]; [int] values are kept
    as [Z] (the code only compares keys, and counts by one). *)

Record BPlusNode := mkNode {
  isLeaf : bool;
  numKeys : Z;
  parentPage : Z;
  keys : list Z;
  children : list Z;
  nextLeaf : Z
}.

Definition set_isLeaf (v : bool) (n : BPlusNode) : BPlusNode :=
  mkNode v (numKeys n) (parentPage n) (keys n) (children n) (nextLeaf n).
Definition set_numKeys (v : Z) (n : BPlusNode) : BPlusNode :=
  mkNode (isLeaf n) v (parentPage n) (keys n) (children n) (nextLeaf n).
Definition set_parentPage (v : Z) (n : BPlusNode) : BPlusNode :=
  mkNode (isLeaf n) (numKeys n) v (keys n) (children n) (nextLeaf n).
Definition set_keys (v : list Z) (n : BPlusNode) : BPlusNode :=
  mkNode (isLeaf n) (numKeys n) (parentPage n) v (children n) (nextLeaf n).
Definition set_children (v : list Z) (n : BPlusNode) : BPlusNode :=
  mkNode (isLeaf n) (numKeys n) (parentPage n) (keys n) v (nextLeaf n).

(** [memset(p, 0, PAGE_SIZE)]: every byte of the page is zero, so the node
    laid over it has [isLeaf = false] and every integer field 0. *)
Definition zeroPage : BPlusNode :=
  mkNode false 0 0 (replicate (Z.to_nat MAX_KEYS) 0)
         (replicate (Z.to_nat (MAX_KEYS + 1)) 0) 0.

(** ** Frames, the file, the buffer manager *)

Record Frame := mkFrame {
  pageID : Z;
  dirty : bool;
  data : BPlusNode
}.

Definition set_pageID (v : Z) (f : Frame) : Frame := mkFrame v (dirty f) (data f).
Definition set_dirty (v : bool) (f : Frame) : Frame := mkFrame (pageID f) v (data f).
Definition set_data (v : BPlusNode) (f : Frame) : Frame := mkFrame (pageID f) (dirty f) v.

(** A frame as [vector<Frame> pool(BUFFER_CAPACITY)] value-initialises it. *)
Definition emptyFrame : Frame := mkFrame (-1) false zeroPage.

(** The lines the engine prints on [cout], one constructor per message. *)
Inductive Event :=
| DiskWriting (pageID : Z)
| DiskReading (pageID : Z)
| BufferHit (pageID : Z)
| BufferMiss (pageID : Z)
| SystemAllocating (pid : Z)
| EvictKicking (pageID : Z)
| UserInsert (key : Z)
| TreeKeyPlaced (key pageID : Z)
| TreeNodeFull
| TreeSplitComplete (newPageID : Z)
| TreeNewRoot (newRoot : Z).

(** The number of evictions a console log reports. *)
Definition isEvict (e : Event) : bool :=
  match e with EvictKicking _ => true | _ => false end.
Definition evictions (log : list Event) : nat :=
  length (List.filter isEvict log).

(** [StorageManager]: the stream [dbFile] and the file under it.
    [dbFile] is the file, as the block last written at each byte offset
    (every transfer is one block of [PAGE_SIZE] bytes, at a multiple of
    [PAGE_SIZE]); [pos] is the position of the stream, the same for
    reading and for writing; [failed] is its [failbit].  The source never
    calls [clear()]: once [failbit] is set, every later [seekp], [write],
    [seekg] and [read] returns without doing anything. *)
Record StorageManager := mkStorage {
  dbFile : gmap Z BPlusNode;
  pos : Z;
  failed : bool
}.

(** The length of the file: the end of its last block. *)
Definition fileSize (s : StorageManager) : Z :=
  map_fold (fun off _ size => Z.max (off + PAGE_SIZE) size) 0 (dbFile s).

(** [dbFile.seekp(off, ios::beg)] and [dbFile.seekg(off, ios::beg)]: a
    seek to a negative offset fails. *)
Definition seek (off : Z) (s : StorageManager) : StorageManager :=
  if failed s then s
  else if off <? 0 then mkStorage (dbFile s) (pos s) true
  else mkStorage (dbFile s) off false.

(** [dbFile.write(data, PAGE_SIZE)], [d] being the block at [data]. *)
Definition write (d : BPlusNode) (s : StorageManager) : StorageManager :=
  if failed s then s
  else mkStorage (<[pos s := d]> (dbFile s)) (pos s + PAGE_SIZE) false.

(** [dbFile.read(buffer, PAGE_SIZE)], [buf] being the block at [buffer]:
    the buffer after the read and the stream after it.  The block at the
    position is transferred, zeros where the file has a gap there; at the
    end of the file nothing is transferred, the buffer stays as it is and
    [failbit] is set. *)
Definition read (buf : BPlusNode) (s : StorageManager)
  : BPlusNode * StorageManager :=
  if failed s then (buf, s)
  else match dbFile s !! pos s with
       | Some d => (d, mkStorage (dbFile s) (pos s + PAGE_SIZE) false)
       | None =>
           if pos s <? fileSize s
           then (zeroPage, mkStorage (dbFile s) (pos s + PAGE_SIZE) false)
           else (buf, mkStorage (dbFile s) (pos s) true)
       end.

(** [BufferManager], together with the storage manager it refers to and
    the console every layer prints on ([cout], latest line first).  Frame
    indices are only ever produced by [lru.size()] and [lru.back()], so they
    are natural numbers here. *)
Record BufferManager := mkBuffer {
  sm : StorageManager;
  pool : list Frame;
  pageTable : gmap Z nat;
  lru : list nat;
  nextPageID : Z;
  cout : list Event
}.

Definition set_sm (v : StorageManager) (b : BufferManager) : BufferManager :=
  mkBuffer v (pool b) (pageTable b) (lru b) (nextPageID b) (cout b).
Definition set_pool (v : list Frame) (b : BufferManager) : BufferManager :=
  mkBuffer (sm b) v (pageTable b) (lru b) (nextPageID b) (cout b).
Definition set_pageTable (v : gmap Z nat) (b : BufferManager) : BufferManager :=
  mkBuffer (sm b) (pool b) v (lru b) (nextPageID b) (cout b).
Definition set_lru (v : list nat) (b : BufferManager) : BufferManager :=
  mkBuffer (sm b) (pool b) (pageTable b) v (nextPageID b) (cout b).
Definition set_nextPageID (v : Z) (b : BufferManager) : BufferManager :=
  mkBuffer (sm b) (pool b) (pageTable b) (lru b) v (cout b).
Definition set_cout (v : list Event) (b : BufferManager) : BufferManager :=
  mkBuffer (sm b) (pool b) (pageTable b) (lru b) (nextPageID b) v.

Record BPlusTree := mkTree {
  bm : BufferManager;
  rootPage : Z
}.

(** ** A state monad with two ways to fail

    [Undefined] stands for behaviour C++ leaves undefined (an index outside
    an array or the pool, [back()] of an empty list); [OutOfFuel] for a
    recursion cut off by the fuel of the model. *)

Inductive Result (S A : Type) :=
| Ok (a : A) (s : S)
| Undefined
| OutOfFuel.
Arguments Ok {S A} a s.
Arguments Undefined {S A}.
Arguments OutOfFuel {S A}.

Definition M (S A : Type) : Type := S -> Result S A.

Definition ret {S A} (a : A) : M S A := fun s => Ok a s.
Definition bind {S A B} (c : M S A) (k : A -> M S B) : M S B :=
  fun s => match c s with
           | Ok a s' => k a s'
           | Undefined => Undefined
           | OutOfFuel => OutOfFuel
           end.
Definition gets {S A} (f : S -> A) : M S A := fun s => Ok (f s) s.
Definition modify {S} (f : S -> S) : M S unit := fun s => Ok tt (f s).
Definition undefined {S A} : M S A := fun _ => Undefined.
Definition outOfFuel {S A} : M S A := fun _ => OutOfFuel.

Notation "'let*' x := c 'in' k" := (bind c (fun x => k))
  (at level 10, x name, c at level 100, k at level 200).
Notation "c ;; k" := (bind c (fun _ => k))
  (at level 100, k at level 200, right associativity).

(** A call [bm.f(..)] made from inside the tree. *)
Definition liftB {A} (c : M BufferManager A) : M BPlusTree A :=
  fun t => match c (bm t) with
           | Ok a b => Ok a (mkTree b (rootPage t))
           | Undefined => Undefined
           | OutOfFuel => OutOfFuel
           end.

Definition print (e : Event) : M BufferManager unit :=
  modify (fun b => set_cout (e :: cout b) b).

(** [pool[idx]] read, and [pool[idx].field = ..] written. *)
Definition frame (idx : nat) : M BufferManager Frame :=
  fun b => match pool b !! idx with
           | Some fr => Ok fr b
           | None => Undefined
           end.
Definition setFrame (idx : nat) (g : Frame -> Frame) : M BufferManager unit :=
  fun b => match pool b !! idx with
           | Some fr => Ok tt (set_pool (<[idx := g fr]> (pool b)) b)
           | None => Undefined
           end.

(** [StorageManager sm("database.db")]: the file is opened with
    [ios::trunc], so it is empty, and the stream is good. *)
Definition newStorageManager : StorageManager := mkStorage ∅ 0 false.

(** [BufferManager bm(sm)]. *)
Definition newBufferManager (s : StorageManager) : BufferManager :=
  mkBuffer s (replicate (Z.to_nat BUFFER_CAPACITY) emptyFrame) ∅ [] 0 [].

(** ** StorageManager *)

(** A call on the stream [dbFile]. *)
Definition onStream (g : StorageManager -> StorageManager) : M BufferManager unit :=
  modify (fun b => set_sm (g (sm b)) b).

(** [writeDisk(pageID, data)], [data] pointing into frame [buffer]; the
    offset is the [int] product [pageID * PAGE_SIZE], and [flush] moves
    nothing the model keeps apart. *)
Definition writeDisk (pageID : Z) (buffer : nat) : M BufferManager unit :=
  print (DiskWriting pageID) ;;
  onStream (seek (wrap (pageID * PAGE_SIZE))) ;;
  let* fr := frame buffer in
  onStream (write (data fr)).

(** [readDisk(pageID, buffer)], [buffer] pointing into frame [buffer]. *)
Definition readDisk (pageID : Z) (buffer : nat) : M BufferManager unit :=
  print (DiskReading pageID) ;;
  onStream (seek (wrap (pageID * PAGE_SIZE))) ;;
  let* s := gets sm in
  let* fr := frame buffer in
  setFrame buffer (set_data (read (data fr) s).1) ;;
  onStream (fun _ => (read (data fr) s).2).

(** ** BufferManager *)

Definition touch (idx : nat) : M BufferManager unit :=
  modify (fun b => set_lru (idx :: filter (fun j => j ≠ idx) (lru b)) b).

Definition evict : M BufferManager nat :=
  let* l := gets lru in
  if Z.of_nat (length l) <? BUFFER_CAPACITY then ret (length l)
  else match last l with
       | None => undefined
       | Some idx =>
           let* fr := frame idx in
           print (EvictKicking (pageID fr)) ;;
           (if dirty fr then writeDisk (pageID fr) idx else ret tt) ;;
           modify (fun b => set_pageTable (delete (pageID fr) (pageTable b)) b) ;;
           modify (fun b => set_lru (removelast (lru b)) b) ;;
           ret idx
       end.

(** The returned [char*] points at [pool[f].data]; it is modelled by the
    frame index [f], so that two pointers into one frame alias. *)
Definition fetchPage (pageID : Z) : M BufferManager nat :=
  let* pt := gets pageTable in
  match pt !! pageID with
  | Some f =>
      print (BufferHit pageID) ;;
      touch f ;;
      ret f
  | None =>
      print (BufferMiss pageID) ;;
      let* frameIdx := evict in
      readDisk pageID frameIdx ;;
      setFrame frameIdx (set_pageID pageID) ;;
      setFrame frameIdx (set_dirty false) ;;
      modify (fun b => set_pageTable (<[pageID := frameIdx]> (pageTable b)) b) ;;
      touch frameIdx ;;
      ret frameIdx
  end.

Definition markDirty (pageID : Z) : M BufferManager unit :=
  let* pt := gets pageTable in
  match pt !! pageID with
  | Some f => setFrame f (set_dirty true)
  | None => ret tt
  end.

(** [nextPageID++] is an [int] increment. *)
Definition allocatePage : M BufferManager Z :=
  let* pid := gets nextPageID in
  modify (fun b => set_nextPageID (wrap (pid + 1)) b) ;;
  print (SystemAllocating pid) ;;
  let* p := fetchPage pid in
  setFrame p (set_data zeroPage) ;;
  markDirty pid ;;
  ret pid.

(** A client of the buffer manager: the calls it makes, run one after the
    other; the result lists the page numbers [allocatePage] returned. *)
Inductive Call :=
| CallFetchPage (pageID : Z)
| CallAllocatePage
| CallMarkDirty (pageID : Z).

Fixpoint calls (cs : list Call) : M BufferManager (list Z) :=
  match cs with
  | [] => ret []
  | CallFetchPage p :: cs' => fetchPage p ;; calls cs'
  | CallAllocatePage :: cs' =>
      let* pid := allocatePage in
      let* pids := calls cs' in
      ret (pid :: pids)
  | CallMarkDirty p :: cs' => markDirty p ;; calls cs'
  end.

(** ** BPlusTree *)

(** [*node] read, and a field of [*node] written, [node] being a pointer
    returned by [fetchPage]. *)
Definition deref (node : nat) : M BufferManager BPlusNode :=
  let* fr := frame node in ret (data fr).
Definition setNode (node : nat) (g : BPlusNode -> BPlusNode) : M BufferManager unit :=
  setFrame node (fun fr => set_data (g (data fr)) fr).

(** [a[i] = v] on an array: defined only inside the array. *)
Definition store (a : list Z) (i : nat) (v : Z) : option (list Z) :=
  if decide (i < length a)%nat then Some (<[i := v]> a) else None.

Definition writeKey (node i : nat) (v : Z) : M BufferManager unit :=
  let* n := deref node in
  match store (keys n) i v with
  | Some ks => setNode node (set_keys ks)
  | None => undefined
  end.
Definition writeChild (node i : nat) (v : Z) : M BufferManager unit :=
  let* n := deref node in
  match store (children n) i v with
  | Some cs => setNode node (set_children cs)
  | None => undefined
  end.

(** The loop of [findLeaf],
    [while (i < node->numKeys && key >= node->keys[i]) i++],
    with [rem] the number of keys not yet passed; it returns the final
    [i]. *)
Fixpoint scanKeys (key : Z) (ks : list Z) (i rem : nat) : option nat :=
  match rem with
  | O => Some i
  | S rem' =>
      match ks !! i with
      | None => None
      | Some k => if k <=? key then scanKeys key ks (S i) rem' else Some i
      end
  end.

Fixpoint findLeaf (fuel : nat) (currPage key : Z) : M BPlusTree Z :=
  match fuel with
  | O => outOfFuel
  | S fuel' =>
      let* node := liftB (fetchPage currPage) in
      let* n := liftB (deref node) in
      if isLeaf n then ret currPage
      else match scanKeys key (keys n) 0 (Z.to_nat (numKeys n)) with
           | None => undefined
           | Some i =>
               match children n !! i with
               | None => undefined
               | Some child => findLeaf fuel' child key
               end
           end
  end.

(** The loop of [insertIntoLeaf],
    [while (i >= 0 && node->keys[i] > key) { node->keys[i + 1] = node->keys[i]; i--; }],
    run on the key array of [*node]; [n] is [i + 1], and the result is the
    array with the final [i + 1]. *)
Fixpoint shiftKeys (key : Z) (ks : list Z) (n : nat) : option (list Z * nat) :=
  match n with
  | O => Some (ks, O)
  | S i =>
      match ks !! i with
      | None => None
      | Some k =>
          if key <? k then
            match store ks (S i) k with
            | Some ks' => shiftKeys key ks' i
            | None => None
            end
          else Some (ks, S i)
      end
  end.

(** The loops of [splitLeaf],
    [for (int i = 0; i < node->numKeys; i++) node->keys[i] = tempKeys[off + i]],
    with [cnt] the iterations left. *)
Fixpoint copyKeys (node : nat) (tempKeys : list Z) (off i cnt : nat)
  : M BufferManager unit :=
  match cnt with
  | O => ret tt
  | S cnt' =>
      match tempKeys !! (off + i)%nat with
      | None => undefined
      | Some v => writeKey node i v ;; copyKeys node tempKeys off (S i) cnt'
      end
  end.

Definition insertIntoParent (left key right : Z) : M BPlusTree unit :=
  let* root := gets rootPage in
  if decide (left = root) then
    let* newRoot := liftB allocatePage in
    let* r := liftB (fetchPage newRoot) in
    liftB (setNode r (set_isLeaf false)) ;;
    liftB (writeKey r 0 key) ;;
    liftB (writeChild r 0 left) ;;
    liftB (writeChild r 1 right) ;;
    liftB (setNode r (set_numKeys 1)) ;;
    modify (fun t => mkTree (bm t) newRoot) ;;
    liftB (print (TreeNewRoot newRoot))
  else ret tt.

(** [tempKeys] copies the [MAX_KEYS] entries of the old array, whatever
    [numKeys] says; each loop bound [node->numKeys] is read once, the loop
    body leaving it alone. *)
Definition splitLeaf (oldPageID key : Z) : M BPlusTree unit :=
  liftB (print TreeNodeFull) ;;
  let* newPageID := liftB allocatePage in
  let* oldNode := liftB (fetchPage oldPageID) in
  let* newNode := liftB (fetchPage newPageID) in
  let* o := liftB (deref oldNode) in
  if decide (length (keys o) < Z.to_nat MAX_KEYS)%nat then undefined else
  let tempKeys := merge_sort Z.le (take (Z.to_nat MAX_KEYS) (keys o) ++ [key]) in
  liftB (setNode newNode (set_isLeaf true)) ;;
  let mid := (MAX_KEYS + 1) / 2 in
  liftB (setNode oldNode (set_numKeys mid)) ;;
  liftB (setNode newNode (set_numKeys (MAX_KEYS + 1 - mid))) ;;
  let* o := liftB (deref oldNode) in
  liftB (copyKeys oldNode tempKeys 0 0 (Z.to_nat (numKeys o))) ;;
  let* n := liftB (deref newNode) in
  liftB (copyKeys newNode tempKeys (Z.to_nat mid) 0 (Z.to_nat (numKeys n))) ;;
  liftB (markDirty oldPageID) ;;
  liftB (markDirty newPageID) ;;
  liftB (print (TreeSplitComplete newPageID)) ;;
  let* n := liftB (deref newNode) in
  match keys n !! 0%nat with
  | None => undefined
  | Some k => insertIntoParent oldPageID k newPageID
  end.

(** With [numKeys] negative the loop is skipped and [keys[i + 1]] is a
    store before the array: undefined.  The loop runs on the array of
    [*node], which is then written back. *)
Definition insertIntoLeaf (pageID key : Z) : M BPlusTree unit :=
  let* node := liftB (fetchPage pageID) in
  let* n := liftB (deref node) in
  if numKeys n <? MAX_KEYS then
    if numKeys n <? 0 then undefined else
    match shiftKeys key (keys n) (Z.to_nat (numKeys n)) with
    | None => undefined
    | Some (ks, j) =>
        liftB (setNode node (set_keys ks)) ;;
        liftB (writeKey node j key) ;;
        liftB (setNode node (fun n => set_numKeys (numKeys n + 1) n)) ;;
        liftB (markDirty pageID) ;;
        liftB (print (TreeKeyPlaced key pageID))
    end
  else splitLeaf pageID key.

Definition insert (fuel : nat) (key : Z) : M BPlusTree unit :=
  liftB (print (UserInsert key)) ;;
  let* root := gets rootPage in
  let* leafPage := findLeaf fuel root key in
  insertIntoLeaf leafPage key.

(** The constructor [BPlusTree(BufferManager& b)]. *)
Definition newBPlusTree (b : BufferManager) : Result BPlusTree unit :=
  match (let* rootPage := allocatePage in
         let* root := fetchPage rootPage in
         setNode root (set_isLeaf true) ;;
         setNode root (set_numKeys 0) ;;
         setNode root (set_parentPage (-1)) ;;
         ret rootPage) b with
  | Ok r b' => Ok tt (mkTree b' r)
  | Undefined => Undefined
  | OutOfFuel => OutOfFuel
  end.

(** [tree.insert(k1); tree.insert(k2); ...] *)
Fixpoint inserts (fuel : nat) (ks : list Z) : M BPlusTree unit :=
  match ks with
  | [] => ret tt
  | k :: ks' => insert fuel k ;; inserts fuel ks'
  end.

(** [main], for any list of keys in place of [10, 20, 30, 40, 50]: a
    storage manager on a truncated file, a buffer manager, a tree, and the
    inserts. *)
Definition main (fuel : nat) (ks : list Z) : Result BPlusTree unit :=
  match newBPlusTree (newBufferManager newStorageManager) with
  | Ok _ t => inserts fuel ks t
  | Undefined => Undefined
  | OutOfFuel => OutOfFuel
  end.

(** The page numbers a console log reports as allocated, oldest first. *)
Definition allocations (log : list Event) : list Z :=
  rev (omap (fun e => match e with SystemAllocating pid => Some pid | _ => None end) log).

(** The tree [main] builds from the keys [ks]. *)
Definition treeAfter (ks : list Z) : BPlusTree :=
  match main 2 ks with
  | Ok _ t => t
  | _ => mkTree (newBufferManager newStorageManager) 0
  end.


(** * Specification *)

(** ** The stream, call by call *)

(** The buffer after [readDisk(p, buffer)] on the stream [s], the block
    at [buffer] being [buf] before the call, and the stream after it. *)
Definition readBlock (s : StorageManager) (p : Z) (buf : BPlusNode) : BPlusNode :=
  (read buf (seek (wrap (p * PAGE_SIZE)) s)).1.
Definition afterRead (s : StorageManager) (p : Z) (buf : BPlusNode) : StorageManager :=
  (read buf (seek (wrap (p * PAGE_SIZE)) s)).2.

(** The stream after [writeDisk(p, data)], [d] being the block at [data]. *)
Definition afterWrite (s : StorageManager) (p : Z) (d : BPlusNode) : StorageManager :=
  write d (seek (wrap (p * PAGE_SIZE)) s).

(** The stream after the eviction of the frame [fr]: [writeDisk] is
    called exactly for a dirty frame. *)
Definition flushed (fr : Frame) (s : StorageManager) : StorageManager :=
  if dirty fr then afterWrite s (pageID fr) (data fr) else s.

(** The recency list after [touch(idx)]. *)
Definition touched (idx : nat) (l : list nat) : list nat :=
  idx :: filter (fun j => j ≠ idx) l.

(** ** Cache coherence *)

(** The pool has its [BUFFER_CAPACITY] frames, the recency list names
    the frames below its length once each, and the page table maps a page
    to a frame exactly when the frame is on the list and holds the page. *)
Record coherent (b : BufferManager) : Prop := {
  coh_pool : length (pool b) = Z.to_nat BUFFER_CAPACITY;
  coh_cap : (length (lru b) <= Z.to_nat BUFFER_CAPACITY)%nat;
  coh_occ : lru b ≡ₚ seq 0 (length (lru b));
  coh_table : forall p f,
    pageTable b !! p = Some f <->
    f ∈ lru b /\ exists fr, pool b !! f = Some fr /\ pageID fr = p
}.

(** The three ways a fetch can go, field by field: a hit; a miss with a
    frame to spare; a miss that evicts the frame at the back of the
    recency list.  On a miss the frame takes what [readDisk] leaves in
    it. *)
Inductive fetched (p : Z) (b : BufferManager) (f : nat) (b' : BufferManager) : Prop :=
| fetched_hit :
    pageTable b !! p = Some f ->
    sm b' = sm b -> pool b' = pool b -> pageTable b' = pageTable b ->
    lru b' = touched f (lru b) ->
    fetched p b f b'
| fetched_room fr :
    pageTable b !! p = None ->
    (length (lru b) < Z.to_nat BUFFER_CAPACITY)%nat -> f = length (lru b) ->
    pool b !! f = Some fr ->
    sm b' = afterRead (sm b) p (data fr) ->
    pool b' = <[f := mkFrame p false (readBlock (sm b) p (data fr))]> (pool b) ->
    pageTable b' = <[p := f]> (pageTable b) ->
    lru b' = f :: lru b ->
    fetched p b f b'
| fetched_evict l fr :
    pageTable b !! p = None ->
    length (lru b) = Z.to_nat BUFFER_CAPACITY -> lru b = l ++ [f] ->
    pool b !! f = Some fr ->
    sm b' = afterRead (flushed fr (sm b)) p (data fr) ->
    pool b' = <[f := mkFrame p false (readBlock (flushed fr (sm b)) p (data fr))]> (pool b) ->
    pageTable b' = <[p := f]> (delete (pageID fr) (pageTable b)) ->
    lru b' = f :: l ->
    fetched p b f b'.

(** What is stored for page [p]: its frame when it is resident, its block
    of the file otherwise. *)
Definition content (b : BufferManager) (p : Z) : option BPlusNode :=
  match pageTable b !! p with
  | Some f => data <$> pool b !! f
  | None => dbFile (sm b) !! wrap (p * PAGE_SIZE)
  end.

(** [b'] is [b] with the frame [f] of page [p] rewritten to the dirty
    content [pg']. *)
Record overwritten (p : Z) (f : nat) (pg' : BPlusNode) (b b' : BufferManager)
  : Prop := {
  ow_frame : pool b' !! f = Some (mkFrame p true pg');
  ow_others : forall g, g ≠ f -> pool b' !! g = pool b !! g;
  ow_length : length (pool b') = length (pool b);
  ow_sm : sm b' = sm b;
  ow_pageTable : pageTable b' = pageTable b;
  ow_lru : lru b' = lru b;
  ow_nextPageID : nextPageID b' = nextPageID b
}.

(** Frame [f] is occupied: [evict] hands out the frames in order, so the
    occupied ones are those below the occupancy [lru.size()]. *)
Definition occupied (b : BufferManager) (f : nat) : Prop :=
  (f < length (lru b))%nat.

(** Page [p] is resident in the occupied frame [f]. *)
Definition resident_in (b : BufferManager) (p : Z) (f : nat) : Prop :=
  occupied b f /\ exists fr, pool b !! f = Some fr /\ pageID fr = p.

(** The cache coherence property: page table, frames and recency list
    describe the same set of resident pages. *)
Record cache_coherence (b : BufferManager) : Prop := {
  cc_table_resident : forall p,
    is_Some (pageTable b !! p) <-> exists f, resident_in b p f;
  cc_one_frame : forall p f g, resident_in b p f -> resident_in b p g -> f = g;
  cc_capacity : Z.of_nat (size (pageTable b)) <= BUFFER_CAPACITY;
  cc_lru_capacity : Z.of_nat (length (lru b)) <= BUFFER_CAPACITY;
  cc_lru_nodup : NoDup (lru b);
  cc_lru_table : forall f, f ∈ lru b <-> exists p, pageTable b !! p = Some f;
  cc_table_inj : forall p q f,
    pageTable b !! p = Some f -> pageTable b !! q = Some f -> p = q
}.

(** The invariant of the buffer manager behind it, while the pages
    fetched and allocated have non-negative numbers: the frames on the
    recency list hold pages, the others are still empty. *)
Record bm_inv (b : BufferManager) : Prop := {
  bi_coh : coherent b;
  bi_used : forall f fr, pool b !! f = Some fr -> f ∈ lru b -> 0 <= pageID fr;
  bi_empty : forall f fr, pool b !! f = Some fr -> f ∉ lru b -> pageID fr = -1
}.

(** The page numbers [k] allocations return when the counter stands at
    [n]: each [nextPageID++] is an [int] increment. *)
Fixpoint counted (n : Z) (k : nat) : list Z :=
  match k with
  | O => []
  | S k' => n :: counted (wrap (n + 1)) k'
  end.

(** ** Further properties of the buffer manager *)

(** The pages in the pool, most recently used first. *)
Definition residentPages (b : BufferManager) : list Z :=
  omap (fun f => pageID <$> pool b !! f) (lru b).

(** The page numbers a list of calls fetches or allocates, in order; [n]
    is the next page number when the calls start. *)
Fixpoint accesses (n : Z) (cs : list Call) : list Z :=
  match cs with
  | [] => []
  | CallFetchPage p :: cs' => p :: accesses n cs'
  | CallAllocatePage :: cs' => n :: accesses (wrap (n + 1)) cs'
  | CallMarkDirty _ :: cs' => accesses n cs'
  end.

(** The distinct pages of a history of accesses, the latest first. *)
Definition mru (hist : list Z) (p : Z) : list Z :=
  p :: filter (fun q => q ≠ p) hist.
Definition recency (ps : list Z) : list Z := foldl mru [] ps.

(** ** The tree *)

(** The keys a node holds: the first [numKeys] entries of its array. *)
Definition leafKeys (n : BPlusNode) : list Z :=
  take (Z.to_nat (numKeys n)) (keys n).

(** The arrays of a node have their declared sizes. *)
Definition wellSized (n : BPlusNode) : Prop :=
  length (keys n) = Z.to_nat MAX_KEYS /\
  length (children n) = Z.to_nat (MAX_KEYS + 1).

(** The sorted sequence [tempKeys] of [splitLeaf]: the keys of the old
    leaf and the new key. *)
Definition splitKeys (key : Z) (old : BPlusNode) : list Z :=
  merge_sort Z.le (take (Z.to_nat MAX_KEYS) (keys old) ++ [key]).

(** The split point [mid] of [splitLeaf]. *)
Definition mid : Z := (MAX_KEYS + 1) / 2.

(** The old leaf after the split: its first [mid] array entries are the
    first [mid] values of the sorted sequence. *)
Definition splitOld (key : Z) (old : BPlusNode) : BPlusNode :=
  set_keys (take (Z.to_nat mid) (splitKeys key old)
              ++ drop (Z.to_nat mid) (keys old))
           (set_numKeys mid old).

(** The new leaf: a zero-filled page made a leaf, whose first
    [MAX_KEYS + 1 - mid] array entries are the remaining values. *)
Definition splitNew (key : Z) (old : BPlusNode) : BPlusNode :=
  set_keys (drop (Z.to_nat mid) (splitKeys key old)
              ++ drop (Z.to_nat (MAX_KEYS + 1 - mid)) (keys zeroPage))
           (set_numKeys (MAX_KEYS + 1 - mid) (set_isLeaf true zeroPage)).

(** The root [insertIntoParent] builds on a zero-filled page. *)
Definition newRootNode (key left right : Z) : BPlusNode :=
  mkNode false 1 0 [key; 0; 0] [left; right; 0; 0] 0.

(** The node the tree finds on page [p]: what the pointer returned by
    [fetchPage(p)] points at, together with the buffer manager the fetch
    leaves. *)
Definition visit (p : Z) (b : BufferManager) : option (BPlusNode * BufferManager) :=
  match fetchPage p b with
  | Ok f b' => (fun fr => (data fr, b')) <$> pool b' !! f
  | _ => None
  end.

(** A leaf of a tree into which the keys [ks] were inserted. *)
Record leaf_ok (ks : list Z) (n : BPlusNode) : Prop := {
  lo_count : 0 <= numKeys n <= MAX_KEYS;
  lo_sorted : StronglySorted Z.le (leafKeys n);
  lo_keys : leafKeys n ⊆ ks;
  lo_nodup : NoDup ks -> NoDup (leafKeys n)
}.

(** What any frame of that tree holds: the link fields are as the
    constructor or [memset] left them, and a leaf is in order. *)
Record node_ok (ks : list Z) (n : BPlusNode) : Prop := {
  no_sized : wellSized n;
  no_parent : parentPage n = 0 \/ parentPage n = -1;
  no_next : nextLeaf n = 0;
  no_leaf : isLeaf n = true -> leaf_ok ks n
}.

(** The invariant of the tree after the keys [ks] were inserted.  The
    stream has failed and the file is empty, so the tree is what the pool
    holds.  Either page 0 is the root, a leaf holding all of [ks], in frame
    0; or the first split has happened: page 2 is the root, it is in the
    pool with its key and the children 0 and 1, and the other two frames
    hold leaves. *)
Record tree_inv (ks : list Z) (t : BPlusTree) : Prop := {
  ti_coh : coherent (bm t);
  ti_failed : failed (sm (bm t)) = true;
  ti_file : dbFile (sm (bm t)) = ∅;
  ti_resident : forall p f,
    pageTable (bm t) !! p = Some f -> 0 <= p < nextPageID (bm t);
  ti_nodes : forall f fr, pool (bm t) !! f = Some fr -> node_ok ks (data fr);
  ti_phase :
    (rootPage t = 0 /\ nextPageID (bm t) = 1 /\
     Z.of_nat (length ks) <= MAX_KEYS /\
     lru (bm t) = [0%nat] /\
     exists fr,
       pool (bm t) !! 0%nat = Some fr /\ pageID fr = 0 /\
       isLeaf (data fr) = true /\ parentPage (data fr) = -1 /\
       leafKeys (data fr) ≡ₚ ks) \/
    (rootPage t = 2 /\ MAX_KEYS < Z.of_nat (length ks) /\
     3 <= nextPageID (bm t) < Z.of_nat (length ks) /\
     length (lru (bm t)) = 3%nat /\
     exists f fr sep,
       pageTable (bm t) !! 2 = Some f /\ pool (bm t) !! f = Some fr /\
       data fr = newRootNode sep 0 1 /\
       merge_sort Z.le (take 4 ks) !! 2%nat = Some sep /\
       forall g gr,
         g ≠ f -> pool (bm t) !! g = Some gr ->
         isLeaf (data gr) = true /\ 2 <= numKeys (data gr))
}.

(** Page [q] is reached from page [p]: by child links, each page being
    read as the tree reads it, through [fetchPage]. *)
Inductive reaches : BufferManager -> Z -> Z -> Prop :=
| reaches_here b p : reaches b p p
| reaches_child b p n b' i c q :
    visit p b = Some (n, b') -> isLeaf n = false ->
    Z.of_nat i <= numKeys n -> children n !! i = Some c ->
    reaches b' c q ->
    reaches b p q.

(** Page [p] can be reached from the root. *)
Definition reachable (t : BPlusTree) (p : Z) : Prop :=
  reaches (bm t) (rootPage t) p.

(** The two shapes of the tree: the root is a leaf; or the root is an
    internal node with one key and two children, and the tree, once it has
    read the root, finds a leaf on either child, which is also what is
    stored for the child when anything is. *)
Definition single_leaf (t : BPlusTree) : Prop :=
  exists n b', visit (rootPage t) (bm t) = Some (n, b') /\ isLeaf n = true.

Definition one_internal_level (t : BPlusTree) : Prop :=
  exists r b1 c0 c1,
    visit (rootPage t) (bm t) = Some (r, b1) /\ isLeaf r = false /\
    numKeys r = 1 /\
    children r !! 0%nat = Some c0 /\ children r !! 1%nat = Some c1 /\
    c0 ≠ c1 /\
    forall c, c = c0 \/ c = c1 ->
      (exists l b2, visit c b1 = Some (l, b2) /\ isLeaf l = true) /\
      (forall l, content (bm t) c = Some l -> isLeaf l = true).

(** The tree the constructor builds on a new buffer manager over a new
    storage manager: the first read, at the end of the empty file, has
    failed the stream. *)
Definition emptyLeaf : BPlusNode := mkNode true 0 (-1) [0; 0; 0] [0; 0; 0; 0] 0.
Definition newTree : BPlusTree :=
  mkTree
    (mkBuffer (mkStorage ∅ 0 true)
       [mkFrame 0 true emptyLeaf; emptyFrame; emptyFrame]
       (<[0 := 0%nat]> ∅) [0%nat] 1
       [BufferHit 0; DiskReading 0; BufferMiss 0; SystemAllocating 0])
    0.

(** What [findLeaf(page, key)] does, [n] being the node it finds on the
    page and [b'] the buffer manager after the fetch. *)
Definition descent_post (fuel : nat) (page key : Z) (n : BPlusNode)
  (b' : BufferManager) (t : BPlusTree) : Prop :=
  (isLeaf n = true ->
   findLeaf (S fuel) page key t = Ok page (mkTree b' (rootPage t))) /\
  (isLeaf n = false ->
   exists i child,
     (Z.of_nat i <= numKeys n) /\
     (forall j k, (j < i)%nat -> keys n !! j = Some k -> ~ key < k) /\
     (Z.of_nat i < numKeys n -> exists k, keys n !! i = Some k /\ key < k) /\
     children n !! i = Some child /\
     findLeaf (S fuel) page key t =
       findLeaf fuel child key (mkTree b' (rootPage t)) /\
     (StronglySorted Z.le (leafKeys n) ->
      forall j, Z.of_nat j < numKeys n -> keys n !! j = Some key ->
                (j < i)%nat)).

(** What [splitLeaf(old, key)] does to the full leaf [pg] that frame [fo]
    holds for page [old]. *)
Definition split_post (key old : Z) (fo : nat) (pg : BPlusNode) (t : BPlusTree)
  : Prop :=
  let new := nextPageID (bm t) in
  let sorted := merge_sort Z.le (leafKeys pg ++ [key]) in
  StronglySorted Z.le sorted /\ sorted ≡ₚ leafKeys pg ++ [key] /\
  exists b' k fn po pn,
    splitLeaf old key t = insertIntoParent old k new (mkTree b' (rootPage t)) /\
    nextPageID b' = wrap (new + 1) /\
    fn ≠ fo /\
    pageTable b' !! old = Some fo /\ pool b' !! fo = Some (mkFrame old true po) /\
    pageTable b' !! new = Some fn /\ pool b' !! fn = Some (mkFrame new true pn) /\
    (forall g, g ≠ fo -> g ≠ fn -> pool b' !! g = pool (bm t) !! g) /\
    isLeaf po = true /\ isLeaf pn = true /\
    numKeys po = mid /\ leafKeys po = take (Z.to_nat mid) sorted /\
    numKeys pn = MAX_KEYS + 1 - mid /\ leafKeys pn = drop (Z.to_nat mid) sorted /\
    parentPage pn = 0 /\ nextLeaf pn = 0 /\
    parentPage po = parentPage pg /\ nextLeaf po = nextLeaf pg /\
    head (leafKeys pn) = Some k.

(** ** The trees of the examples *)

Definition demoTree : BPlusTree := treeAfter [10; 20; 30; 40; 50].
Definition fullLeafTree : BPlusTree := treeAfter [10; 20; 30].
Definition gapTree : BPlusTree := treeAfter [10; 20; 30; 40; 50; 60].
Definition fullLeaf : BPlusNode := mkNode true 3 (-1) [10; 20; 30] [0; 0; 0; 0] 0.
Definition demoRoot : BPlusNode := mkNode false 1 0 [30; 0; 0] [0; 1; 0; 0] 0.

(** A client session of the buffer manager. *)
Definition demoCalls : list Call :=
  [CallAllocatePage; CallFetchPage 0; CallMarkDirty 0; CallAllocatePage;
   CallAllocatePage; CallAllocatePage; CallFetchPage 1; CallMarkDirty 7].

(** A buffer manager whose page counter has reached the last [int]. *)
Definition lastPageManager : BufferManager :=
  set_nextPageID INT_MAX (newBufferManager newStorageManager).

Definition relabelledTree : BPlusTree := treeAfter [9; 24; 34; 37; 23; 14; 36].

(** ** Frames, whatever was inserted *)

(** What a frame holds after any run of inserts: arrays of the declared
    sizes, and, in a leaf, a count within bounds and keys in order. *)
Definition frame_sound (n : BPlusNode) : Prop :=
  wellSized n /\
  (isLeaf n = true ->
   0 <= numKeys n <= MAX_KEYS /\ StronglySorted Z.le (leafKeys n)).

Record pool_sound (b : BufferManager) : Prop := {
  ps_coh : coherent b;
  ps_failed : failed (sm b) = true;
  ps_file : dbFile (sm b) = ∅;
  ps_frames : forall f fr, pool b !! f = Some fr -> frame_sound (data fr)
}.

(** * Verification *)

(** ** Running the monad *)

Lemma bind_ok {S A B} (c : M S A) (k : A -> M S B) s a s' :
  c s = Ok a s' -> bind c k s = k a s'.
Proof. intros H. unfold bind. by rewrite H. Qed.

Lemma liftB_bind {A B} (c : M BufferManager A) (k : A -> M BufferManager B) t :
  liftB (bind c k) t = bind (liftB c) (fun a => liftB (k a)) t.
Proof. unfold liftB, bind. by destruct (c (bm t)). Qed.

Lemma liftB_ok {A} (c : M BufferManager A) t a b' :
  c (bm t) = Ok a b' -> liftB c t = Ok a (mkTree b' (rootPage t)).
Proof. intros H. unfold liftB. by rewrite H. Qed.


(** ** The stream once it has failed *)

Lemma seek_failed off s : failed s = true -> seek off s = s.
Proof. intros H. unfold seek. by rewrite H. Qed.

Lemma write_failed d s : failed s = true -> write d s = s.
Proof. intros H. unfold write. by rewrite H. Qed.

Lemma read_failed buf s : failed s = true -> read buf s = (buf, s).
Proof. intros H. unfold read. by rewrite H. Qed.

Lemma afterWrite_failed s p d : failed s = true -> afterWrite s p d = s.
Proof.
  intros H. unfold afterWrite. rewrite seek_failed by done. by apply write_failed.
Qed.

Lemma flushed_failed fr s : failed s = true -> flushed fr s = s.
Proof.
  intros H. unfold flushed. destruct (dirty fr); [by apply afterWrite_failed|done].
Qed.

Lemma afterRead_failed s p buf : failed s = true -> afterRead s p buf = s.
Proof.
  intros H. unfold afterRead. rewrite seek_failed by done. by rewrite read_failed.
Qed.

Lemma readBlock_failed s p buf : failed s = true -> readBlock s p buf = buf.
Proof.
  intros H. unfold readBlock. rewrite seek_failed by done. by rewrite read_failed.
Qed.

(** A read on an empty file transfers nothing and leaves the stream
    failed, wherever it is made. *)
Lemma fileSize_empty s : dbFile s = ∅ -> fileSize s = 0.
Proof. intros H. unfold fileSize. rewrite H. apply map_fold_empty. Qed.

Lemma seek_file off s : dbFile (seek off s) = dbFile s.
Proof. unfold seek. destruct (failed s); [done|]. by destruct (off <? 0). Qed.

Lemma seek_pos off s : failed (seek off s) = false -> 0 <= pos (seek off s).
Proof.
  unfold seek. destruct (failed s) eqn:Hf; [by rewrite Hf|].
  destruct (Z.ltb_spec off 0); cbn; [done|lia].
Qed.

Lemma read_empty buf s :
  dbFile s = ∅ -> (failed s = false -> 0 <= pos s) ->
  (read buf s).1 = buf /\ failed (read buf s).2 = true /\
  dbFile (read buf s).2 = ∅.
Proof.
  intros He Hpos. unfold read. destruct (failed s) eqn:Hf; [done|].
  rewrite He, lookup_empty, fileSize_empty by done.
  destruct (Z.ltb_spec (pos s) 0); [lia|done].
Qed.

Lemma readBlock_empty s p buf : dbFile s = ∅ -> readBlock s p buf = buf.
Proof.
  intros He. unfold readBlock.
  apply read_empty; [by rewrite seek_file|apply seek_pos].
Qed.

Lemma afterRead_empty s p buf :
  dbFile s = ∅ ->
  failed (afterRead s p buf) = true /\ dbFile (afterRead s p buf) = ∅.
Proof.
  intros He. unfold afterRead.
  apply read_empty; [by rewrite seek_file|apply seek_pos].
Qed.

(** ** Lists *)

Lemma filter_ne_absent (f : nat) (l : list nat) :
  f ∉ l -> filter (fun j => j ≠ f) l = l.
Proof.
  induction l as [|x l IH]; intros Hf; [done|].
  rewrite filter_cons. apply not_elem_of_cons in Hf as [Hx Hl].
  destruct (decide (x ≠ f)) as [_|Hn]; [by rewrite IH | by destruct Hn].
Qed.

Lemma touched_perm (f : nat) (l : list nat) :
  NoDup l -> f ∈ l -> touched f l ≡ₚ l.
Proof.
  unfold touched. induction l as [|x l IH]; intros Hnd Hf.
  - by apply elem_of_nil in Hf.
  - apply NoDup_cons in Hnd as [Hx Hnd]. rewrite filter_cons.
    destruct (decide (x ≠ f)) as [Hne|Heq].
    + apply elem_of_cons in Hf as [->|Hf]; [done|].
      rewrite Permutation_swap. by rewrite IH.
    + apply dec_stable in Heq. subst x. by rewrite filter_ne_absent.
Qed.

Lemma removelast_snoc (l : list nat) (v : nat) : removelast (l ++ [v]) = l.
Proof. by rewrite removelast_app, app_nil_r. Qed.

Lemma last_snoc_inv (l : list nat) (v : nat) :
  last l = Some v -> exists l', l = l' ++ [v].
Proof.
  intros H. destruct (decide (l = [])) as [->|Hne]; [done|].
  destruct (exists_last Hne) as (l' & x & ->). rewrite last_snoc in H.
  exists l'. congruence.
Qed.


(** ** The buffer manager, call by call *)

Lemma coherent_nodup b : coherent b -> NoDup (lru b).
Proof. intros H. rewrite (coh_occ _ H). apply NoDup_seq. Qed.

Lemma coherent_elem b f :
  coherent b -> f ∈ lru b <-> (f < length (lru b))%nat.
Proof. intros H. rewrite (coh_occ _ H) at 1. rewrite elem_of_seq. lia. Qed.

Lemma coherent_frame b f :
  coherent b -> (f < Z.to_nat BUFFER_CAPACITY)%nat -> is_Some (pool b !! f).
Proof. intros H Hf. apply lookup_lt_is_Some. by rewrite (coh_pool _ H). Qed.

Lemma setFrame_ok b idx g fr :
  pool b !! idx = Some fr ->
  setFrame idx g b = Ok tt (set_pool (<[idx := g fr]> (pool b)) b).
Proof. intros H. unfold setFrame. by rewrite H. Qed.

Lemma frame_ok b idx fr : pool b !! idx = Some fr -> frame idx b = Ok fr b.
Proof. intros H. unfold frame. by rewrite H. Qed.

Lemma lookup_set_pool (l : list Frame) idx fr fr0 :
  l !! idx = Some fr0 -> <[idx := fr]> l !! idx = Some fr.
Proof. intros H. apply list_lookup_insert_eq. by eapply lookup_lt_Some. Qed.

(** Steps that cannot fail are run by computation. *)
Ltac mstep := erewrite bind_ok by reflexivity.
Tactic Notation "mstep_by" tactic3(tac) := erewrite bind_ok by tac.

Lemma evict_room b :
  Z.of_nat (length (lru b)) < BUFFER_CAPACITY ->
  evict b = Ok (length (lru b)) b.
Proof.
  intros H. unfold evict. mstep.
  destruct (Z.ltb_spec (Z.of_nat (length (lru b))) BUFFER_CAPACITY); [done|lia].
Qed.

Lemma evict_victim b l v fr :
  BUFFER_CAPACITY <= Z.of_nat (length (lru b)) ->
  lru b = l ++ [v] ->
  pool b !! v = Some fr ->
  evict b =
  Ok v (mkBuffer
          (flushed fr (sm b))
          (pool b) (delete (pageID fr) (pageTable b)) l (nextPageID b)
          ((if dirty fr then [DiskWriting (pageID fr)] else [])
             ++ EvictKicking (pageID fr) :: cout b)).
Proof.
  intros Hge Hl Hfr. unfold evict. mstep.
  destruct (Z.ltb_spec (Z.of_nat (length (lru b))) BUFFER_CAPACITY); [lia|].
  rewrite Hl, last_snoc. mstep_by (by apply frame_ok). mstep.
  unfold flushed. destruct (dirty fr) eqn:Hd.
  - unfold writeDisk.
    mstep_by (do 2 mstep; mstep_by (by apply frame_ok); reflexivity).
    cbn. rewrite Hl, removelast_snoc. by destruct b.
  - cbn. rewrite Hl, removelast_snoc. by destruct b.
Qed.

Lemma readDisk_ok p idx fr b :
  pool b !! idx = Some fr ->
  readDisk p idx b =
  Ok tt (mkBuffer (afterRead (sm b) p (data fr))
           (<[idx := set_data (readBlock (sm b) p (data fr)) fr]> (pool b))
           (pageTable b) (lru b) (nextPageID b) (DiskReading p :: cout b)).
Proof.
  intros Hfr. unfold readDisk. do 3 mstep.
  mstep_by (by apply frame_ok).
  mstep_by (by apply setFrame_ok).
  reflexivity.
Qed.

Lemma fetchPage_fetched p b :
  coherent b ->
  exists f b', fetchPage p b = Ok f b' /\ fetched p b f b' /\
               nextPageID b' = nextPageID b.
Proof.
  intros Hc. unfold fetchPage. mstep.
  destruct (pageTable b !! p) as [f|] eqn:Hp.
  - eexists _, _. split; [reflexivity|]. split; [|done].
    by apply fetched_hit.
  - mstep.
    destruct (Z.ltb_spec (Z.of_nat (length (lru b))) BUFFER_CAPACITY) as [Hlt|Hge].
    + destruct (coherent_frame b (length (lru b)) Hc) as [fr Hfr]; [lia|].
      mstep_by (by apply evict_room).
      mstep_by (by apply readDisk_ok).
      mstep_by (apply setFrame_ok; cbn; eapply lookup_set_pool, Hfr).
      mstep_by (apply setFrame_ok; cbn; eapply lookup_set_pool, lookup_set_pool, Hfr).
      cbn. rewrite !list_insert_insert_eq.
      eexists _, _. split; [reflexivity|]. split; [|done].
      eapply fetched_room; cbn; try done.
      * lia.
      * rewrite filter_ne_absent; [done|].
        rewrite (coherent_elem _ _ Hc). lia.
    + assert (Hlen : length (lru b) = Z.to_nat BUFFER_CAPACITY).
      { pose proof (coh_cap _ Hc). lia. }
      destruct (last (lru b)) as [v|] eqn:Hlast.
      2:{ apply last_None in Hlast. rewrite Hlast in Hlen. done. }
      destruct (last_snoc_inv _ _ Hlast) as [l Hl].
      assert (Hv : v ∈ lru b) by (rewrite Hl; set_solver).
      destruct (coherent_frame b v Hc) as [fr Hfr].
      { apply (coherent_elem _ _ Hc) in Hv. lia. }
      mstep_by (by eapply evict_victim).
      mstep_by (by apply readDisk_ok).
      mstep_by (apply setFrame_ok; cbn; eapply lookup_set_pool, Hfr).
      mstep_by (apply setFrame_ok; cbn; eapply lookup_set_pool, lookup_set_pool, Hfr).
      cbn. rewrite !list_insert_insert_eq.
      eexists _, _. split; [reflexivity|]. split; [|done].
      eapply fetched_evict; cbn; try done.
      rewrite filter_ne_absent; [done|].
      pose proof (coherent_nodup _ Hc) as Hnd. rewrite Hl in Hnd.
      apply NoDup_app in Hnd as (_ & Hnd & _). intros Hin.
      apply (Hnd v Hin). set_solver.
Qed.

Lemma fetched_coherent p b f b' :
  coherent b -> fetched p b f b' -> coherent b'.
Proof.
  intros Hc [Hp Hsm Hpool Hpt Hlru | fr Hp Hlt -> Hfr Hsm Hpool Hpt Hlru
            | l fr Hp Hlen Hl Hfr Hsm Hpool Hpt Hlru].
  - assert (Hf : f ∈ lru b) by (by apply (coh_table _ Hc) in Hp as [? _]).
    pose proof (touched_perm f _ (coherent_nodup _ Hc) Hf) as Hperm.
    split.
    + rewrite Hpool. apply Hc.
    + rewrite Hlru, Hperm. apply Hc.
    + rewrite Hlru, Hperm. apply Hc.
    + intros q g. rewrite Hpt, Hpool, Hlru, Hperm. apply Hc.
  - assert (Hfresh : length (lru b) ∉ lru b).
    { rewrite (coherent_elem _ _ Hc). lia. }
    split.
    + rewrite Hpool, length_insert. apply Hc.
    + rewrite Hlru. cbn. lia.
    + rewrite Hlru. cbn [length]. rewrite seq_S, <- Permutation_cons_append.
      cbn. apply Permutation_skip, Hc.
    + intros q g. rewrite Hpt, Hpool, Hlru. rewrite elem_of_cons.
      destruct (decide (q = p)) as [->|Hq].
      * rewrite lookup_insert_eq. split.
        -- intros [= <-]. split; [by left|].
           eexists. split; [by eapply lookup_set_pool|done].
        -- intros [[->|Hg] (fr' & Hfr' & Hid)]; [done|].
           rewrite list_lookup_insert_ne in Hfr' by (by intros <-).
           assert (pageTable b !! p = Some g) as Hcontra
             by (apply (coh_table _ Hc); eauto).
           congruence.
      * rewrite lookup_insert_ne by done. rewrite (coh_table _ Hc). split.
        -- intros (Hg & fr' & Hfr' & Hid). split; [by right|].
           exists fr'. rewrite list_lookup_insert_ne by (by intros <-). done.
        -- intros [[->|Hg] (fr' & Hfr' & Hid)].
           { erewrite lookup_set_pool in Hfr' by done. by injection Hfr' as <-. }
           rewrite list_lookup_insert_ne in Hfr' by (by intros <-). eauto.
  - pose proof (coherent_nodup _ Hc) as Hnd. rewrite Hl in Hnd.
    apply NoDup_app in Hnd as (Hndl & Hdisj & _).
    assert (Hfl : f ∉ l) by (intros Hin; apply (Hdisj f Hin); set_solver).
    assert (Hlenl : length (lru b) = S (length l)).
    { rewrite Hl, length_app. cbn. lia. }
    assert (Hperm : f :: l ≡ₚ lru b).
    { rewrite Hl. apply Permutation_cons_append. }
    assert (Hold : pageTable b !! pageID fr = Some f).
    { apply (coh_table _ Hc). split; [rewrite Hl; set_solver | eauto]. }
    split.
    + rewrite Hpool, length_insert. apply Hc.
    + rewrite Hlru. cbn. rewrite <- Hlenl. apply Hc.
    + rewrite Hlru. cbn [length]. rewrite <- Hlenl, Hperm. apply Hc.
    + intros q g. rewrite Hpt, Hpool, Hlru, Hperm.
      destruct (decide (q = p)) as [->|Hq].
      * rewrite lookup_insert_eq. split.
        -- intros [= <-]. split; [rewrite Hl; set_solver|].
           eexists. split; [by eapply lookup_set_pool|done].
        -- intros [Hg (fr' & Hfr' & Hid)].
           destruct (decide (g = f)) as [->|Hgf]; [done|].
           rewrite list_lookup_insert_ne in Hfr' by done.
           assert (pageTable b !! p = Some g) as Hcontra
             by (apply (coh_table _ Hc); eauto).
           congruence.
      * rewrite lookup_insert_ne by done.
        destruct (decide (q = pageID fr)) as [->|Hqv].
        -- rewrite lookup_delete_eq. split; [done|].
           intros [Hg (fr' & Hfr' & Hid)].
           destruct (decide (g = f)) as [->|Hgf].
           { erewrite lookup_set_pool in Hfr' by done.
             injection Hfr' as <-. cbn in Hid. congruence. }
           rewrite list_lookup_insert_ne in Hfr' by done.
           assert (pageTable b !! pageID fr = Some g) as Hcontra
             by (apply (coh_table _ Hc); eauto).
           congruence.
        -- rewrite lookup_delete_ne by done. rewrite (coh_table _ Hc). split.
           ++ intros (Hg & fr' & Hfr' & Hid). split; [done|].
              exists fr'. rewrite list_lookup_insert_ne; [done|].
              intros <-. congruence.
           ++ intros [Hg (fr' & Hfr' & Hid)]. split; [done|].
              destruct (decide (g = f)) as [->|Hgf].
              { erewrite lookup_set_pool in Hfr' by done.
                injection Hfr' as <-. cbn in Hid. congruence. }
              rewrite list_lookup_insert_ne in Hfr' by done. eauto.
Qed.

Lemma coherent_pageID b q g fr :
  coherent b -> pageTable b !! q = Some g -> pool b !! g = Some fr ->
  pageID fr = q.
Proof.
  intros Hc Hq Hg. apply (coh_table _ Hc) in Hq as (_ & fr' & Hfr' & Hid).
  congruence.
Qed.

Lemma coherent_resident_frame b q g :
  coherent b -> pageTable b !! q = Some g -> is_Some (pool b !! g).
Proof.
  intros Hc Hq. apply (coh_table _ Hc) in Hq as (_ & fr' & Hfr' & _). eauto.
Qed.

Lemma fetched_lookup p b f b' :
  coherent b -> fetched p b f b' ->
  pageTable b' !! p = Some f /\ head (lru b') = Some f /\
  exists fr, pool b' !! f = Some fr /\ pageID fr = p.
Proof.
  intros Hc [Hp Hsm Hpool Hpt Hlru | fr Hp Hlt -> Hfr Hsm Hpool Hpt Hlru
            | l fr Hp Hlen Hl Hfr Hsm Hpool Hpt Hlru];
    rewrite Hpt, Hlru, Hpool.
  - split; [done|]. split; [done|].
    by apply (coh_table _ Hc) in Hp as [_ ?].
  - rewrite lookup_insert_eq. split; [done|]. split; [done|].
    eexists. split; [by eapply lookup_set_pool|done].
  - rewrite lookup_insert_eq. split; [done|]. split; [done|].
    eexists. split; [by eapply lookup_set_pool|done].
Qed.

(** The frame at the head of the recency list survives the next fetch:
    the pool has room for more than one page. *)
Lemma fetched_keeps_head p b f b' q g :
  coherent b -> fetched p b f b' ->
  head (lru b) = Some g -> pageTable b !! q = Some g ->
  pageTable b' !! q = Some g /\ pool b' !! g = pool b !! g.
Proof.
  intros Hc Hf Hhd Hq.
  assert (Hg : g ∈ lru b) by (by apply (coh_table _ Hc) in Hq as [? _]).
  destruct Hf as [Hp Hsm Hpool Hpt Hlru | fr Hp Hlt -> Hfr Hsm Hpool Hpt Hlru
                 | l fr Hp Hlen Hl Hfr Hsm Hpool Hpt Hlru];
    rewrite Hpt, Hpool.
  - done.
  - assert (q ≠ p) by congruence.
    rewrite lookup_insert_ne by done. split; [done|].
    apply list_lookup_insert_ne. intros <-.
    apply (coherent_elem _ _ Hc) in Hg. lia.
  - assert (q ≠ p) by congruence.
    assert (Hgf : g ≠ f).
    { pose proof (coherent_nodup _ Hc) as Hnd. rewrite Hl in Hnd, Hhd, Hlen.
      destruct l as [|x l]; [done|]. cbn in Hhd. injection Hhd as ->.
      apply NoDup_cons in Hnd as [Hnd _]. set_solver. }
    assert (Hold : pageTable b !! pageID fr = Some f).
    { apply (coh_table _ Hc). split; [rewrite Hl; set_solver | eauto]. }
    rewrite lookup_insert_ne by done.
    rewrite lookup_delete_ne by congruence. split; [done|].
    by apply list_lookup_insert_ne.
Qed.

Lemma coherent_ext b b' :
  pool b' = pool b -> pageTable b' = pageTable b -> lru b' = lru b ->
  coherent b -> coherent b'.
Proof.
  intros Hpool Hpt Hlru [H1 H2 H3 H4].
  split; rewrite ?Hpool, ?Hpt, ?Hlru; done.
Qed.

Lemma overwrite_coherent p f pg' b b' :
  coherent b -> pageTable b !! p = Some f -> overwritten p f pg' b b' ->
  coherent b'.
Proof.
  intros Hc Hp [Hfr Hoth Hlen Hsm Hpt Hlru _].
  split.
  - rewrite Hlen. apply Hc.
  - rewrite Hlru. apply Hc.
  - rewrite Hlru. apply Hc.
  - intros q g. rewrite Hpt, Hlru, (coh_table _ Hc).
    destruct (decide (g = f)) as [->|Hg].
    + rewrite Hfr. split.
      * intros (Hin & fr0 & Hfr0 & Hid). split; [done|].
        eexists. split; [done|]. cbn.
        by rewrite <- Hid, (coherent_pageID _ _ _ _ Hc Hp Hfr0).
      * intros (Hin & fr0 & [= <-] & Hid). split; [done|].
        destruct (coherent_resident_frame _ _ _ Hc Hp) as [fr0 Hfr0].
        exists fr0. split; [done|].
        by rewrite (coherent_pageID _ _ _ _ Hc Hp Hfr0).
    + by rewrite Hoth.
Qed.

(** A fetch of a resident page is a hit: only the recency list changes. *)
Lemma fetchPage_resident p f b :
  pageTable b !! p = Some f ->
  exists b', fetchPage p b = Ok f b' /\
             sm b' = sm b /\ pool b' = pool b /\ pageTable b' = pageTable b /\
             lru b' = touched f (lru b) /\ nextPageID b' = nextPageID b.
Proof.
  intros Hp. unfold fetchPage. mstep. rewrite Hp.
  eexists. split; [reflexivity|]. done.
Qed.

Lemma deref_ok b node fr :
  pool b !! node = Some fr -> deref node b = Ok (data fr) b.
Proof. intros H. unfold deref. by mstep_by (by apply frame_ok). Qed.

Lemma setNode_ok b node g fr :
  pool b !! node = Some fr ->
  setNode node g b = Ok tt (set_pool (<[node := set_data (g (data fr)) fr]> (pool b)) b).
Proof. intros H. unfold setNode. by erewrite setFrame_ok. Qed.

Lemma writeKey_ok b node i v fr ks :
  pool b !! node = Some fr -> store (keys (data fr)) i v = Some ks ->
  writeKey node i v b =
  Ok tt (set_pool (<[node := set_data (set_keys ks (data fr)) fr]> (pool b)) b).
Proof.
  intros H Hst. unfold writeKey. mstep_by (by apply deref_ok).
  rewrite Hst. by apply setNode_ok.
Qed.

Lemma writeChild_ok b node i v fr cs :
  pool b !! node = Some fr -> store (children (data fr)) i v = Some cs ->
  writeChild node i v b =
  Ok tt (set_pool (<[node := set_data (set_children cs (data fr)) fr]> (pool b)) b).
Proof.
  intros H Hst. unfold writeChild. mstep_by (by apply deref_ok).
  rewrite Hst. by apply setNode_ok.
Qed.

Lemma markDirty_ok b p f fr :
  pageTable b !! p = Some f -> pool b !! f = Some fr ->
  markDirty p b = Ok tt (set_pool (<[f := set_dirty true fr]> (pool b)) b).
Proof.
  intros Hp Hf. unfold markDirty. mstep. rewrite Hp. by apply setFrame_ok.
Qed.

Lemma markDirty_absent b p :
  pageTable b !! p = None -> markDirty p b = Ok tt b.
Proof. intros Hp. unfold markDirty. mstep. by rewrite Hp. Qed.

Lemma fetched_ext p b0 b f b' :
  sm b0 = sm b -> pool b0 = pool b -> pageTable b0 = pageTable b ->
  lru b0 = lru b -> fetched p b0 f b' -> fetched p b f b'.
Proof.
  destruct b0, b. cbn. intros -> -> -> -> Hf.
  destruct Hf; [eapply fetched_hit | eapply fetched_room | eapply fetched_evict];
    cbn in *; eauto.
Qed.
(** An allocation is a fetch of the next page number followed by a rewrite
    of the fetched frame. *)
Lemma allocatePage_run b :
  coherent b ->
  exists f b1 b',
    allocatePage b = Ok (nextPageID b) b' /\
    fetched (nextPageID b) b f b1 /\
    overwritten (nextPageID b) f zeroPage b1 b' /\
    nextPageID b' = wrap (nextPageID b + 1).
Proof.
  intros Hc. unfold allocatePage. do 3 mstep.
  set (b0 := set_cout _ _).
  assert (Hc0 : coherent b0) by (by apply (coherent_ext b)).
  destruct (fetchPage_fetched (nextPageID b) b0 Hc0)
    as (f & b1 & Hrun & Hf & Hnext).
  destruct (fetched_lookup _ _ _ _ Hc0 Hf) as (Hpf & Hhd & fr & Hfr & Hid).
  mstep_by exact Hrun.
  mstep_by (by apply setFrame_ok).
  mstep_by (eapply markDirty_ok; [exact Hpf | cbn; by eapply lookup_set_pool]).
  cbn. rewrite list_insert_insert_eq.
  eexists f, b1, _. split; [reflexivity|].
  split; [by apply (fetched_ext _ b0)|]. split; [|by cbn; rewrite Hnext].
  split; try done; cbn.
  - erewrite lookup_set_pool by done. unfold set_dirty, set_data. cbn.
    by rewrite Hid.
  - intros g Hg. by rewrite list_lookup_insert_ne.
  - by rewrite length_insert.
Qed.

Lemma allocatePage_coherent b :
  coherent b ->
  exists f b',
    allocatePage b = Ok (nextPageID b) b' /\
    coherent b' /\
    nextPageID b' = wrap (nextPageID b + 1) /\
    pageTable b' !! nextPageID b = Some f /\
    pool b' !! f = Some (mkFrame (nextPageID b) true zeroPage).
Proof.
  intros Hc. destruct (allocatePage_run b Hc) as (f & b1 & b' & Hrun & Hf & How & Hn).
  destruct (fetched_lookup _ _ _ _ Hc Hf) as (Hpf & _ & _).
  pose proof (fetched_coherent _ _ _ _ Hc Hf) as Hc1.
  exists f, b'. split; [done|].
  split; [by eapply overwrite_coherent|]. split; [done|].
  split; [by rewrite (ow_pageTable _ _ _ _ _ How)|apply How].
Qed.



Lemma markDirty_run p b :
  coherent b ->
  exists b', markDirty p b = Ok tt b' /\
    (pageTable b !! p = None /\ b' = b \/
     exists f fr, pageTable b !! p = Some f /\ pool b !! f = Some fr /\
                  overwritten p f (data fr) b b').
Proof.
  intros Hc. destruct (pageTable b !! p) as [f|] eqn:Hp.
  - destruct (coherent_resident_frame _ _ _ Hc Hp) as [fr Hfr].
    eexists. split; [by eapply markDirty_ok|]. right. exists f, fr.
    split; [done|]. split; [done|]. split; try done; cbn.
    + erewrite lookup_set_pool by done. unfold set_dirty.
      by rewrite (coherent_pageID _ _ _ _ Hc Hp Hfr).
    + intros g Hg. by rewrite list_lookup_insert_ne.
    + by rewrite length_insert.
  - exists b. split; [by apply markDirty_absent|]. by left.
Qed.

Lemma markDirty_coherent p b :
  coherent b -> exists b', markDirty p b = Ok tt b' /\ coherent b' /\
                           nextPageID b' = nextPageID b.
Proof.
  intros Hc. destruct (markDirty_run p b Hc) as (b' & Hrun & [[_ ->]|H]).
  - by exists b.
  - destruct H as (f & fr & Hp & Hfr & How). exists b'. split; [done|].
    split; [by eapply overwrite_coherent|apply How].
Qed.

Lemma newBufferManager_coherent s : coherent (newBufferManager s).
Proof.
  split; cbn; try done.
  - lia.
  - intros p f. rewrite lookup_empty. split; [done|].
    intros [Hin _]. by apply elem_of_nil in Hin.
Qed.

Lemma newBufferManager_inv s : bm_inv (newBufferManager s).
Proof.
  split; [apply newBufferManager_coherent| |]; cbn.
  - intros f fr _ Hin. by apply elem_of_nil in Hin.
  - intros f fr Hfr _. apply list_elem_of_lookup_2 in Hfr.
    apply elem_of_replicate in Hfr as [-> _]. done.
Qed.

Lemma fetched_inv p b f b' :
  0 <= p -> bm_inv b -> fetched p b f b' -> bm_inv b'.
Proof.
  intros Hp0 [Hc Hused Hempty] Hf.
  pose proof (fetched_coherent _ _ _ _ Hc Hf) as Hc'.
  split; [done| |];
    destruct Hf as [Hp Hsm Hpool Hpt Hlru | fr0 Hp Hlt -> Hfr Hsm Hpool Hpt Hlru
                   | l fr0 Hp Hlen Hl Hfr Hsm Hpool Hpt Hlru];
    intros g gr; rewrite Hpool, Hlru.
  - assert (Hin : f ∈ lru b) by (by apply (coh_table _ Hc) in Hp as [? _]).
    rewrite (touched_perm f _ (coherent_nodup _ Hc) Hin). apply Hused.
  - destruct (decide (g = length (lru b))) as [->|Hg].
    + erewrite lookup_set_pool by done. by intros [= <-].
    + rewrite list_lookup_insert_ne by done. rewrite elem_of_cons.
      intros Hgr [?|Hin]; [done|]. by eapply Hused.
  - destruct (decide (g = f)) as [->|Hg].
    + erewrite lookup_set_pool by done. by intros [= <-].
    + rewrite list_lookup_insert_ne by done. rewrite elem_of_cons.
      intros Hgr [?|Hin]; [done|]. eapply Hused; [done|].
      rewrite Hl. set_solver.
  - assert (Hin : f ∈ lru b) by (by apply (coh_table _ Hc) in Hp as [? _]).
    rewrite (touched_perm f _ (coherent_nodup _ Hc) Hin). apply Hempty.
  - destruct (decide (g = length (lru b))) as [->|Hg].
    + intros _ Hnin. set_solver.
    + rewrite list_lookup_insert_ne by done. intros Hgr Hnin.
      eapply Hempty; [done|]. set_solver.
  - destruct (decide (g = f)) as [->|Hg].
    + intros _ Hnin. set_solver.
    + rewrite list_lookup_insert_ne by done. intros Hgr Hnin.
      eapply Hempty; [done|]. rewrite Hl.
      intros [?|?%list_elem_of_singleton]%elem_of_app; [|done].
      apply Hnin. by right.
Qed.

Lemma overwritten_inv p f pg' b b' :
  bm_inv b -> pageTable b !! p = Some f -> overwritten p f pg' b b' ->
  bm_inv b'.
Proof.
  intros [Hc Hused Hempty] Hp How.
  pose proof (overwrite_coherent _ _ _ _ _ Hc Hp How) as Hc'.
  destruct How as [Hfr Hoth Hlen Hsm Hpt Hlru Hnext].
  destruct (coherent_resident_frame _ _ _ Hc Hp) as [fr0 Hfr0].
  assert (Hin : f ∈ lru b) by (by apply (coh_table _ Hc) in Hp as [? _]).
  split; [done| |]; intros g gr; rewrite Hlru;
    (destruct (decide (g = f)) as [->|Hg]; [|rewrite Hoth by done; eauto]).
  - rewrite Hfr. intros [= <-] _. cbn.
    rewrite <- (coherent_pageID _ _ _ _ Hc Hp Hfr0). eauto.
  - done.
Qed.

Lemma coherent_coherence b : coherent b -> cache_coherence b.
Proof.
  intros Hc.
  assert (Hinj : forall p q f,
    pageTable b !! p = Some f -> pageTable b !! q = Some f -> p = q).
  { intros p q f Hp Hq.
    destruct (coherent_resident_frame _ _ _ Hc Hp) as [fr Hfr].
    by rewrite <- (coherent_pageID _ _ _ _ Hc Hp Hfr),
               (coherent_pageID _ _ _ _ Hc Hq Hfr). }
  assert (Hres : forall p f, pageTable b !! p = Some f <-> resident_in b p f).
  { intros p f. unfold resident_in, occupied.
    by rewrite (coh_table _ Hc), (coherent_elem _ _ Hc). }
  split.
  - intros p. split.
    + intros [f Hp]. exists f. by apply Hres.
    + intros [f Hf]. exists f. by apply Hres.
  - intros p f g Hf Hg. apply Hres in Hf, Hg. congruence.
  - pose proof (coh_cap _ Hc) as Hcap.
    assert (Hsub : (map_to_list (pageTable b)).*2 ⊆+ lru b).
    { apply NoDup_submseteq.
      - apply NoDup_fmap_2_strong; [|apply NoDup_map_to_list].
        intros [p f] [q g] Hp Hq. cbn. intros <-.
        apply elem_of_map_to_list in Hp, Hq. f_equal. by eapply Hinj.
      - intros f Hf. apply list_elem_of_fmap in Hf as ([p g] & -> & Hp).
        apply elem_of_map_to_list in Hp.
        by apply (coh_table _ Hc) in Hp as [? _]. }
    apply submseteq_length in Hsub.
    rewrite length_fmap, length_map_to_list in Hsub.
    change (Z.to_nat BUFFER_CAPACITY) with 3%nat in Hcap.
    pose proof (Nat.le_trans _ _ _ Hsub Hcap) as H3.
    apply (Nat2Z.inj_le _ 3) in H3. exact H3.
  - pose proof (coh_cap _ Hc). unfold BUFFER_CAPACITY in *. lia.
  - by apply coherent_nodup.
  - intros f. split.
    + intros Hin.
      destruct (coherent_frame b f Hc) as [fr Hfr].
      { apply (coherent_elem _ _ Hc) in Hin. pose proof (coh_cap _ Hc). lia. }
      exists (pageID fr). apply (coh_table _ Hc). eauto.
    + intros [p Hp]. by apply (coh_table _ Hc) in Hp as [? _].
  - exact Hinj.
Qed.

(** With non-negative page numbers, the marker [-1] tells the empty
    frames from the occupied ones. *)
Lemma bm_inv_marker b f fr :
  bm_inv b -> pool b !! f = Some fr -> pageID fr = -1 <-> ~ occupied b f.
Proof.
  intros [Hc Hused Hempty] Hfr. unfold occupied.
  rewrite <- (coherent_elem _ _ Hc). split.
  - intros Hid Hin. specialize (Hused _ _ Hfr Hin). lia.
  - by apply Hempty.
Qed.

Lemma seqZ_increasing (m : Z) (n : nat) :
  StronglySorted Z.lt (seqZ m (Z.of_nat n)).
Proof.
  revert m. induction n as [|n IH]; intros m.
  - constructor.
  - rewrite seqZ_cons by lia. constructor.
    + replace (Z.pred (Z.of_nat (S n))) with (Z.of_nat n) by lia. apply IH.
    + apply Forall_forall. intros x Hx. apply elem_of_seqZ in Hx. lia.
Qed.

(** ** The page counter *)

Lemma wrap_range z : INT_MIN <= wrap z <= INT_MAX.
Proof.
  unfold wrap, INT_MIN, INT_MAX.
  pose proof (Z.mod_pos_bound (z - -2147483648) 4294967296 ltac:(lia)). lia.
Qed.

Lemma wrap_id z : INT_MIN <= z <= INT_MAX -> wrap z = z.
Proof.
  unfold wrap, INT_MIN, INT_MAX. intros H.
  rewrite Z.mod_small by lia. lia.
Qed.

(** While the counter stays below [INT_MAX], the numbers handed out are
    consecutive. *)
Lemma counted_seqZ n k :
  INT_MIN <= n -> n + Z.of_nat k <= INT_MAX + 1 ->
  counted n k = seqZ n (Z.of_nat k).
Proof.
  revert n. induction k as [|k IH]; intros n Hlo Hhi; [done|].
  cbn [counted]. rewrite seqZ_cons by lia. f_equal.
  destruct k as [|k]; [done|].
  rewrite wrap_id by (unfold INT_MIN, INT_MAX in *; lia).
  rewrite IH by (unfold INT_MIN, INT_MAX in *; lia).
  f_equal; lia.
Qed.

(** ** Sequences of calls *)

Lemma calls_coherent cs b :
  coherent b ->
  exists pids b',
    calls cs b = Ok pids b' /\ coherent b' /\
    pids = counted (nextPageID b) (length pids).
Proof.
  revert b. induction cs as [|c cs IH]; intros b Hc.
  - by exists [], b.
  - destruct c as [p| |p]; cbn [calls].
    + destruct (fetchPage_fetched p b Hc) as (f & b1 & Hrun & Hf & Hn).
      destruct (IH b1 (fetched_coherent _ _ _ _ Hc Hf)) as (pids & b' & Hcs & Hc' & Hp).
      exists pids, b'. mstep_by exact Hrun. rewrite <- Hn. done.
    + destruct (allocatePage_coherent b Hc) as (f & b1 & Hrun & Hc1 & Hn & _).
      destruct (IH b1 Hc1) as (pids & b' & Hcs & Hc' & Hp).
      exists (nextPageID b :: pids), b'. mstep_by exact Hrun.
      mstep_by exact Hcs. split; [done|]. split; [done|].
      cbn [length counted]. rewrite <- Hn. by f_equal.
    + destruct (markDirty_coherent p b Hc) as (b1 & Hrun & Hc1 & Hn).
      destruct (IH b1 Hc1) as (pids & b' & Hcs & Hc' & Hp).
      exists pids, b'. mstep_by exact Hrun. rewrite <- Hn. done.
Qed.

Lemma calls_inv cs b pids b' :
  calls cs b = Ok pids b' ->
  (forall p, CallFetchPage p ∈ cs -> 0 <= p) ->
  (forall p, p ∈ pids -> 0 <= p) ->
  bm_inv b -> bm_inv b'.
Proof.
  revert b pids. induction cs as [|c cs IH]; intros b pids Hrun Hcs Hpids Hi.
  - cbn in Hrun. unfold ret in Hrun. by injection Hrun as <- <-.
  - assert (Hcs' : forall p, CallFetchPage p ∈ cs -> 0 <= p).
    { intros p Hp. apply Hcs. by right. }
    pose proof (bi_coh _ Hi) as Hc.
    destruct c as [p| |p]; cbn [calls] in Hrun.
    + destruct (fetchPage_fetched p b Hc) as (f & b1 & Hrun1 & Hf & _).
      rewrite (bind_ok _ _ _ _ _ Hrun1) in Hrun.
      eapply (IH b1); [done..|]. eapply fetched_inv; [|done..].
      apply Hcs. by left.
    + destruct (allocatePage_run b Hc) as (f & b1 & b2 & Hrun1 & Hf & How & _).
      rewrite (bind_ok _ _ _ _ _ Hrun1) in Hrun.
      destruct (fetched_lookup _ _ _ _ Hc Hf) as (Hpf & _).
      pose proof (fetched_coherent _ _ _ _ Hc Hf) as Hc1.
      pose proof (overwrite_coherent _ _ _ _ _ Hc1 Hpf How) as Hc2.
      destruct (calls_coherent cs b2 Hc2) as (pids' & b3 & Hrun2 & _).
      rewrite (bind_ok _ _ _ _ _ Hrun2) in Hrun.
      unfold ret in Hrun. injection Hrun as <- <-.
      eapply (IH b2); [done..| |].
      * intros p Hp. apply Hpids. by right.
      * eapply overwritten_inv; [|done..].
        eapply fetched_inv; [|done..]. apply Hpids. by left.
    + destruct (markDirty_run p b Hc) as (b1 & Hrun1 & H).
      rewrite (bind_ok _ _ _ _ _ Hrun1) in Hrun.
      eapply (IH b1); [done..|].
      destruct H as [[_ ->]|(f & fr & Hp & Hfr & How)]; [done|].
      by eapply overwritten_inv.
Qed.
(** ** The recency order *)

Lemma filter_ne_absentZ (p : Z) (l : list Z) :
  p ∉ l -> filter (fun q => q ≠ p) l = l.
Proof.
  induction l as [|x l IH]; intros Hp; [done|].
  rewrite filter_cons. apply not_elem_of_cons in Hp as [Hx Hl].
  destruct (decide (x ≠ p)) as [_|Hn]; [by rewrite IH | by destruct Hn].
Qed.

Lemma take_filter_hit (p : Z) (hist : list Z) (k : nat) :
  NoDup hist -> p ∈ take (S k) hist ->
  filter (fun q => q ≠ p) (take (S k) hist) = take k (filter (fun q => q ≠ p) hist).
Proof.
  revert k. induction hist as [|x h IH]; intros k Hnd Hp.
  - by apply elem_of_nil in Hp.
  - apply NoDup_cons in Hnd as [Hx Hnd]. cbn [take]. rewrite !filter_cons.
    destruct (decide (x ≠ p)) as [Hne|Heq].
    + cbn [take] in Hp. apply elem_of_cons in Hp as [->|Hp]; [done|].
      destruct k as [|k]; [by apply elem_of_nil in Hp|].
      cbn [take]. f_equal. by apply IH.
    + apply dec_stable in Heq. subst x.
      rewrite !filter_ne_absentZ; [done|done|].
      intros Hin. apply Hx. by eapply subseteq_take.
Qed.

Lemma take_filter_miss (p : Z) (hist : list Z) (k : nat) :
  p ∉ take k hist ->
  take k (filter (fun q => q ≠ p) hist) = take k hist.
Proof.
  revert k. induction hist as [|x h IH]; intros k Hp; [done|].
  destruct k as [|k]; [done|]. cbn [take] in Hp.
  apply not_elem_of_cons in Hp as [Hx Hp]. rewrite filter_cons.
  rewrite decide_True by done. cbn [take]. f_equal. by apply IH.
Qed.

Lemma mru_nodup hist p : NoDup hist -> NoDup (mru hist p).
Proof.
  intros Hnd. unfold mru. apply NoDup_cons. split.
  - intros Hin. apply list_elem_of_filter in Hin as [Hne _]. done.
  - by apply NoDup_filter.
Qed.

Lemma omap_filter_ne (g : nat -> option Z) (f : nat) (p : Z) (l : list nat) :
  (forall x, x ∈ l -> g x = Some p <-> x = f) ->
  omap g (filter (fun x => x ≠ f) l) = filter (fun q => q ≠ p) (omap g l).
Proof.
  induction l as [|x l IH]; intros Hg; [done|].
  assert (Hl : forall y, y ∈ l -> g y = Some p <-> y = f).
  { intros y Hy. apply Hg. by right. }
  specialize (Hg x ltac:(by left)). rewrite filter_cons. cbn [omap list_omap].
  destruct (decide (x ≠ f)) as [Hne|Heq].
  - cbn [omap list_omap]. destruct (g x) as [q|] eqn:Hq; [|by apply IH].
    rewrite filter_cons, decide_True; [by rewrite IH|].
    intros ->. apply Hne. by apply Hg.
  - apply dec_stable in Heq. subst x.
    rewrite (proj2 Hg eq_refl). rewrite filter_cons, decide_False by (by intros ?).
    by apply IH.
Qed.

Lemma omap_ext_in (g g' : nat -> option Z) (l : list nat) :
  (forall x, x ∈ l -> g x = g' x) -> omap g l = omap g' l.
Proof.
  induction l as [|x l IH]; intros Hg; [done|]. cbn [omap list_omap].
  rewrite (Hg x) by (by left). rewrite IH; [done|].
  intros y Hy. apply Hg. by right.
Qed.

Lemma omap_total_length (g : nat -> option Z) (l : list nat) :
  (forall x, x ∈ l -> is_Some (g x)) -> length (omap g l) = length l.
Proof.
  induction l as [|x l IH]; intros Hg; [done|]. cbn [omap list_omap].
  destruct (Hg x) as [q Hq]; [by left|]. rewrite Hq. cbn. f_equal.
  apply IH. intros y Hy. apply Hg. by right.
Qed.

Lemma resident_frame_page b x p f :
  coherent b -> pageTable b !! p = Some f -> x ∈ lru b ->
  (pageID <$> pool b !! x) = Some p <-> x = f.
Proof.
  intros Hc Hp Hx. split.
  - intros Hg. apply fmap_Some in Hg as (fr & Hfr & ->).
    assert (pageTable b !! pageID fr = Some x) by (apply (coh_table _ Hc); eauto).
    congruence.
  - intros ->. apply (coh_table _ Hc) in Hp as (_ & fr & Hfr & <-).
    by rewrite Hfr.
Qed.

Lemma residentPages_length b :
  coherent b -> length (residentPages b) = length (lru b).
Proof.
  intros Hc. apply omap_total_length. intros x Hx.
  apply (coherent_elem _ _ Hc) in Hx.
  destruct (coherent_frame b x Hc) as [fr Hfr];
    [pose proof (coh_cap _ Hc); lia|].
  rewrite Hfr. by eexists.
Qed.

Lemma residentPages_absent b p :
  coherent b -> pageTable b !! p = None -> p ∉ residentPages b.
Proof.
  intros Hc Hp Hin. apply list_elem_of_omap in Hin as (x & Hx & Hg).
  apply fmap_Some in Hg as (fr & Hfr & ->).
  assert (pageTable b !! pageID fr = Some x) by (apply (coh_table _ Hc); eauto).
  congruence.
Qed.

Lemma fetched_recency p b f b' hist :
  coherent b -> fetched p b f b' -> NoDup hist ->
  residentPages b = take (Z.to_nat BUFFER_CAPACITY) hist ->
  residentPages b' = take (Z.to_nat BUFFER_CAPACITY) (mru hist p).
Proof.
  intros Hc Hf Hnd Hres.
  pose proof (residentPages_length b Hc) as Hlen.
  change (Z.to_nat BUFFER_CAPACITY) with 3%nat in *.
  unfold mru. cbn [take].
  destruct Hf as [Hp _ Hpool _ Hlru
                 |fr Hp Hroom -> Hfr _ Hpool _ Hlru
                 |l fr Hp Hfull Hl Hfr _ Hpool _ Hlru];
    change (Z.to_nat BUFFER_CAPACITY) with 3%nat in *.
  - assert (Hin : f ∈ lru b) by (by apply (coh_table _ Hc) in Hp as [? _]).
    assert (Hgf : (pageID <$> pool b !! f) = Some p)
      by (by apply (resident_frame_page b f p f Hc Hp Hin)).
    unfold residentPages. rewrite Hpool, Hlru. unfold touched.
    cbn [omap list_omap]. rewrite Hgf. f_equal.
    rewrite (omap_filter_ne _ f p)
      by (intros x Hx; by apply resident_frame_page).
    fold (residentPages b). rewrite Hres. apply take_filter_hit; [done|].
    rewrite <- Hres. apply list_elem_of_omap. eauto.
  - pose proof (residentPages_absent b p Hc Hp) as Hnot.
    assert (Hhist : take 3 hist = hist).
    { apply take_ge. rewrite Hres, length_take in Hlen. lia. }
    rewrite Hhist in Hres.
    unfold residentPages. rewrite Hpool, Hlru. cbn [omap list_omap].
    rewrite list_lookup_insert_eq by (by eapply lookup_lt_Some). cbn. f_equal.
    rewrite (omap_ext_in _ (fun f => pageID <$> pool b !! f)).
    + fold (residentPages b). rewrite Hres in *.
      rewrite filter_ne_absentZ by done. symmetry. apply take_ge. lia.
    + intros x Hx. rewrite list_lookup_insert_ne; [done|].
      intros <-. apply (coherent_elem _ _ Hc) in Hx. lia.
  - pose proof (residentPages_absent b p Hc Hp) as Hnot.
    pose proof (coherent_nodup b Hc) as Hndl. rewrite Hl in Hndl.
    apply NoDup_app in Hndl as (_ & Hdisj & _).
    assert (Hll : length l = 2%nat).
    { rewrite Hl, length_app in Hfull. cbn in Hfull. lia. }
    assert (Hsame : omap (fun f0 => pageID <$> pool b' !! f0) l
                    = omap (fun f0 => pageID <$> pool b !! f0) l).
    { apply omap_ext_in. intros x Hx. rewrite Hpool.
      rewrite list_lookup_insert_ne; [done|].
      intros <-. apply (Hdisj f Hx). by left. }
    assert (Hlenl : length (omap (fun f0 => pageID <$> pool b !! f0) l) = 2%nat).
    { rewrite <- Hll. apply omap_total_length. intros x Hx.
      assert (Hxl : x ∈ lru b) by (rewrite Hl; apply elem_of_app; by left).
      apply (coherent_elem _ _ Hc) in Hxl.
      destruct (coherent_frame b x Hc) as [fx Hfx]; [change (Z.to_nat BUFFER_CAPACITY) with 3%nat; lia|].
      rewrite Hfx. by eexists. }
    unfold residentPages in *. rewrite Hlru. cbn [omap list_omap].
    rewrite Hpool at 1.
    rewrite list_lookup_insert_eq by (by eapply lookup_lt_Some). cbn. f_equal.
    rewrite Hsame. rewrite Hl, omap_app in Hres.
    replace (take 2 (filter (fun q => q ≠ p) hist))
      with (take 2 (take 3 (filter (fun q => q ≠ p) hist)))
      by (by rewrite take_take).
    rewrite take_filter_miss by (by rewrite <- Hres, <- omap_app, <- Hl).
    rewrite <- Hres. by rewrite take_app_length'.
Qed.

Lemma overwritten_recency p f pg' b b' :
  coherent b -> pageTable b !! p = Some f -> overwritten p f pg' b b' ->
  residentPages b' = residentPages b.
Proof.
  intros Hc Hp Hw. unfold residentPages. rewrite (ow_lru _ _ _ _ _ Hw).
  apply omap_ext_in. intros x Hx. destruct (decide (x = f)) as [->|Hne].
  - rewrite (ow_frame _ _ _ _ _ Hw). cbn.
    apply (coh_table _ Hc) in Hp as (_ & fr & Hfr & <-). by rewrite Hfr.
  - by rewrite (ow_others _ _ _ _ _ Hw).
Qed.

Lemma calls_recency cs b hist :
  coherent b -> NoDup hist ->
  residentPages b = take (Z.to_nat BUFFER_CAPACITY) hist ->
  exists pids b',
    calls cs b = Ok pids b' /\
    residentPages b' =
      take (Z.to_nat BUFFER_CAPACITY) (foldl mru hist (accesses (nextPageID b) cs)).
Proof.
  revert b hist. induction cs as [|c cs IH]; intros b hist Hc Hnd Hres.
  - exists [], b. by split.
  - destruct c as [p| |p]; cbn [calls accesses foldl].
    + destruct (fetchPage_fetched p b Hc) as (f & b1 & Hrun & Hf & Hn).
      destruct (IH b1 (mru hist p)) as (pids & b' & Hcs & Hr);
        [by eapply fetched_coherent | by apply mru_nodup
        | by eapply fetched_recency |].
      exists pids, b'. mstep_by exact Hrun. by rewrite <- Hn.
    + destruct (allocatePage_run b Hc) as (f & b1 & b2 & Hrun & Hf & Hw & Hn).
      pose proof (fetched_coherent _ _ _ _ Hc Hf) as Hc1.
      destruct (fetched_lookup _ _ _ _ Hc Hf) as (Hp1 & _).
      destruct (IH b2 (mru hist (nextPageID b))) as (pids & b' & Hcs & Hr);
        [by eapply overwrite_coherent | by apply mru_nodup
        | rewrite (overwritten_recency _ _ _ _ _ Hc1 Hp1 Hw);
          exact (fetched_recency _ _ _ _ _ Hc Hf Hnd Hres) |].
      exists (nextPageID b :: pids), b'. mstep_by exact Hrun.
      mstep_by exact Hcs. split; [done|].
      by rewrite <- Hn.
    + destruct (markDirty_run p b Hc) as (b1 & Hrun & Hcase).
      assert (Hb1 : coherent b1 /\ residentPages b1 = residentPages b
                    /\ nextPageID b1 = nextPageID b).
      { destruct Hcase as [[_ ->]|(f & fr & Hp & Hfr & Hw)]; [done|].
        split; [by eapply overwrite_coherent|].
        split; [by eapply overwritten_recency | by destruct Hw]. }
      destruct Hb1 as (Hc1 & Hr1 & Hn1).
      destruct (IH b1 hist) as (pids & b' & Hcs & Hr);
        [done | done | by rewrite Hr1 |].
      exists pids, b'. mstep_by exact Hrun. by rewrite <- Hn1.
Qed.


Lemma filter_lookup_le (f g : nat) (l : list nat) (i : nat) :
  l !! i = Some g -> g ≠ f ->
  exists j, (j <= i)%nat /\ filter (fun x => x ≠ f) l !! j = Some g.
Proof.
  revert i. induction l as [|x l IH]; intros i Hi Hne; [done|].
  rewrite filter_cons. destruct i as [|i]; cbn in Hi.
  - injection Hi as ->. rewrite decide_True by done. exists 0%nat. by split.
  - destruct (IH i Hi Hne) as (j & Hj & Hl).
    destruct (decide (x ≠ f)).
    + exists (S j). split; [lia | done].
    + exists j. split; [lia | done].
Qed.

Lemma coherent_frames_differ b p q f g :
  coherent b -> pageTable b !! p = Some f -> pageTable b !! q = Some g ->
  p ≠ q -> f ≠ g.
Proof.
  intros Hc Hp Hq Hne ->.
  destruct (coherent_resident_frame b q g Hc Hq) as [fr Hfr].
  pose proof (coherent_pageID b p g fr Hc Hp Hfr).
  pose proof (coherent_pageID b q g fr Hc Hq Hfr). congruence.
Qed.

(** A miss moves every other resident page one place back in the recency
    list, and evicts the page in the last place of a full list. *)
Lemma fetched_miss_shift p b f b' q g i :
  coherent b -> fetched p b f b' -> pageTable b !! p = None ->
  pageTable b !! q = Some g -> lru b !! i = Some g ->
  if decide (S i < Z.to_nat BUFFER_CAPACITY)%nat
  then pageTable b' !! q = Some g /\ pool b' !! g = pool b !! g /\
       lru b' !! S i = Some g
  else f = g /\ pageTable b' !! q = None.
Proof.
  intros Hc Hf Hmiss Hq Hi.
  assert (Hqp : q ≠ p) by congruence.
  pose proof (lookup_lt_Some _ _ _ Hi) as Hlt.
  pose proof (coh_cap _ Hc) as Hcap.
  destruct Hf as [Hp _ _ _ _
                 |fr _ Hroom -> Hfr _ Hpool Hpt Hlru
                 |l fr _ Hfull Hl Hfr _ Hpool Hpt Hlru];
    change (Z.to_nat BUFFER_CAPACITY) with 3%nat in *; [congruence| |].
  - assert (Hg : (g < length (lru b))%nat)
      by (apply (coherent_elem _ _ Hc); by eapply list_elem_of_lookup_2).
    rewrite decide_True by lia. rewrite Hpt, Hpool, Hlru.
    rewrite lookup_insert_ne by done.
    rewrite list_lookup_insert_ne by lia. done.
  - assert (Hll : length l = 2%nat).
    { rewrite Hl, length_app in Hfull. cbn in Hfull. lia. }
    assert (Hpv : pageTable b !! pageID fr = Some f).
    { apply (coh_table _ Hc). split; [|by eauto].
      rewrite Hl. apply elem_of_app. right. by left. }
    destruct (decide (S i < 3)%nat) as [Hsi|Hsi].
    + rewrite Hl, lookup_app_l in Hi by lia.
      pose proof (coherent_nodup b Hc) as Hnd. rewrite Hl in Hnd.
      apply NoDup_app in Hnd as (_ & Hdisj & _).
      assert (Hgf : g ≠ f).
      { intros ->. apply (Hdisj f); [by eapply list_elem_of_lookup_2 | by left]. }
      assert (Hqv : q ≠ pageID fr) by congruence.
      rewrite Hpt, Hpool, Hlru.
      rewrite lookup_insert_ne, lookup_delete_ne by done.
      rewrite list_lookup_insert_ne by done. done.
    + assert (i = 2%nat) as -> by lia.
      rewrite Hl, lookup_app_r in Hi by lia.
      rewrite Hll in Hi. cbn in Hi. injection Hi as ->. split; [done|].
      assert (q = pageID fr) as ->
        by (symmetry; by eapply coherent_pageID).
      rewrite Hpt, lookup_insert_ne, lookup_delete_eq by done. done.
Qed.

(** A fetch keeps every page that is not in the last place of a full
    recency list in its frame, and the frame as it is. *)
Lemma fetched_survives p b f b' q g i :
  coherent b -> fetched p b f b' ->
  pageTable b !! q = Some g -> lru b !! i = Some g ->
  (S i < Z.to_nat BUFFER_CAPACITY)%nat ->
  pageTable b' !! q = Some g /\ pool b' !! g = pool b !! g /\
  exists j, (j <= S i)%nat /\ lru b' !! j = Some g.
Proof.
  intros Hc Hf Hq Hi Hsi.
  destruct (pageTable b !! p) as [h|] eqn:Hp.
  - destruct Hf as [Hp' _ Hpool Hpt Hlru | ? ? | ? ? ?]; [|congruence..].
    rewrite Hpt, Hpool, Hlru. split; [done|]. split; [done|].
    assert (h = f) as -> by congruence.
    unfold touched. destruct (decide (g = f)) as [->|Hne].
    + exists 0%nat. split; [lia | done].
    + destruct (filter_lookup_le f g _ i Hi Hne) as (j & Hj & Hl).
      exists (S j). split; [lia | done].
  - pose proof (fetched_miss_shift p b f b' q g i Hc Hf Hp Hq Hi) as H.
    rewrite decide_True in H by done. destruct H as (H1 & H2 & H3).
    split; [done|]. split; [done|]. exists (S i). by split.
Qed.

Lemma fetched_absent p b f b' q :
  fetched p b f b' -> q ≠ p -> pageTable b !! q = None ->
  pageTable b' !! q = None.
Proof.
  intros Hf Hne Hq.
  destruct Hf as [_ _ _ Hpt _ | fr _ _ _ _ _ _ Hpt _ | l fr _ _ _ _ _ _ Hpt _];
    rewrite Hpt; [done| |].
  - by rewrite lookup_insert_ne.
  - rewrite lookup_insert_ne by done. by apply lookup_delete_None; right.
Qed.

Lemma head_lookup_0 (l : list nat) f : head l = Some f -> l !! 0%nat = Some f.
Proof. by destruct l. Qed.

Lemma mru_length hist p : NoDup hist -> (length hist <= length (mru hist p))%nat.
Proof.
  unfold mru. cbn [length]. induction 1 as [|x h Hx Hnd IH]; [cbn; lia|].
  rewrite filter_cons. destruct (decide (x ≠ p)) as [Hne|Heq].
  - cbn [length]. lia.
  - apply dec_stable in Heq. subst x. rewrite filter_ne_absentZ by done. done.
Qed.

Lemma foldl_mru_nodup hist ps : NoDup hist -> NoDup (foldl mru hist ps).
Proof.
  revert hist. induction ps as [|p ps IH]; intros hist Hnd; [done|].
  cbn [foldl]. by apply IH, mru_nodup.
Qed.

Lemma foldl_mru_length hist ps :
  NoDup hist -> (length hist <= length (foldl mru hist ps))%nat.
Proof.
  revert hist. induction ps as [|p ps IH]; intros hist Hnd; [done|].
  cbn [foldl]. etrans; [by apply (mru_length hist p)|].
  by apply IH, mru_nodup.
Qed.

Lemma elem_of_foldl_mru hist ps x :
  x ∈ foldl mru hist ps <-> x ∈ ps \/ x ∈ hist.
Proof.
  revert hist. induction ps as [|p ps IH]; intros hist; cbn [foldl].
  - rewrite elem_of_nil. tauto.
  - rewrite IH. unfold mru. rewrite !elem_of_cons, list_elem_of_filter.
    destruct (decide (x = p)); tauto.
Qed.

Lemma recency_length ps : length (recency ps) = length (remove_dups ps).
Proof.
  apply Permutation_length, NoDup_Permutation.
  - apply foldl_mru_nodup, NoDup_nil_2.
  - apply NoDup_remove_dups.
  - intros x. unfold recency.
    rewrite elem_of_foldl_mru, elem_of_remove_dups, elem_of_nil. tauto.
Qed.

(** ** The file *)

Lemma read_file buf s : dbFile (read buf s).2 = dbFile s.
Proof.
  unfold read. destruct (failed s); [done|].
  destruct (dbFile s !! pos s); [done|]. by destruct (pos s <? fileSize s).
Qed.

Lemma afterRead_file s p buf : dbFile (afterRead s p buf) = dbFile s.
Proof. unfold afterRead. by rewrite read_file, seek_file. Qed.

Lemma fetched_no_write p b f b' hist :
  coherent b -> fetched p b f b' -> NoDup hist ->
  residentPages b = take (Z.to_nat BUFFER_CAPACITY) hist ->
  (length (mru hist p) <= Z.to_nat BUFFER_CAPACITY)%nat ->
  dbFile (sm b') = dbFile (sm b).
Proof.
  intros Hc Hf Hnd Hres Hlen.
  pose proof (residentPages_length b Hc) as Hrl.
  pose proof (residentPages_absent b p Hc) as Habs.
  destruct Hf as [_ Hsm _ _ _
                 |fr _ _ _ _ Hsm _ _ _
                 |l fr Hp Hfull _ _ _ _ _ _];
    [by rewrite Hsm|by rewrite Hsm, afterRead_file|].
  exfalso. change (Z.to_nat BUFFER_CAPACITY) with 3%nat in *.
  specialize (Habs Hp). rewrite Hres in Habs.
  pose proof (take_filter_miss p hist 3 Habs) as Htake.
  apply (f_equal length) in Htake. rewrite <- Hres, Hrl, Hfull in Htake.
  rewrite length_take in Htake. unfold mru in Hlen. cbn [length] in Hlen. lia.
Qed.

Lemma calls_no_write cs b hist :
  coherent b -> NoDup hist ->
  residentPages b = take (Z.to_nat BUFFER_CAPACITY) hist ->
  (length (foldl mru hist (accesses (nextPageID b) cs))
     <= Z.to_nat BUFFER_CAPACITY)%nat ->
  exists pids b', calls cs b = Ok pids b' /\ dbFile (sm b') = dbFile (sm b).
Proof.
  revert b hist. induction cs as [|c cs IH]; intros b hist Hc Hnd Hres Hlen.
  - by exists [], b.
  - destruct c as [p| |p]; cbn [calls accesses foldl] in *.
    + destruct (fetchPage_fetched p b Hc) as (f & b1 & Hrun & Hf & Hn).
      assert (Hsm : dbFile (sm b1) = dbFile (sm b)).
      { apply (fetched_no_write p b f b1 hist); try done.
        etrans; [apply (foldl_mru_length _ (accesses (nextPageID b) cs))|done].
        by apply mru_nodup. }
      destruct (IH b1 (mru hist p)) as (pids & b' & Hcs & Hsm');
        [by eapply fetched_coherent | by apply mru_nodup
        | exact (fetched_recency _ _ _ _ _ Hc Hf Hnd Hres)
        | by rewrite Hn |].
      exists pids, b'. mstep_by exact Hrun. split; [done|congruence].
    + destruct (allocatePage_run b Hc) as (f & b1 & b2 & Hrun & Hf & Hw & Hn).
      pose proof (fetched_coherent _ _ _ _ Hc Hf) as Hc1.
      destruct (fetched_lookup _ _ _ _ Hc Hf) as (Hp1 & _).
      assert (Hsm : dbFile (sm b1) = dbFile (sm b)).
      { apply (fetched_no_write (nextPageID b) b f b1 hist); try done.
        etrans; [apply (foldl_mru_length _
                          (accesses (wrap (nextPageID b + 1)) cs))|done].
        by apply mru_nodup. }
      destruct (IH b2 (mru hist (nextPageID b))) as (pids & b' & Hcs & Hsm');
        [by eapply overwrite_coherent | by apply mru_nodup
        | rewrite (overwritten_recency _ _ _ _ _ Hc1 Hp1 Hw);
          exact (fetched_recency _ _ _ _ _ Hc Hf Hnd Hres)
        | by rewrite Hn |].
      exists (nextPageID b :: pids), b'. mstep_by exact Hrun.
      mstep_by exact Hcs. split; [done|].
      rewrite Hsm', (ow_sm _ _ _ _ _ Hw). done.
    + destruct (markDirty_run p b Hc) as (b1 & Hrun & Hcase).
      assert (Hb1 : coherent b1 /\ residentPages b1 = residentPages b
                    /\ nextPageID b1 = nextPageID b /\ sm b1 = sm b).
      { destruct Hcase as [[_ ->]|(f & fr & Hp & Hfr & Hw)]; [done|].
        split; [by eapply overwrite_coherent|].
        split; [by eapply overwritten_recency | by destruct Hw]. }
      destruct Hb1 as (Hc1 & Hr1 & Hn1 & Hsm).
      destruct (IH b1 hist) as (pids & b' & Hcs & Hsm');
        [done | done | by rewrite Hr1 | by rewrite Hn1 |].
      exists pids, b'. mstep_by exact Hrun. split; [done|congruence].
Qed.
(** ** A fetch on the failed stream *)

(** Once the stream has failed, a fetch changes no data: a miss leaves in
    the frame it takes the bytes the frame held. *)
Lemma fetched_frozen p b f b' :
  failed (sm b) = true -> fetched p b f b' ->
  sm b' = sm b /\ length (pool b') = length (pool b) /\
  forall g, data <$> pool b' !! g = data <$> pool b !! g.
Proof.
  intros Hfail [Hp Hsm Hpool Hpt Hlru | fr Hp Hlt -> Hfr Hsm Hpool Hpt Hlru
               | l fr Hp Hlen Hl Hfr Hsm Hpool Hpt Hlru].
  - by rewrite Hsm, Hpool.
  - rewrite afterRead_failed in Hsm by done.
    rewrite readBlock_failed in Hpool by done.
    rewrite Hpool, length_insert. split; [done|]. split; [done|].
    intros g. destruct (decide (g = length (lru b))) as [->|Hg].
    + erewrite lookup_set_pool by done. by rewrite Hfr.
    + by rewrite list_lookup_insert_ne.
  - rewrite flushed_failed in Hsm, Hpool by done.
    rewrite afterRead_failed in Hsm by done.
    rewrite readBlock_failed in Hpool by done.
    rewrite Hpool, length_insert. split; [done|]. split; [done|].
    intros g. destruct (decide (g = f)) as [->|Hg].
    + erewrite lookup_set_pool by done. by rewrite Hfr.
    + by rewrite list_lookup_insert_ne.
Qed.

(** The pages in the pool after a fetch: the page fetched, and pages
    that were there, in their frames. *)
Lemma fetched_resident p b f b' q g :
  fetched p b f b' -> pageTable b' !! q = Some g ->
  q = p \/ pageTable b !! q = Some g.
Proof.
  intros [Hp Hsm Hpool Hpt Hlru | fr Hp Hlt -> Hfr Hsm Hpool Hpt Hlru
         | l fr Hp Hlen Hl Hfr Hsm Hpool Hpt Hlru]; rewrite Hpt.
  - by right.
  - destruct (decide (q = p)) as [->|Hq]; [by left|].
    rewrite lookup_insert_ne by done. by right.
  - destruct (decide (q = p)) as [->|Hq]; [by left|].
    rewrite lookup_insert_ne by done.
    intros [_ H]%lookup_delete_Some. by right.
Qed.

Lemma fetchPage_miss_room p b :
  coherent b -> failed (sm b) = true -> pageTable b !! p = None ->
  (length (lru b) < Z.to_nat BUFFER_CAPACITY)%nat ->
  exists fr b',
    pool b !! length (lru b) = Some fr /\
    fetchPage p b = Ok (length (lru b)) b' /\
    sm b' = sm b /\
    pool b' = <[length (lru b) := mkFrame p false (data fr)]> (pool b) /\
    pageTable b' = <[p := length (lru b)]> (pageTable b) /\
    lru b' = length (lru b) :: lru b /\
    nextPageID b' = nextPageID b.
Proof.
  intros Hc Hfail Hmiss Hroom.
  destruct (fetchPage_fetched p b Hc) as (f & b' & Hrun & Hf & Hn).
  destruct Hf as [Hp Hsm Hpool Hpt Hlru | fr Hp Hlt -> Hfr Hsm Hpool Hpt Hlru
                 | l fr Hp Hlen Hl Hfr Hsm Hpool Hpt Hlru].
  - congruence.
  - rewrite afterRead_failed in Hsm by done.
    rewrite readBlock_failed in Hpool by done.
    by exists fr, b'.
  - lia.
Qed.

Lemma fetchPage_miss_evict p b l v :
  coherent b -> failed (sm b) = true -> pageTable b !! p = None ->
  length (lru b) = Z.to_nat BUFFER_CAPACITY -> lru b = l ++ [v] ->
  exists fr b',
    pool b !! v = Some fr /\
    fetchPage p b = Ok v b' /\
    sm b' = sm b /\
    pool b' = <[v := mkFrame p false (data fr)]> (pool b) /\
    pageTable b' = <[p := v]> (delete (pageID fr) (pageTable b)) /\
    lru b' = v :: l /\
    nextPageID b' = nextPageID b.
Proof.
  intros Hc Hfail Hmiss Hfull Hlv.
  destruct (fetchPage_fetched p b Hc) as (f & b' & Hrun & Hf & Hn).
  destruct Hf as [Hp Hsm Hpool Hpt Hlru | fr Hp Hlt -> Hfr Hsm Hpool Hpt Hlru
                 | l' fr Hp Hlen Hl Hfr Hsm Hpool Hpt Hlru].
  - congruence.
  - lia.
  - rewrite Hlv in Hl. apply app_inj_tail in Hl as [-> ->].
    rewrite flushed_failed in Hsm, Hpool by done.
    rewrite afterRead_failed in Hsm by done.
    rewrite readBlock_failed in Hpool by done.
    by exists fr, b'.
Qed.

Lemma overwritten_pool p f pg b b' :
  overwritten p f pg b b' -> pool b' = <[f := mkFrame p true pg]> (pool b).
Proof.
  intros [Hfr Hoth Hlen _ _ _ _]. apply list_eq. intros g.
  destruct (decide (g = f)) as [->|Hg].
  - rewrite Hfr. symmetry. apply list_lookup_insert_eq.
    rewrite <- Hlen. by eapply lookup_lt_Some.
  - rewrite list_lookup_insert_ne by done. by apply Hoth.
Qed.

Lemma allocatePage_room b :
  coherent b -> failed (sm b) = true -> pageTable b !! nextPageID b = None ->
  (length (lru b) < Z.to_nat BUFFER_CAPACITY)%nat ->
  exists b',
    allocatePage b = Ok (nextPageID b) b' /\
    sm b' = sm b /\
    pool b' = <[length (lru b) := mkFrame (nextPageID b) true zeroPage]> (pool b) /\
    pageTable b' = <[nextPageID b := length (lru b)]> (pageTable b) /\
    lru b' = length (lru b) :: lru b /\
    nextPageID b' = wrap (nextPageID b + 1).
Proof.
  intros Hc Hfail Hmiss Hroom.
  destruct (allocatePage_run b Hc) as (f & b1 & b' & Hrun & Hf & How & Hn).
  pose proof (overwritten_pool _ _ _ _ _ How) as Hpool'.
  destruct How as [_ _ _ Hsm' Hpt' Hlru' _].
  destruct Hf as [Hp Hsm Hpool Hpt Hlru | fr Hp Hlt -> Hfr Hsm Hpool Hpt Hlru
                 | l fr Hp Hlen Hl Hfr Hsm Hpool Hpt Hlru].
  - congruence.
  - rewrite afterRead_failed in Hsm by done.
    exists b'. split; [done|]. split; [congruence|].
    split; [by rewrite Hpool', Hpool, list_insert_insert_eq|].
    split; [congruence|]. split; [congruence|done].
  - lia.
Qed.

Lemma allocatePage_evict b l v :
  coherent b -> failed (sm b) = true -> pageTable b !! nextPageID b = None ->
  length (lru b) = Z.to_nat BUFFER_CAPACITY -> lru b = l ++ [v] ->
  exists fr b',
    pool b !! v = Some fr /\
    allocatePage b = Ok (nextPageID b) b' /\
    sm b' = sm b /\
    pool b' = <[v := mkFrame (nextPageID b) true zeroPage]> (pool b) /\
    pageTable b' = <[nextPageID b := v]> (delete (pageID fr) (pageTable b)) /\
    lru b' = v :: l /\
    nextPageID b' = wrap (nextPageID b + 1).
Proof.
  intros Hc Hfail Hmiss Hfull Hlv.
  destruct (allocatePage_run b Hc) as (f & b1 & b' & Hrun & Hf & How & Hn).
  pose proof (overwritten_pool _ _ _ _ _ How) as Hpool'.
  destruct How as [_ _ _ Hsm' Hpt' Hlru' _].
  destruct Hf as [Hp Hsm Hpool Hpt Hlru | fr Hp Hlt -> Hfr Hsm Hpool Hpt Hlru
                 | l' fr Hp Hlen Hl Hfr Hsm Hpool Hpt Hlru].
  - congruence.
  - lia.
  - rewrite Hlv in Hl. apply app_inj_tail in Hl as [-> ->].
    rewrite flushed_failed in Hsm by done.
    rewrite afterRead_failed in Hsm by done.
    exists fr, b'. split; [done|]. split; [done|]. split; [congruence|].
    split; [by rewrite Hpool', Hpool, list_insert_insert_eq|].
    split; [congruence|]. split; [congruence|done].
Qed.

(** ** The loops of the tree, on the key array *)

Lemma store_ok (a : list Z) (i : nat) (v : Z) :
  (i < length a)%nat -> store a i v = Some (<[i := v]> a).
Proof. intros H. unfold store. by rewrite decide_True. Qed.

(** The shifting loop of [insertIntoLeaf], followed by the store of the
    key, inserts the key in order among the first [n] entries. *)
Lemma shiftKeys_spec key arr n :
  (n < length arr)%nat -> StronglySorted Z.le (take n arr) ->
  exists arr' j arr'',
    shiftKeys key arr n = Some (arr', j) /\
    store arr' j key = Some arr'' /\
    length arr'' = length arr /\
    StronglySorted Z.le (take (S n) arr'') /\
    take (S n) arr'' ≡ₚ key :: take n arr /\
    forall m, (n < m)%nat -> arr'' !! m = arr !! m.
Proof.
  revert arr. induction n as [|i IH]; intros arr Hlen Hsorted.
  - exists arr, 0%nat, (<[0%nat := key]> arr). cbn [shiftKeys].
    split; [done|]. split; [by apply store_ok|].
    split; [by rewrite length_insert|].
    destruct arr as [|x arr]; [cbn in Hlen; lia|]. cbn.
    split; [repeat constructor|]. split; [done|].
    intros [|m] Hm; [lia|done].
  - destruct (lookup_lt_is_Some_2 arr i) as [k Hk]; [lia|].
    cbn [shiftKeys]. rewrite Hk.
    rewrite (take_S_r _ _ _ Hk) in Hsorted.
    destruct (Z.ltb_spec key k) as [Hlt|Hge].
    + rewrite store_ok by done.
      destruct (IH (<[S i := k]> arr)) as (arr' & j & arr'' & Hrun & Hst & Hl & Hs & Hp & Hm).
      { rewrite length_insert. lia. }
      { rewrite take_insert_ge by lia. by eapply StronglySorted_app_1_l. }
      rewrite take_insert_ge in Hp by lia.
      rewrite length_insert in Hl.
      assert (Hk' : arr'' !! S i = Some k).
      { rewrite Hm by lia. by apply list_lookup_insert_eq. }
      exists arr', j, arr''. split; [done|]. split; [done|]. split; [done|].
      rewrite (take_S_r _ _ _ Hk'). split; [|split].
      * apply StronglySorted_app_2; [|done|repeat constructor].
        intros x1 x2 Hx1 ->%list_elem_of_singleton.
        rewrite Hp in Hx1. apply elem_of_cons in Hx1 as [->|Hx1]; [lia|].
        eapply (StronglySorted_app_1_elem_of Z.le); [exact Hsorted|done|].
        by apply list_elem_of_singleton.
      * rewrite Hp, (take_S_r _ _ _ Hk). done.
      * intros m Hlm. rewrite Hm by lia.
        apply list_lookup_insert_ne. lia.
    + exists arr, (S i), (<[S i := key]> arr).
      split; [done|]. split; [by apply store_ok|].
      split; [by rewrite length_insert|].
      assert (Hk' : <[S i := key]> arr !! S i = Some key)
        by (by apply list_lookup_insert_eq).
      rewrite (take_S_r _ _ _ Hk'), take_insert_ge by lia.
      rewrite (take_S_r _ _ _ Hk). split; [|split].
      * apply StronglySorted_app_2; [|done|repeat constructor].
        intros x1 x2 Hx1 ->%list_elem_of_singleton.
        apply elem_of_app in Hx1 as [Hx1| ->%list_elem_of_singleton]; [|done].
        etrans; [|exact Hge].
        eapply (StronglySorted_app_1_elem_of Z.le); [exact Hsorted|done|].
        by apply list_elem_of_singleton.
      * by rewrite <- Permutation_cons_append.
      * intros m Hlm. apply list_lookup_insert_ne. lia.
Qed.

Lemma scanKeys_spec key ks rem i0 :
  (i0 + rem <= length ks)%nat ->
  exists i,
    scanKeys key ks i0 rem = Some i /\ (i0 <= i <= i0 + rem)%nat /\
    (forall j k, (i0 <= j < i)%nat -> ks !! j = Some k -> k <= key) /\
    ((i < i0 + rem)%nat -> exists k, ks !! i = Some k /\ key < k).
Proof.
  revert i0. induction rem as [|rem IH]; intros i0 Hlen.
  - exists i0. cbn. split; [done|]. split; [lia|]. split; intros; lia.
  - destruct (lookup_lt_is_Some_2 ks i0) as [k Hk]; [lia|].
    cbn [scanKeys]. rewrite Hk. destruct (Z.leb_spec k key) as [Hle|Hgt].
    + destruct (IH (S i0)) as (i & Hrun & Hi & Hbelow & Hat); [lia|].
      exists i. split; [done|]. split; [lia|]. split.
      * intros j kj Hj Hkj. destruct (decide (j = i0)) as [->|Hne].
        -- congruence.
        -- apply (Hbelow j); [lia|done].
      * intros Hlt. apply Hat. lia.
    + exists i0. split; [done|]. split; [lia|]. split; [intros; lia|].
      intros _. by exists k.
Qed.

Lemma sorted_lookup_le (l : list Z) i j x y :
  StronglySorted Z.le l -> (i < j)%nat ->
  l !! i = Some x -> l !! j = Some y -> x <= y.
Proof.
  intros Hs Hij Hi Hj. rewrite <- (take_drop j l) in Hs.
  eapply (StronglySorted_app_1_elem_of Z.le); [exact Hs| |].
  - apply elem_of_take. eauto.
  - apply list_elem_of_lookup. exists 0%nat.
    rewrite lookup_drop. by rewrite Nat.add_0_r.
Qed.

Lemma sorted_nodup_strict (l : list Z) :
  StronglySorted Z.le l -> NoDup l -> StronglySorted Z.lt l.
Proof.
  induction l as [|x l IH]; intros Hs Hnd; [constructor|].
  apply StronglySorted_cons in Hs as [Hall Hs].
  apply NoDup_cons in Hnd as [Hx Hnd].
  constructor; [by apply IH|].
  apply Forall_forall. intros y Hy.
  rewrite Forall_forall in Hall. specialize (Hall y Hy).
  assert (x ≠ y) by (by intros ->). lia.
Qed.

Lemma splitKeys_facts key pg :
  wellSized pg ->
  exists t0 t1 t2 t3 k0 k1 k2,
    keys pg = [k0; k1; k2] /\ splitKeys key pg = [t0; t1; t2; t3] /\
    StronglySorted Z.le [t0; t1; t2; t3] /\
    [t0; t1; t2; t3] ≡ₚ [k0; k1; k2; key].
Proof.
  intros [Hk _]. change (Z.to_nat MAX_KEYS) with 3%nat in Hk.
  destruct (keys pg) as [|k0 [|k1 [|k2 [|]]]] eqn:Hkeys; try discriminate Hk.
  unfold splitKeys. rewrite Hkeys. change (Z.to_nat MAX_KEYS) with 3%nat.
  cbn [take app].
  pose proof (merge_sort_Permutation Z.le [k0; k1; k2; key]) as Hperm.
  pose proof (StronglySorted_merge_sort Z.le [k0; k1; k2; key]) as Hsort.
  pose proof (Permutation_length Hperm) as Hlen.
  destruct (merge_sort Z.le [k0; k1; k2; key]) as [|t0 [|t1 [|t2 [|t3 [|]]]]];
    try discriminate Hlen.
  by exists t0, t1, t2, t3, k0, k1, k2.
Qed.

(** ** The tree, call by call *)

Ltac pool_lookup :=
  cbn; repeat first [ eassumption
                    | rewrite list_lookup_insert_ne by done
                    | eapply lookup_set_pool ].

(** Reduce the projections and setters of the records, nothing else. *)
Ltac norm :=
  unfold set_sm, set_pool, set_pageTable, set_lru, set_nextPageID, set_cout,
         set_pageID, set_dirty, set_data,
         set_isLeaf, set_numKeys, set_parentPage, set_keys, set_children,
         zeroPage;
  change (Z.to_nat MAX_KEYS) with 3%nat;
  change (Z.to_nat (MAX_KEYS + 1)) with 4%nat;
  cbn [bm rootPage sm pool pageTable lru nextPageID cout
       pageID dirty data
       isLeaf numKeys parentPage keys children nextLeaf replicate].

(** Writes to two frames, one after the other, as one write to each. *)
Lemma insert_over {A} (l : list A) i j x y z :
  <[i := x]> (<[j := y]> (<[i := z]> l)) = <[i := x]> (<[j := y]> l).
Proof.
  destruct (decide (i = j)) as [->|Hne].
  - by rewrite !list_insert_insert_eq.
  - rewrite (list_insert_insert_ne _ j i) by done.
    by rewrite list_insert_insert_eq.
Qed.

Ltac pool_norm :=
  repeat first [rewrite list_insert_insert_eq | rewrite insert_over].

(** One step of the descent, on the node the fetch returns. *)
Lemma findLeaf_step fuel page key t f b' fr :
  fetchPage page (bm t) = Ok f b' -> pool b' !! f = Some fr ->
  findLeaf (S fuel) page key t =
    if isLeaf (data fr) then Ok page (mkTree b' (rootPage t))
    else match scanKeys key (keys (data fr)) 0 (Z.to_nat (numKeys (data fr))) with
         | None => Undefined
         | Some i =>
             match children (data fr) !! i with
             | None => Undefined
             | Some child => findLeaf fuel child key (mkTree b' (rootPage t))
             end
         end.
Proof.
  intros Hrun Hfr. cbn [findLeaf].
  mstep_by (apply liftB_ok; exact Hrun).
  mstep_by (apply liftB_ok, deref_ok; exact Hfr).
  destruct (isLeaf (data fr)); [done|].
  destruct (scanKeys key (keys (data fr)) 0 (Z.to_nat (numKeys (data fr)))) as [i|];
    [|done].
  by destruct (children (data fr) !! i).
Qed.

(** Insertion into a leaf with room: the frame the fetch returns takes
    the key, in order, and is marked dirty. *)
Lemma insertIntoLeaf_room key lp t f b1 fr :
  fetchPage lp (bm t) = Ok f b1 ->
  pageTable b1 !! lp = Some f -> pool b1 !! f = Some fr ->
  0 <= numKeys (data fr) < MAX_KEYS -> wellSized (data fr) ->
  StronglySorted Z.le (leafKeys (data fr)) ->
  exists arr c,
    insertIntoLeaf lp key t =
      Ok tt (mkTree
               (mkBuffer (sm b1)
                  (<[f := mkFrame (pageID fr) true
                            (set_numKeys (numKeys (data fr) + 1)
                               (set_keys arr (data fr)))]> (pool b1))
                  (pageTable b1) (lru b1) (nextPageID b1) c)
               (rootPage t)) /\
    length arr = length (keys (data fr)) /\
    StronglySorted Z.le (take (S (Z.to_nat (numKeys (data fr)))) arr) /\
    take (S (Z.to_nat (numKeys (data fr)))) arr ≡ₚ key :: leafKeys (data fr).
Proof.
  intros Hrun Hpf Hfr Hn [Hk Hch] Hsorted.
  destruct (shiftKeys_spec key (keys (data fr)) (Z.to_nat (numKeys (data fr))))
    as (arr' & j & arr & Hshift & Hstore & Hlen & Hsort & Hperm & _);
    [unfold MAX_KEYS in *; lia|done|].
  unfold insertIntoLeaf.
  mstep_by (apply liftB_ok; exact Hrun).
  mstep_by (apply liftB_ok, deref_ok; exact Hfr).
  destruct (Z.ltb_spec (numKeys (data fr)) MAX_KEYS); [|lia].
  destruct (Z.ltb_spec (numKeys (data fr)) 0); [lia|].
  rewrite Hshift.
  mstep_by (apply liftB_ok, setNode_ok; exact Hfr).
  mstep_by (apply liftB_ok; eapply writeKey_ok;
            [cbn; eapply lookup_set_pool, Hfr | cbn; exact Hstore]).
  mstep_by (apply liftB_ok; eapply setNode_ok;
            cbn; eapply lookup_set_pool, lookup_set_pool, Hfr).
  mstep_by (apply liftB_ok; eapply markDirty_ok;
            [exact Hpf | cbn; eapply lookup_set_pool, lookup_set_pool, lookup_set_pool, Hfr]).
  cbn. rewrite !list_insert_insert_eq.
  exists arr. eexists. split; [reflexivity|done].
Qed.

(** Insertion into a full leaf goes on as [splitLeaf]. *)
Lemma insertIntoLeaf_full key lp t f b1 fr :
  fetchPage lp (bm t) = Ok f b1 -> pool b1 !! f = Some fr ->
  MAX_KEYS <= numKeys (data fr) ->
  insertIntoLeaf lp key t = splitLeaf lp key (mkTree b1 (rootPage t)).
Proof.
  intros Hrun Hfr Hfull. unfold insertIntoLeaf.
  mstep_by (apply liftB_ok; exact Hrun).
  mstep_by (apply liftB_ok, deref_ok; exact Hfr).
  by destruct (Z.ltb_spec (numKeys (data fr)) MAX_KEYS); [lia|].
Qed.

(** The split, once the new page is allocated and both pointers are
    fetched into two different frames. *)
Lemma splitLeaf_run key lp t n b1 fo b2 fn b3 fro frn :
  allocatePage (set_cout (TreeNodeFull :: cout (bm t)) (bm t)) = Ok n b1 ->
  fetchPage lp b1 = Ok fo b2 -> fetchPage n b2 = Ok fn b3 ->
  pageTable b3 !! lp = Some fo -> pageTable b3 !! n = Some fn ->
  pool b3 !! fo = Some fro -> pool b3 !! fn = Some frn -> fo ≠ fn ->
  wellSized (data fro) -> data frn = zeroPage ->
  exists k c,
    keys (splitNew key (data fro)) !! 0%nat = Some k /\
    splitLeaf lp key t =
      insertIntoParent lp k n
        (mkTree
           (mkBuffer (sm b3)
              (<[fn := mkFrame (pageID frn) true (splitNew key (data fro))]>
                 (<[fo := mkFrame (pageID fro) true (splitOld key (data fro))]>
                    (pool b3)))
              (pageTable b3) (lru b3) (nextPageID b3) c)
           (rootPage t)).
Proof.
  intros Hrun1 Hrun2 Hrun3 Hpo3 Hpn3 Hfo3 Hfn3 Hne [Hk Hch] Hzero.
  assert (Hne' : fn ≠ fo) by (by apply not_eq_sym).
  destruct fro as [ido dio pg]. destruct frn as [idn din pgn].
  cbn [data pageID] in *. subst pgn.
  destruct pg as [il nk pp ks ch nl]. cbn in Hk, Hch.
  change (Z.to_nat MAX_KEYS) with 3%nat in Hk.
  destruct ks as [|k0 [|k1 [|k2 [|]]]]; try discriminate Hk.
  unfold splitNew, splitOld, splitKeys. cbn [keys].
  change (Z.to_nat MAX_KEYS) with 3%nat.
  change (Z.to_nat (MAX_KEYS + 1 - mid)) with 2%nat.
  change (Z.to_nat mid) with 2%nat.
  change (MAX_KEYS + 1 - mid) with 2. change mid with 2.
  cbn [take app].
  pose proof (merge_sort_Permutation Z.le [k0; k1; k2; key]) as Hperm.
  apply Permutation_length in Hperm.
  unfold splitLeaf.
  mstep.
  mstep_by (apply liftB_ok; exact Hrun1).
  mstep_by (apply liftB_ok; exact Hrun2).
  mstep_by (apply liftB_ok; exact Hrun3).
  mstep_by (apply liftB_ok, deref_ok; exact Hfo3).
  cbn [data keys length]. change (Z.to_nat MAX_KEYS) with 3%nat.
  rewrite decide_False by lia. cbn [take app].
  destruct (merge_sort Z.le [k0; k1; k2; key]) as [|t0 [|t1 [|t2 [|t3 [|]]]]];
    try discriminate Hperm.
  clear Hperm. norm.
  change ((MAX_KEYS + 1) `div` 2) with 2.
  change (MAX_KEYS + 1 - 2) with 2.
  clear Hrun1 Hrun2 Hrun3.
  destruct b3 as [sm3 pool3 pt3 lru3 n3 cout3]. cbn in Hfo3, Hfn3, Hpo3, Hpn3.
  mstep_by (apply liftB_ok, setNode_ok; pool_lookup). norm.
  mstep_by (apply liftB_ok, setNode_ok; pool_lookup). norm.
  mstep_by (apply liftB_ok, setNode_ok; pool_lookup). norm.
  mstep_by (apply liftB_ok, deref_ok; pool_lookup). norm.
  change (Z.to_nat 2) with 2%nat.
  cbn [copyKeys Nat.add lookup list_lookup].
  mstep_by (rewrite liftB_bind;
            mstep_by (eapply liftB_ok, writeKey_ok;
                      [pool_lookup|by apply store_ok; cbn; lia]);
            rewrite liftB_bind;
            mstep_by (eapply liftB_ok, writeKey_ok;
                      [pool_lookup|by apply store_ok; cbn; lia]);
            reflexivity).
  norm.
  mstep_by (apply liftB_ok, deref_ok; pool_lookup). norm.
  change (Z.to_nat 2) with 2%nat.
  cbn [copyKeys Nat.add lookup list_lookup].
  mstep_by (rewrite liftB_bind;
            mstep_by (eapply liftB_ok, writeKey_ok;
                      [pool_lookup|by apply store_ok; cbn; lia]);
            rewrite liftB_bind;
            mstep_by (eapply liftB_ok, writeKey_ok;
                      [pool_lookup|by apply store_ok; cbn; lia]);
            reflexivity).
  norm.
  mstep_by (eapply liftB_ok, markDirty_ok; [exact Hpo3|pool_lookup]). norm.
  mstep_by (eapply liftB_ok, markDirty_ok; [exact Hpn3|pool_lookup]). norm.
  mstep. norm.
  mstep_by (apply liftB_ok, deref_ok; pool_lookup). norm.
  cbn [list_insert lookup list_lookup take drop app].
  pool_norm. by exists t2; eexists.
Qed.

Lemma insertIntoParent_other left key right t :
  left ≠ rootPage t -> insertIntoParent left key right t = Ok tt t.
Proof.
  intros Hne. unfold insertIntoParent. mstep. by rewrite decide_False.
Qed.

(** The new root, once its page is allocated and fetched. *)
Lemma insertIntoParent_root left key right t n b1 f b2 fr :
  left = rootPage t ->
  allocatePage (bm t) = Ok n b1 -> fetchPage n b1 = Ok f b2 ->
  pool b2 !! f = Some fr -> data fr = zeroPage ->
  exists c,
    insertIntoParent left key right t =
      Ok tt (mkTree
               (mkBuffer (sm b2)
                  (<[f := mkFrame (pageID fr) (dirty fr)
                            (newRootNode key left right)]> (pool b2))
                  (pageTable b2) (lru b2) (nextPageID b2) c)
               n).
Proof.
  intros Hroot Hrun1 Hrun2 Hf2 Hzero.
  destruct fr as [idr dr pg]. cbn [data pageID dirty] in *. subst pg.
  unfold insertIntoParent. mstep. rewrite decide_True by done.
  mstep_by (apply liftB_ok; exact Hrun1).
  mstep_by (apply liftB_ok; exact Hrun2).
  clear Hrun1 Hrun2.
  destruct b2 as [sm2 pool2 pt2 lru2 n2 cout2]. cbn in Hf2.
  mstep_by (apply liftB_ok, setNode_ok; pool_lookup). norm.
  mstep_by (eapply liftB_ok, writeKey_ok; [pool_lookup|by apply store_ok; cbn; lia]).
  norm.
  mstep_by (eapply liftB_ok, writeChild_ok; [pool_lookup|by apply store_ok; cbn; lia]).
  norm.
  mstep_by (eapply liftB_ok, writeChild_ok; [pool_lookup|by apply store_ok; cbn; lia]).
  norm.
  mstep_by (apply liftB_ok, setNode_ok; pool_lookup). norm.
  mstep. cbn [liftB print modify bm rootPage]. norm.
  cbn [list_insert]. pool_norm. by eexists.
Qed.

(** Rewriting the data of a frame keeps the cache coherent. *)
Lemma coherent_set_data b f fr d pg c :
  coherent b -> pool b !! f = Some fr ->
  coherent (mkBuffer (sm b) (<[f := mkFrame (pageID fr) d pg]> (pool b))
              (pageTable b) (lru b) (nextPageID b) c).
Proof.
  intros [H1 H2 H3 H4] Hfr. split; cbn; [by rewrite length_insert|done|done|].
  intros p g. rewrite H4. split; intros [Hin (gr & Hgr & Hid)]; (split; [done|]).
  - destruct (decide (g = f)) as [->|Hg].
    + eexists. split; [by eapply lookup_set_pool|]. cbn. congruence.
    + exists gr. by rewrite list_lookup_insert_ne.
  - destruct (decide (g = f)) as [->|Hg].
    + erewrite lookup_set_pool in Hgr by done. injection Hgr as <-.
      by exists fr.
    + rewrite list_lookup_insert_ne in Hgr by done. by exists gr.
Qed.

(** Two pages are in two frames. *)
Lemma coherent_two_frames b p q f g :
  coherent b -> pageTable b !! p = Some f -> pageTable b !! q = Some g ->
  p ≠ q -> f ≠ g.
Proof.
  intros Hc Hp Hq Hne ->.
  apply (coh_table _ Hc) in Hp as (_ & fr & Hfr & Hid).
  apply (coh_table _ Hc) in Hq as (_ & fr' & Hfr' & Hid').
  congruence.
Qed.

(** The page a frame on the recency list holds is in the page table. *)
Lemma coherent_frame_page b f fr :
  coherent b -> f ∈ lru b -> pool b !! f = Some fr ->
  pageTable b !! pageID fr = Some f.
Proof. intros Hc Hin Hfr. apply (coh_table _ Hc). eauto. Qed.

(** The recency list of a full pool, after a fetch that follows a fetch
    of the frame [f]: the frame fetched, then [f], then the third. *)
Lemma touched_second (f y x g : nat) :
  NoDup [f; y; x] -> g ∈ [f; y; x] -> g ≠ f ->
  exists z, touched g [f; y; x] = [g; f; z] /\ z ∈ [f; y; x].
Proof.
  intros Hnd Hin Hne. unfold touched.
  apply NoDup_cons in Hnd as [Hf Hnd]. apply NoDup_cons in Hnd as [Hy _].
  rewrite !elem_of_cons in Hin. rewrite !elem_of_cons in Hf.
  rewrite elem_of_cons in Hy.
  destruct Hin as [->|[->|[->|Hin]]]; [done| | |by apply elem_of_nil in Hin].
  - exists x. rewrite !filter_cons, filter_nil.
    rewrite decide_True by (intros ->; tauto).
    rewrite decide_False by (intros H; by apply H).
    rewrite decide_True by (intros ->; tauto).
    split; [done|]. set_solver.
  - exists y. rewrite !filter_cons, filter_nil.
    rewrite decide_True by (intros ->; tauto).
    rewrite decide_True by (intros ->; tauto).
    rewrite decide_False by (intros H; by apply H).
    split; [done|]. set_solver.
Qed.

Lemma touched_head (f : nat) (l : list nat) :
  NoDup (f :: l) -> touched f (f :: l) = f :: l.
Proof.
  intros [Hf _]%NoDup_cons. unfold touched. rewrite filter_cons.
  rewrite decide_False by (intros H; by apply H).
  by rewrite filter_ne_absent.
Qed.

(** A fetch of the root of a full pool puts its frame at the front. *)
Lemma touched_three (f : nat) (l : list nat) :
  NoDup l -> length l = 3%nat -> f ∈ l ->
  exists y x, touched f l = [f; y; x].
Proof.
  intros Hnd Hlen Hin. unfold touched.
  destruct l as [|a [|b [|c [|]]]]; try discriminate Hlen.
  apply NoDup_cons in Hnd as [Ha Hnd]. apply NoDup_cons in Hnd as [Hb _].
  rewrite !elem_of_cons in Hin. rewrite !elem_of_cons in Ha.
  rewrite elem_of_cons in Hb.
  rewrite !filter_cons, filter_nil.
  destruct Hin as [->|[->|[->|Hin]]]; [| | |by apply elem_of_nil in Hin].
  - rewrite decide_False by (intros H; by apply H).
    rewrite decide_True by (intros ->; tauto).
    rewrite decide_True by (intros ->; tauto). eauto.
  - rewrite decide_True by (intros ->; tauto).
    rewrite decide_False by (intros H; by apply H).
    rewrite decide_True by (intros ->; tauto). eauto.
  - rewrite decide_True by (intros ->; tauto).
    rewrite decide_True by (intros ->; tauto).
    rewrite decide_False by (intros H; by apply H). eauto.
Qed.

(** A hit, as a state. *)
Lemma fetchPage_hit p f b :
  pageTable b !! p = Some f ->
  fetchPage p b =
  Ok f (mkBuffer (sm b) (pool b) (pageTable b) (touched f (lru b))
          (nextPageID b) (BufferHit p :: cout b)).
Proof. intros Hp. unfold fetchPage. mstep. by rewrite Hp. Qed.

(** In a full pool whose most recent frame [f] holds the root, the fetch
    of another page returns another frame, whose data it leaves as it is,
    and keeps the root where it is. *)
Lemma descend_child b f y x r c :
  coherent b -> failed (sm b) = true -> lru b = [f; y; x] ->
  pageTable b !! r = Some f -> c ≠ r ->
  exists g b2 z,
    fetchPage c b = Ok g b2 /\ g ≠ f /\ coherent b2 /\ sm b2 = sm b /\
    nextPageID b2 = nextPageID b /\
    lru b2 = [g; f; z] /\ pageTable b2 !! c = Some g /\
    pageTable b2 !! r = Some f /\ pool b2 !! f = pool b !! f /\
    (forall h, data <$> pool b2 !! h = data <$> pool b !! h) /\
    (forall q h, pageTable b2 !! q = Some h ->
                 q = c \/ pageTable b !! q = Some h).
Proof.
  intros Hc Hfail Hlru Hroot Hne.
  destruct (fetchPage_fetched c b Hc) as (g & b2 & Hrun & Hf & Hn).
  pose proof (fetched_coherent _ _ _ _ Hc Hf) as Hc2.
  destruct (fetched_frozen _ _ _ _ Hfail Hf) as (Hsm & _ & Hdata).
  destruct (fetched_lookup _ _ _ _ Hc Hf) as (Hpg & _ & _).
  destruct (fetched_survives c b g b2 r f 0 Hc Hf Hroot) as (Hr2 & Hpf & _);
    [by rewrite Hlru|change (Z.to_nat BUFFER_CAPACITY) with 3%nat; lia|].
  pose proof (coherent_nodup _ Hc) as Hnd. rewrite Hlru in Hnd.
  assert (Hgf : g ≠ f).
  { exact (coherent_two_frames b2 c r g f Hc2 Hpg Hr2 Hne). }
  assert (Hl2 : exists z, lru b2 = [g; f; z]).
  { destruct Hf as [Hp _ _ _ Hl2 | fr Hp Hlt _ _ _ _ _ _
                   | l fr Hp Hlen Hl Hfr _ _ _ Hl2].
    - rewrite Hlru in Hl2.
      apply (coh_table _ Hc) in Hp as [Hin _]. rewrite Hlru in Hin.
      destruct (touched_second f y x g Hnd Hin Hgf) as (z & Hz & _).
      exists z. congruence.
    - rewrite Hlru in Hlt. change (Z.to_nat BUFFER_CAPACITY) with 3%nat in Hlt.
      cbn in Hlt. lia.
    - rewrite Hlru in Hl. change [f; y; x] with ([f; y] ++ [x]) in Hl.
      apply app_inj_tail in Hl as [<- <-]. by exists y. }
  destruct Hl2 as [z Hl2].
  exists g, b2, z. repeat (split; [done|]).
  intros q h. exact (fetched_resident _ _ _ _ q h Hf).
Qed.

(** ** Leaves stay leaves *)

Lemma leaf_ok_mono ks key n : leaf_ok ks n -> leaf_ok (ks ++ [key]) n.
Proof.
  intros [H1 H2 H3 H4]. split; try done.
  - intros x Hx. apply elem_of_app. left. by apply H3.
  - intros Hnd. apply H4. by apply NoDup_app in Hnd as [? _].
Qed.

Lemma node_ok_mono ks key n : node_ok ks n -> node_ok (ks ++ [key]) n.
Proof.
  intros [H1 H2 H3 H4]. split; try done.
  intros Hl. by apply leaf_ok_mono, H4.
Qed.

Lemma leaf_ok_placed ks key pg arr :
  leaf_ok ks pg -> numKeys pg < MAX_KEYS ->
  StronglySorted Z.le (take (S (Z.to_nat (numKeys pg))) arr) ->
  take (S (Z.to_nat (numKeys pg))) arr ≡ₚ key :: leafKeys pg ->
  leaf_ok (ks ++ [key]) (set_numKeys (numKeys pg + 1) (set_keys arr pg)).
Proof.
  intros [H2 H4 H5 H6] Hlt Hsort Hperm.
  assert (Hk : leafKeys (set_numKeys (numKeys pg + 1) (set_keys arr pg))
               = take (S (Z.to_nat (numKeys pg))) arr).
  { unfold leafKeys. cbn. f_equal. lia. }
  split; cbn [isLeaf numKeys parentPage nextLeaf set_numKeys set_keys];
    rewrite ?Hk; try done.
  - lia.
  - intros x Hx. rewrite Hperm in Hx.
    apply elem_of_cons in Hx as [->|Hx]; apply elem_of_app;
      [right; by apply list_elem_of_singleton | left; by apply H5].
  - intros Hnd. rewrite Hperm.
    apply NoDup_app in Hnd as (Hnd & Hdisj & _).
    apply NoDup_cons. split; [|by apply H6].
    intros Hin. apply (Hdisj key); [by apply H5|by apply list_elem_of_singleton].
Qed.

Lemma node_ok_placed ks key pg arr :
  node_ok ks pg -> isLeaf pg = true -> numKeys pg < MAX_KEYS ->
  length arr = length (keys pg) ->
  StronglySorted Z.le (take (S (Z.to_nat (numKeys pg))) arr) ->
  take (S (Z.to_nat (numKeys pg))) arr ≡ₚ key :: leafKeys pg ->
  node_ok (ks ++ [key]) (set_numKeys (numKeys pg + 1) (set_keys arr pg)).
Proof.
  intros [[H1 H1'] H2 H3 H4] Hleaf Hlt Hlen Hsort Hperm.
  split; cbn [isLeaf numKeys parentPage nextLeaf set_numKeys set_keys]; try done.
  - split; cbn; [congruence|done].
  - intros _. apply leaf_ok_placed; auto.
Qed.

Lemma leaf_ok_split ks key pg :
  wellSized pg -> leaf_ok ks pg -> numKeys pg = MAX_KEYS ->
  leaf_ok (ks ++ [key]) (splitOld key pg) /\
  leaf_ok (ks ++ [key]) (splitNew key pg).
Proof.
  intros H3 [H2 H4 H5 H6] Hfull.
  destruct (splitKeys_facts key pg H3)
    as (t0 & t1 & t2 & t3 & k0 & k1 & k2 & Hkeys & Htemp & Hsort & Hperm).
  assert (Hlk : leafKeys pg = [k0; k1; k2]).
  { unfold leafKeys. rewrite Hfull, Hkeys. done. }
  rewrite Hlk in H4, H5, H6.
  assert (Hsub : forall x, x ∈ [t0; t1; t2; t3] -> x ∈ ks ++ [key]).
  { intros x Hx. rewrite Hperm in Hx.
    change [k0; k1; k2; key] with ([k0; k1; k2] ++ [key]) in Hx.
    apply elem_of_app in Hx as [Hx|Hx]; apply elem_of_app; [left|right];
      [by apply H5|done]. }
  assert (Hnd : NoDup (ks ++ [key]) -> NoDup [t0; t1; t2; t3]).
  { intros Hnd. rewrite Hperm.
    change [k0; k1; k2; key] with ([k0; k1; k2] ++ [key]).
    apply NoDup_app in Hnd as (Hnd & Hdisj & _).
    apply NoDup_app. split; [by apply H6|]. split; [|apply NoDup_singleton].
    intros x Hx. apply Hdisj. by apply H5. }
  assert (Ho : leafKeys (splitOld key pg) = [t0; t1]).
  { unfold leafKeys, splitOld. cbn. by rewrite Htemp, Hkeys. }
  assert (Hn : leafKeys (splitNew key pg) = [t2; t3]).
  { unfold leafKeys, splitNew. cbn. by rewrite Htemp. }
  change [t0; t1; t2; t3] with ([t0; t1] ++ [t2; t3]) in Hsort, Hnd, Hsub.
  split; split; unfold splitOld, splitNew;
    cbn [isLeaf numKeys parentPage nextLeaf set_numKeys set_keys set_isLeaf zeroPage];
    fold (splitOld key pg); fold (splitNew key pg); rewrite ?Ho, ?Hn; try done.
  - by eapply StronglySorted_app_1_l.
  - intros x Hx. apply Hsub. apply elem_of_app. by left.
  - intros Hnd'. by apply Hnd, NoDup_app in Hnd' as (? & _).
  - by eapply StronglySorted_app_1_r.
  - intros x Hx. apply Hsub. apply elem_of_app. by right.
  - intros Hnd'. by apply Hnd, NoDup_app in Hnd' as (_ & _ & ?).
Qed.

Lemma wellSized_splitOld key pg : wellSized pg -> wellSized (splitOld key pg).
Proof.
  intros H3.
  destruct (splitKeys_facts key pg H3)
    as (t0 & t1 & t2 & t3 & k0 & k1 & k2 & Hkeys & Htemp & _).
  destruct H3 as [_ H3]. split; [|done].
  unfold splitOld. cbn. by rewrite Htemp, Hkeys.
Qed.

Lemma wellSized_splitNew key pg : wellSized pg -> wellSized (splitNew key pg).
Proof.
  intros H3.
  destruct (splitKeys_facts key pg H3)
    as (t0 & t1 & t2 & t3 & k0 & k1 & k2 & Hkeys & Htemp & _).
  split; [|done]. unfold splitNew. cbn. by rewrite Htemp.
Qed.

Lemma node_ok_split ks key pg :
  node_ok ks pg -> isLeaf pg = true -> numKeys pg = MAX_KEYS ->
  node_ok (ks ++ [key]) (splitOld key pg) /\
  node_ok (ks ++ [key]) (splitNew key pg).
Proof.
  intros [H1 H2 H3 H4] Hleaf Hfull.
  destruct (leaf_ok_split ks key pg H1 (H4 Hleaf) Hfull) as [Ho Hn].
  split; split; try done.
  - by apply wellSized_splitOld.
  - by apply wellSized_splitNew.
  - by left.
Qed.

Lemma node_ok_root ks sep l r : node_ok ks (newRootNode sep l r).
Proof. split; try done. by left. Qed.

Lemma node_ok_zero ks : node_ok ks zeroPage.
Proof. split; try done. by left. Qed.

(** ** The invariant of the tree *)

Lemma same_data_inv (l l' : list Frame) h hr :
  data <$> l' !! h = data <$> l !! h -> l' !! h = Some hr ->
  exists hr0, l !! h = Some hr0 /\ data hr0 = data hr.
Proof.
  intros Hd Hl'. rewrite Hl' in Hd. destruct (l !! h) as [hr0|]; [|done].
  exists hr0. split; [done|]. cbn in Hd. congruence.
Qed.

Lemma tree_inv_ext ks t t' :
  tree_inv ks t ->
  sm (bm t') = sm (bm t) -> pool (bm t') = pool (bm t) ->
  pageTable (bm t') = pageTable (bm t) -> lru (bm t') = lru (bm t) ->
  nextPageID (bm t') = nextPageID (bm t) -> rootPage t' = rootPage t ->
  tree_inv ks t'.
Proof.
  intros [H1 H2 H3 H4 H5 H6] Hsm Hpool Hpt Hlru Hn Hr.
  split; rewrite ?Hsm, ?Hpool, ?Hpt, ?Hlru, ?Hn, ?Hr; try done.
  by apply (coherent_ext (bm t)).
Qed.

(** The descent once the root is internal: the root is a hit, the child
    the key selects is fetched into another frame, and is a leaf. *)
Lemma findLeaf_B ks key fuel t :
  tree_inv ks t -> rootPage t = 2 ->
  exists c g f z t' sep,
    findLeaf (S (S fuel)) 2 key t = Ok c t' /\
    tree_inv ks t' /\ rootPage t' = 2 /\
    merge_sort Z.le (take 4 ks) !! 2%nat = Some sep /\
    c = (if decide (sep <= key) then 1 else 0) /\
    pageTable (bm t') !! c = Some g /\ pageTable (bm t') !! 2 = Some f /\
    lru (bm t') = [g; f; z] /\
    (forall h, data <$> pool (bm t') !! h = data <$> pool (bm t) !! h).
Proof.
  intros Hinv Hroot. pose proof Hinv as [Hc Hfail Hfile Hres Hnodes Hph].
  destruct Hph as [(Hr & _)
                  |(_ & Hlen & Hnext & Hl3 & f & fr & sep & Hpf & Hfr & Hdata
                    & Hsep & Hleaves)]; [congruence|].
  assert (Hin : f ∈ lru (bm t)) by (by apply (coh_table _ Hc) in Hpf as [? _]).
  destruct (touched_three f _ (coherent_nodup _ Hc) Hl3 Hin) as (y & x & Ht).
  pose proof (fetchPage_hit 2 f (bm t) Hpf) as Hrun1. rewrite Ht in Hrun1.
  set (b1 := mkBuffer _ _ _ _ _ _) in Hrun1.
  assert (Hc1 : coherent b1).
  { apply (fetched_coherent 2 (bm t) f); [done|]. by apply fetched_hit. }
  rewrite (findLeaf_step (S fuel) 2 key t f b1 fr Hrun1 Hfr), Hdata.
  cbn [isLeaf newRootNode keys numKeys children].
  change (Z.to_nat 1) with 1%nat. cbn [scanKeys lookup list_lookup].
  set (c := if decide (sep <= key) then 1 else 0).
  assert (Hc01 : c = 0 \/ c = 1) by (subst c; destruct (decide (sep <= key)); auto).
  assert (Hstep :
    match (if sep <=? key then Some 1%nat else Some 0%nat) with
    | Some i =>
        match [0; 1; 0; 0] !! i with
        | Some child => findLeaf (S fuel) child key (mkTree b1 (rootPage t))
        | None => Undefined
        end
    | None => Undefined
    end = findLeaf (S fuel) c key (mkTree b1 (rootPage t))).
  { subst c. destruct (Z.leb_spec sep key).
    - by rewrite decide_True.
    - by rewrite decide_False by lia. }
  rewrite Hstep. clear Hstep.
  destruct (descend_child b1 f y x 2 c Hc1 Hfail eq_refl Hpf)
    as (g & b2 & z & Hrun2 & Hgf & Hc2 & Hsm2 & Hn2 & Hl2 & Hpg2 & Hpf2 & Hf2
        & Hdata2 & Hres2); [lia|].
  destruct (coherent_resident_frame _ _ _ Hc2 Hpg2) as [gr Hgr].
  destruct (same_data_inv _ _ _ _ (Hdata2 g) Hgr) as (gr0 & Hgr0 & Hd0).
  destruct (Hleaves g gr0 Hgf Hgr0) as [Hleaf _].
  rewrite (findLeaf_step fuel c key (mkTree b1 (rootPage t)) g b2 gr Hrun2 Hgr).
  rewrite <- Hd0, Hleaf. cbn [rootPage].
  exists c, g, f, z. eexists. exists sep. split; [reflexivity|].
  cbn [bm rootPage]. split; [|done].
  split; cbn [bm rootPage]; try done.
  - by rewrite Hsm2.
  - by rewrite Hsm2.
  - intros q h Hq. rewrite Hn2. destruct (Hres2 _ _ Hq) as [->|Hq']; [cbn; lia|].
    by apply (Hres q h).
  - intros h hr Hhr.
    destruct (same_data_inv _ _ _ _ (Hdata2 h) Hhr) as (hr0 & Hhr0 & <-).
    by apply (Hnodes h hr0).
  - right. split; [done|]. split; [done|]. split; [by rewrite Hn2|].
    split; [by rewrite Hl2|]. exists f, fr, sep.
    split; [done|]. split; [by rewrite Hf2|]. split; [done|]. split; [done|].
    intros h hr Hh Hhr.
    destruct (same_data_inv _ _ _ _ (Hdata2 h) Hhr) as (hr0 & Hhr0 & <-).
    by apply (Hleaves h hr0).
Qed.

Lemma touched_mid (a b c : nat) :
  NoDup [a; b; c] -> touched b [a; b; c] = [b; a; c].
Proof.
  intros Hnd. apply NoDup_cons in Hnd as [Ha Hnd].
  apply NoDup_cons in Hnd as [Hb _].
  rewrite !elem_of_cons in Ha. rewrite elem_of_cons in Hb.
  unfold touched. rewrite !filter_cons, filter_nil.
  rewrite decide_True by (intros ->; tauto).
  rewrite decide_False by (intros H; by apply H).
  rewrite decide_True by (intros ->; tauto). done.
Qed.

Lemma NoDup_three (a b c : nat) : a ≠ b -> a ≠ c -> b ≠ c -> NoDup [a; b; c].
Proof.
  intros Hab Hac Hbc. repeat (apply NoDup_cons; split); try apply NoDup_nil_2;
    rewrite ?not_elem_of_cons; repeat split; try done; apply not_elem_of_nil.
Qed.

(** The insertion into the child [findLeaf] returned, once the root is
    internal: the key is placed, or the child is split into its frame and
    the frame at the back of the recency list, which is not the root's. *)
Lemma insertIntoLeaf_B ks key c g f z t :
  tree_inv ks t -> rootPage t = 2 -> c ≠ 2 ->
  pageTable (bm t) !! c = Some g -> pageTable (bm t) !! 2 = Some f ->
  lru (bm t) = [g; f; z] -> Z.of_nat (length ks) <= INT_MAX ->
  exists t', insertIntoLeaf c key t = Ok tt t' /\ tree_inv (ks ++ [key]) t'.
Proof.
  intros Hinv Hroot Hc2 Hpg Hpf Hlru Hbound.
  destruct Hinv as [Hc Hfail Hfile Hres Hnodes Hph].
  destruct Hph as [(Hr & _)
                  |(_ & Hlen & Hnext & Hl3 & f' & fr & sep & Hpf' & Hfr & Hdata
                    & Hsep & Hleaves)]; [congruence|].
  rewrite Hpf in Hpf'. injection Hpf' as <-.
  pose proof (coherent_nodup _ Hc) as Hnd. rewrite Hlru in Hnd.
  assert (Hgf : g ≠ f) by exact (coherent_two_frames _ c 2 g f Hc Hpg Hpf Hc2).
  assert (Hzg : z ≠ g).
  { intros Heq. apply NoDup_cons in Hnd as [Hnd _].
    rewrite !not_elem_of_cons in Hnd. by destruct Hnd as (_ & ? & _). }
  assert (Hzf : z ≠ f).
  { intros Heq. apply NoDup_cons in Hnd as [_ [Hnd _]%NoDup_cons].
    rewrite !not_elem_of_cons in Hnd. by destruct Hnd as (? & _). }
  assert (Hgz : g ≠ z) by (by apply not_eq_sym).
  assert (Hfz : f ≠ z) by (by apply not_eq_sym).
  assert (Hfg : f ≠ g) by (by apply not_eq_sym).
  destruct (coherent_resident_frame _ _ _ Hc Hpg) as [gr Hgr].
  destruct (Hleaves g gr Hgf Hgr) as [Hleaf Hmin].
  pose proof (Hnodes g gr Hgr) as Hok.
  pose proof (no_leaf _ _ Hok Hleaf) as Hlo.
  assert (Hlen' : Z.of_nat (length (ks ++ [key])) = Z.of_nat (length ks) + 1).
  { rewrite length_app. cbn. lia. }
  assert (Htake : take 4 (ks ++ [key]) = take 4 ks).
  { apply take_app_le. unfold MAX_KEYS in Hlen. lia. }
  (* the fetch of the child is a hit on the most recent frame *)
  pose proof (fetchPage_hit c g (bm t) Hpg) as Hrun1.
  rewrite Hlru, (touched_head g [f; z] Hnd) in Hrun1.
  set (b1 := mkBuffer _ _ _ _ _ _) in Hrun1.
  assert (Hc1 : coherent b1).
  { apply (coherent_ext (bm t)); done. }
  destruct (Z.lt_ge_cases (numKeys (data gr)) MAX_KEYS) as [Hroom|Hfull].
  - destruct (insertIntoLeaf_room key c t g b1 gr Hrun1 Hpg Hgr)
      as (arr & c0 & Hrun & Hal & Hsort & Hperm);
      [pose proof (lo_count _ _ Hlo); lia|apply Hok|apply Hlo|].
    eexists. split; [exact Hrun|].
    pose proof (coherent_set_data b1 g gr true
                  (set_numKeys (numKeys (data gr) + 1) (set_keys arr (data gr)))
                  c0 Hc1 Hgr) as Hc'.
    subst b1.
    split; cbn [bm rootPage sm pool pageTable lru nextPageID] in *; try done.
    + intros h hr. destruct (decide (h = g)) as [->|Hh].
      * erewrite lookup_set_pool by done. intros [= <-]. cbn [data].
        by apply node_ok_placed.
      * rewrite list_lookup_insert_ne by done. intros Hhr.
        by apply node_ok_mono, (Hnodes h).
    + right. rewrite Hlen'. split; [done|]. split; [lia|]. split; [lia|].
      split; [done|]. exists f, fr, sep.
      split; [done|]. split; [by rewrite list_lookup_insert_ne|].
      split; [done|]. split; [by rewrite Htake|].
      intros h hr Hh. destruct (decide (h = g)) as [->|Hhg].
      * erewrite lookup_set_pool by done. intros [= <-]. cbn. split; [done|lia].
      * rewrite list_lookup_insert_ne by done. by apply Hleaves.
  - assert (Hnk : numKeys (data gr) = MAX_KEYS)
      by (pose proof (lo_count _ _ Hlo); lia).
    rewrite (insertIntoLeaf_full key c t g b1 gr Hrun1 Hgr Hfull).
    set (n := nextPageID (bm t)) in *.
    set (b0 := set_cout (TreeNodeFull :: cout b1) b1).
    assert (Hc0 : coherent b0) by (by apply (coherent_ext (bm t))).
    assert (Hmiss : pageTable b0 !! nextPageID b0 = None).
    { cbn. fold n. destruct (pageTable (bm t) !! n) as [h|] eqn:Hn; [|done].
      apply Hres in Hn. lia. }
    destruct (allocatePage_evict b0 [g; f] z Hc0 Hfail Hmiss)
      as (zr & b2 & Hzr & Hrun2 & Hsm2 & Hpool2 & Hpt2 & Hlru2 & Hn2);
      [reflexivity|reflexivity|].
    cbn [b0 b1 set_cout sm pool pageTable lru nextPageID] in Hzr, Hrun2, Hsm2,
      Hpool2, Hpt2, Hlru2, Hn2. fold n in Hrun2, Hpool2, Hpt2, Hn2.
    assert (Hwrap : wrap (n + 1) = n + 1).
    { apply wrap_id. unfold INT_MIN, INT_MAX in *. lia. }
    rewrite Hwrap in Hn2.
    assert (Hc2' : coherent b2).
    { destruct (allocatePage_coherent b0 Hc0) as (f2 & b2' & Hrun2' & Hc2' & _).
      cbn [b0 b1 set_cout nextPageID] in Hrun2'. fold n in Hrun2'.
      change (allocatePage b0 = Ok n b2') in Hrun2'.
      rewrite Hrun2 in Hrun2'. by injection Hrun2' as ->. }
    assert (Hzpage : pageTable (bm t) !! pageID zr = Some z).
    { apply coherent_frame_page; [done| |done]. rewrite Hlru.
      rewrite !elem_of_cons. auto. }
    assert (Hcz : c ≠ pageID zr) by (intros ->; congruence).
    assert (H2z : 2 ≠ pageID zr) by (intros H; rewrite <- H in Hzpage; congruence).
    assert (Hcn : c ≠ n) by (apply Hres in Hpg; lia).
    assert (Hpg2 : pageTable b2 !! c = Some g).
    { rewrite Hpt2, lookup_insert_ne, lookup_delete_ne by done. done. }
    assert (Hpn2 : pageTable b2 !! n = Some z).
    { rewrite Hpt2. apply lookup_insert_eq. }
    (* the two fetches of [splitLeaf] are hits *)
    pose proof (fetchPage_hit c g b2 Hpg2) as Hrun3.
    rewrite Hlru2, touched_mid in Hrun3 by (by apply NoDup_three).
    set (b3 := mkBuffer _ _ _ _ _ _) in Hrun3.
    assert (Hc3 : coherent b3).
    { apply (fetched_coherent c b2 g); [done|]. apply fetched_hit; try done.
      cbn. rewrite Hlru2. symmetry. by apply touched_mid, NoDup_three. }
    pose proof (fetchPage_hit n z b3 Hpn2) as Hrun4.
    cbn [b3 sm pool pageTable lru nextPageID cout] in Hrun4.
    rewrite touched_mid in Hrun4 by (by apply NoDup_three).
    set (b4 := mkBuffer _ _ _ _ _ _) in Hrun4.
    assert (Hc4 : coherent b4).
    { apply (fetched_coherent n b3 z); [done|]. apply fetched_hit; try done.
      cbn. symmetry. by apply touched_mid, NoDup_three. }
    assert (Hg4 : pool b4 !! g = Some gr).
    { cbn. rewrite Hpool2. by rewrite list_lookup_insert_ne. }
    assert (Hz4 : pool b4 !! z = Some (mkFrame n true zeroPage)).
    { cbn. rewrite Hpool2. by eapply lookup_set_pool. }
    destruct (splitLeaf_run key c (mkTree b1 (rootPage t)) n b2 g b3 z b4 gr
                (mkFrame n true zeroPage))
      as (k & c0 & Hk & Hrun5); try done; [apply Hok|].
    rewrite Hrun5, insertIntoParent_other by (cbn; congruence).
    eexists. split; [reflexivity|].
    cbn [b4 b3 rootPage bm sm pool pageTable lru nextPageID pageID].
    destruct (node_ok_split ks key (data gr) Hok Hleaf Hnk) as [Hoko Hokn].
    split; cbn [bm rootPage sm pool pageTable lru nextPageID]; try done.
    + apply (coherent_set_data
               (mkBuffer (sm b2)
                  (<[g := mkFrame (pageID gr) true (splitOld key (data gr))]> (pool b2))
                  (pageTable b2) [z; g; f] (nextPageID b2) c0)
               z (mkFrame n true zeroPage)).
      * by apply (coherent_set_data b4).
      * etrans; [exact (list_lookup_insert_ne (pool b2) g z _ Hgz)|exact Hz4].
    + by rewrite Hsm2.
    + by rewrite Hsm2.
    + intros q h. rewrite Hpt2, Hn2. destruct (decide (q = n)) as [->|Hq].
      * intros _. lia.
      * rewrite lookup_insert_ne by done. intros [_ Hq']%lookup_delete_Some.
        apply Hres in Hq'. lia.
    + intros h hr. destruct (decide (h = z)) as [->|Hhz].
      { erewrite lookup_set_pool by (rewrite list_lookup_insert_ne by done; exact Hz4).
        by intros [= <-]. }
      rewrite list_lookup_insert_ne by done.
      destruct (decide (h = g)) as [->|Hhg].
      { erewrite lookup_set_pool by exact Hg4. by intros [= <-]. }
      rewrite list_lookup_insert_ne by done.
      rewrite Hpool2, list_lookup_insert_ne by done. intros Hhr.
      by apply node_ok_mono, (Hnodes h).
    + right. rewrite Hlen', Hn2. split; [done|]. split; [lia|]. split; [lia|].
      split; [done|].
      exists f, fr, sep. split.
      { rewrite Hpt2, lookup_insert_ne, lookup_delete_ne by (done || lia). done. }
      split.
      { rewrite !list_lookup_insert_ne by done.
        rewrite Hpool2, list_lookup_insert_ne by done. done. }
      split; [done|]. split; [by rewrite Htake|].
      intros h hr Hh. destruct (decide (h = z)) as [->|Hhz].
      { erewrite lookup_set_pool by (rewrite list_lookup_insert_ne by done; exact Hz4).
        by intros [= <-]. }
      rewrite list_lookup_insert_ne by done.
      destruct (decide (h = g)) as [->|Hhg].
      { erewrite lookup_set_pool by exact Hg4. intros [= <-]. by cbn. }
      rewrite list_lookup_insert_ne by done.
      rewrite Hpool2, list_lookup_insert_ne by done. by apply Hleaves.
Qed.

Lemma merge_sort_perm (l1 l2 : list Z) :
  l1 ≡ₚ l2 -> merge_sort Z.le l1 = merge_sort Z.le l2.
Proof.
  intros Hp. apply (StronglySorted_unique Z.le);
    [apply StronglySorted_merge_sort; apply _..|].
  by rewrite !merge_sort_Permutation.
Qed.

(** While the root is a leaf, the descent is one hit. *)
Lemma findLeaf_A ks key fuel t :
  tree_inv ks t -> rootPage t = 0 ->
  exists t',
    findLeaf (S fuel) 0 key t = Ok 0 t' /\ tree_inv ks t' /\ rootPage t' = 0.
Proof.
  intros Hinv Hroot. pose proof Hinv as [Hc Hfail Hfile Hres Hnodes Hph].
  destruct Hph as [(_ & Hn & Hlen & Hlru & fr & Hfr & Hid & Hleaf & Hpar & Hperm)
                  |(Hr & _)]; [|congruence].
  assert (Hp0 : pageTable (bm t) !! 0 = Some 0%nat).
  { rewrite <- Hid. apply coherent_frame_page; [done| |done].
    rewrite Hlru. by apply list_elem_of_singleton. }
  pose proof (fetchPage_hit 0 0%nat (bm t) Hp0) as Hrun. rewrite Hlru in Hrun.
  change (touched 0 [0%nat]) with [0%nat] in Hrun.
  rewrite (findLeaf_step fuel 0 key t 0%nat _ fr Hrun Hfr), Hleaf.
  eexists. split; [reflexivity|]. split; [|done].
  by apply (tree_inv_ext ks t).
Qed.

(** The insertion while the root is a leaf: the key is placed; or the
    root is split into the frames 0 and 1, and the new root goes to
    frame 2. *)
Lemma insertIntoLeaf_A ks key t :
  tree_inv ks t -> rootPage t = 0 ->
  exists t', insertIntoLeaf 0 key t = Ok tt t' /\ tree_inv (ks ++ [key]) t'.
Proof.
  intros Hinv Hroot. destruct Hinv as [Hc Hfail Hfile Hres Hnodes Hph].
  destruct Hph as [(_ & Hn & Hlen & Hlru & fr & Hfr & Hid & Hleaf & Hpar & Hperm)
                  |(Hr & _)]; [|congruence].
  assert (Hp0 : pageTable (bm t) !! 0 = Some 0%nat).
  { rewrite <- Hid. apply coherent_frame_page; [done| |done].
    rewrite Hlru. by apply list_elem_of_singleton. }
  pose proof (Hnodes _ _ Hfr) as Hok.
  pose proof (no_leaf _ _ Hok Hleaf) as Hlo.
  pose proof (lo_count _ _ Hlo) as Hcount.
  assert (Hnk : numKeys (data fr) = Z.of_nat (length ks)).
  { apply Permutation_length in Hperm. unfold leafKeys in Hperm.
    rewrite length_take, (proj1 (no_sized _ _ Hok)) in Hperm.
    unfold MAX_KEYS in *. lia. }
  assert (Hlen' : Z.of_nat (length (ks ++ [key])) = Z.of_nat (length ks) + 1).
  { rewrite length_app. cbn. lia. }
  pose proof (fetchPage_hit 0 0%nat (bm t) Hp0) as Hrun1. rewrite Hlru in Hrun1.
  change (touched 0 [0%nat]) with [0%nat] in Hrun1.
  set (b1 := mkBuffer _ _ _ _ _ _) in Hrun1.
  assert (Hc1 : coherent b1) by (by apply (coherent_ext (bm t))).
  destruct (Z.lt_ge_cases (numKeys (data fr)) MAX_KEYS) as [Hroom|Hfull].
  - destruct (insertIntoLeaf_room key 0 t 0%nat b1 fr Hrun1 Hp0 Hfr)
      as (arr & c0 & Hrun & Hal & Hsort & Hperm');
      [lia|apply Hok|apply Hlo|].
    eexists. split; [exact Hrun|].
    pose proof (coherent_set_data b1 0%nat fr true
                  (set_numKeys (numKeys (data fr) + 1) (set_keys arr (data fr)))
                  c0 Hc1 Hfr) as Hc'.
    subst b1.
    split; cbn [bm rootPage sm pool pageTable lru nextPageID] in *; try done.
    + intros h hr. destruct (decide (h = 0%nat)) as [->|Hh].
      * erewrite lookup_set_pool by done. intros [= <-]. cbn [data].
        by apply node_ok_placed.
      * rewrite list_lookup_insert_ne by done. intros Hhr.
        by apply node_ok_mono, (Hnodes h).
    + left. rewrite Hlen'. split; [done|]. split; [done|]. split; [lia|].
      split; [done|]. eexists. split; [by eapply lookup_set_pool|].
      cbn [pageID data]. split; [done|]. split; [done|]. split; [done|].
      unfold leafKeys at 1. cbn [numKeys keys set_numKeys set_keys].
      replace (Z.to_nat (numKeys (data fr) + 1))
        with (S (Z.to_nat (numKeys (data fr)))) by lia.
      by rewrite Hperm', Hperm, Permutation_cons_append.
  - assert (Hfull3 : numKeys (data fr) = MAX_KEYS) by lia.
    rewrite (insertIntoLeaf_full key 0 t 0%nat b1 fr Hrun1 Hfr Hfull).
    set (b0 := set_cout (TreeNodeFull :: cout b1) b1).
    assert (Hc0 : coherent b0) by (by apply (coherent_ext (bm t))).
    assert (Hno : forall p, 0 < p -> pageTable (bm t) !! p = None).
    { intros p Hp. destruct (pageTable (bm t) !! p) as [h|] eqn:Hh; [|done].
      apply Hres in Hh. lia. }
    destruct (allocatePage_room b0 Hc0 Hfail) as (b2 & Hrun2 & Hsm2 & Hpool2
        & Hpt2 & Hlru2 & Hn2);
      [cbn; rewrite Hn; by apply Hno
      |change (Z.to_nat BUFFER_CAPACITY) with 3%nat; cbn; lia|].
    cbn [b0 b1 set_cout sm pool pageTable lru nextPageID length] in Hrun2, Hsm2,
      Hpool2, Hpt2, Hlru2, Hn2.
    rewrite Hn in Hrun2, Hpool2, Hpt2, Hn2.
    change (wrap (1 + 1)) with 2 in Hn2.
    assert (Hc2 : coherent b2).
    { destruct (allocatePage_coherent b0 Hc0) as (f2 & b2' & Hrun2' & Hc2' & _).
      cbn [b0 b1 set_cout nextPageID] in Hrun2'. rewrite Hn in Hrun2'.
      change (allocatePage b0 = Ok 1 b2') in Hrun2'.
      rewrite Hrun2 in Hrun2'. by injection Hrun2' as ->. }
    assert (Hp02 : pageTable b2 !! 0 = Some 0%nat).
    { by rewrite Hpt2, lookup_insert_ne. }
    assert (Hp12 : pageTable b2 !! 1 = Some 1%nat).
    { rewrite Hpt2. apply lookup_insert_eq. }
    pose proof (fetchPage_hit 0 0%nat b2 Hp02) as Hrun3. rewrite Hlru2 in Hrun3.
    change (touched 0 [1%nat; 0%nat]) with [0%nat; 1%nat] in Hrun3.
    set (b3 := mkBuffer _ _ _ _ _ _) in Hrun3.
    assert (Hc3 : coherent b3).
    { apply (fetched_coherent 0 b2 0%nat); [done|]. apply fetched_hit; try done.
      cbn. by rewrite Hlru2. }
    pose proof (fetchPage_hit 1 1%nat b3 Hp12) as Hrun4.
    cbn [b3 sm pool pageTable lru nextPageID cout] in Hrun4.
    change (touched 1 [0%nat; 1%nat]) with [1%nat; 0%nat] in Hrun4.
    set (b4 := mkBuffer _ _ _ _ _ _) in Hrun4.
    assert (Hc4 : coherent b4).
    { apply (fetched_coherent 1 b3 1%nat); [done|]. by apply fetched_hit. }
    assert (H04 : pool b4 !! 0%nat = Some fr).
    { cbn. rewrite Hpool2. by rewrite list_lookup_insert_ne. }
    destruct (coherent_frame b0 1 Hc0) as [fr1 Hfr1];
      [change (Z.to_nat BUFFER_CAPACITY) with 3%nat; lia|].
    assert (H14 : pool b4 !! 1%nat = Some (mkFrame 1 true zeroPage)).
    { cbn. rewrite Hpool2. by eapply lookup_set_pool. }
    destruct (splitLeaf_run key 0 (mkTree b1 (rootPage t)) 1 b2 0%nat b3 1%nat b4 fr
                (mkFrame 1 true zeroPage))
      as (k & c0 & Hk & Hrun5); try done; [apply Hok|].
    rewrite Hrun5. clear Hrun5.
    cbn [b4 b3 rootPage bm sm pool pageTable lru nextPageID pageID].
    set (b5 := mkBuffer _ _ _ _ _ _).
    assert (Hc5 : coherent b5).
    { apply (coherent_set_data
               (mkBuffer (sm b2)
                  (<[0%nat := mkFrame (pageID fr) true (splitOld key (data fr))]> (pool b2))
                  (pageTable b2) [1%nat; 0%nat] (nextPageID b2) c0)
               1%nat (mkFrame 1 true zeroPage)).
      - by apply (coherent_set_data b4).
      - etrans; [exact (list_lookup_insert_ne (pool b2) 0 1 _ ltac:(done))|exact H14]. }
    assert (Hfail5 : failed (sm b5) = true) by (cbn; by rewrite Hsm2).
    destruct (allocatePage_room b5 Hc5 Hfail5) as (b6 & Hrun6 & Hsm6 & Hpool6
        & Hpt6 & Hlru6 & Hn6).
    { cbn. rewrite Hn2, Hpt2, lookup_insert_ne by done. by apply Hno. }
    { change (Z.to_nat BUFFER_CAPACITY) with 3%nat. cbn. lia. }
    cbn [b5 sm pool pageTable lru nextPageID length] in Hrun6, Hsm6,
      Hpool6, Hpt6, Hlru6, Hn6.
    rewrite Hn2 in Hrun6, Hpool6, Hpt6, Hn6.
    change (wrap (2 + 1)) with 3 in Hn6.
    assert (Hc6 : coherent b6).
    { destruct (allocatePage_coherent b5 Hc5) as (f6 & b6' & Hrun6' & Hc6' & _).
      cbn [b5 nextPageID] in Hrun6'. rewrite Hn2 in Hrun6'.
      change (allocatePage b5 = Ok 2 b6') in Hrun6'.
      rewrite Hrun6 in Hrun6'. by injection Hrun6' as ->. }
    assert (Hp26 : pageTable b6 !! 2 = Some 2%nat).
    { rewrite Hpt6. apply lookup_insert_eq. }
    pose proof (fetchPage_hit 2 2%nat b6 Hp26) as Hrun7. rewrite Hlru6 in Hrun7.
    change (touched 2 [2%nat; 1%nat; 0%nat]) with [2%nat; 1%nat; 0%nat] in Hrun7.
    set (b7 := mkBuffer _ _ _ _ _ _) in Hrun7.
    assert (Hc7 : coherent b7) by (by apply (coherent_ext b6)).
    destruct (coherent_frame b5 2 Hc5) as [fr2 Hfr2];
      [change (Z.to_nat BUFFER_CAPACITY) with 3%nat; lia|].
    assert (H27 : pool b7 !! 2%nat = Some (mkFrame 2 true zeroPage)).
    { cbn. rewrite Hpool6. by eapply lookup_set_pool. }
    destruct (insertIntoParent_root 0 k 1 (mkTree b5 (rootPage t)) 2 b6 2%nat b7
                (mkFrame 2 true zeroPage))
      as (c1 & Hrun8); try done.
    rewrite Hrun8. eexists. split; [reflexivity|].
    destruct (node_ok_split ks key (data fr) Hok Hleaf Hfull3) as [Hoko Hokn].
    pose proof (coherent_set_data b7 2%nat (mkFrame 2 true zeroPage) true
                  (newRootNode k 0 1) c1 Hc7 H27) as Hc'.
    assert (Hsep : merge_sort Z.le (take 4 (ks ++ [key])) !! 2%nat = Some k).
    { rewrite take_ge by (rewrite length_app; cbn; unfold MAX_KEYS in *; lia).
      rewrite <- (merge_sort_perm (leafKeys (data fr) ++ [key]))
        by (by rewrite Hperm).
      unfold splitNew, splitKeys in Hk. cbn [keys set_keys] in Hk.
      unfold leafKeys. rewrite Hfull3.
      destruct (splitKeys_facts key (data fr) (no_sized _ _ Hok))
        as (t0 & t1 & t2 & t3 & k0 & k1 & k2 & Hkeys & Htemp & _).
      unfold splitKeys in Htemp. rewrite Htemp in Hk |- *.
      cbn in Hk. by injection Hk as <-. }
    subst b7 b5.
    split; cbn [bm rootPage sm pool pageTable lru nextPageID pageID dirty] in *;
      try done.
    + by rewrite Hsm6, Hsm2.
    + by rewrite Hsm6, Hsm2.
    + intros q h. rewrite Hpt6, Hn6. destruct (decide (q = 2)) as [->|Hq2]; [lia|].
      rewrite lookup_insert_ne by done. rewrite Hpt2.
      destruct (decide (q = 1)) as [->|Hq1]; [lia|].
      rewrite lookup_insert_ne by done. intros Hq. apply Hres in Hq. lia.
    + intros h hr. destruct (decide (h = 2%nat)) as [->|Hh2].
      { erewrite lookup_set_pool by exact H27. intros [= <-]. apply node_ok_root. }
      rewrite list_lookup_insert_ne by done.
      rewrite Hpool6, list_lookup_insert_ne by done.
      destruct (decide (h = 1%nat)) as [->|Hh1].
      { erewrite lookup_set_pool
          by (rewrite list_lookup_insert_ne by done; exact H14).
        by intros [= <-]. }
      rewrite list_lookup_insert_ne by done.
      destruct (decide (h = 0%nat)) as [->|Hh0].
      { erewrite lookup_set_pool by exact H04. by intros [= <-]. }
      rewrite list_lookup_insert_ne by done.
      rewrite Hpool2, list_lookup_insert_ne by done. intros Hhr.
      by apply node_ok_mono, (Hnodes h).
    + right. rewrite Hlen', Hn6. split; [done|]. split; [lia|].
      split; [unfold MAX_KEYS in Hfull3; lia|]. split; [done|].
      exists 2%nat, (mkFrame 2 true (newRootNode k 0 1)), k.
      split; [done|]. split; [by eapply lookup_set_pool|]. split; [done|].
      split; [done|].
      intros h hr Hh2. rewrite list_lookup_insert_ne by done.
      rewrite Hpool6, list_lookup_insert_ne by done.
      destruct (decide (h = 1%nat)) as [->|Hh1].
      { erewrite lookup_set_pool
          by (rewrite list_lookup_insert_ne by done; exact H14).
        by intros [= <-]. }
      rewrite list_lookup_insert_ne by done.
      destruct (decide (h = 0%nat)) as [->|Hh0].
      { erewrite lookup_set_pool by exact H04. intros [= <-]. by cbn. }
      intros Hhr. apply lookup_lt_Some in Hhr.
      rewrite length_insert, Hpool2, length_insert, (coh_pool _ Hc) in Hhr.
      change (Z.to_nat BUFFER_CAPACITY) with 3%nat in Hhr. lia.
Qed.

(** ** The run of [main] *)

Lemma newBPlusTree_run :
  newBPlusTree (newBufferManager newStorageManager) = Ok tt newTree.
Proof. vm_compute. reflexivity. Qed.

Lemma newTree_inv : tree_inv [] newTree.
Proof.
  split; cbn [newTree bm rootPage sm pool pageTable lru nextPageID failed dbFile].
  - split; cbn [pool pageTable lru length]; try done.
    + change (Z.to_nat BUFFER_CAPACITY) with 3%nat. lia.
    + intros p f. split.
      * intros [[<- <-] | [_ H]]%lookup_insert_Some; [|by rewrite lookup_empty in H].
        split; [by apply list_elem_of_singleton|]. by eexists.
      * intros [->%list_elem_of_singleton (fr & Hfr & <-)].
        injection Hfr as <-. apply lookup_insert_eq.
  - done.
  - done.
  - intros p f [[<- <-] | [_ H]]%lookup_insert_Some; [lia|by rewrite lookup_empty in H].
  - intros f fr Hfr. destruct f as [|[|[|f]]]; try done; injection Hfr as <-.
    + split; try done; [by right|]. intros _. split; cbn; try done.
      constructor.
    + apply node_ok_zero.
    + apply node_ok_zero.
  - left. split; [done|]. split; [done|]. split; [by cbn|]. split; [done|].
    by eexists.
Qed.

Lemma insert_inv ks key fuel t :
  tree_inv ks t -> Z.of_nat (length ks) <= INT_MAX ->
  exists t', insert (S (S fuel)) key t = Ok tt t' /\ tree_inv (ks ++ [key]) t'.
Proof.
  intros Hinv Hbound. unfold insert. mstep. mstep.
  set (t0 := mkTree _ _).
  assert (Hinv0 : tree_inv ks t0) by (by apply (tree_inv_ext ks t)).
  change (rootPage t0) with (rootPage t).
  destruct (ti_phase _ _ Hinv) as [(Hroot & _)|(Hroot & _)]; rewrite Hroot.
  - destruct (findLeaf_A ks key (S fuel) t0 Hinv0 Hroot) as (t1 & Hrun1 & Hinv1 & Hr1).
    mstep_by exact Hrun1. by apply insertIntoLeaf_A.
  - destruct (findLeaf_B ks key fuel t0 Hinv0 Hroot)
      as (c & g & f & z & t1 & sep & Hrun1 & Hinv1 & Hr1 & _ & Hc & Hpg & Hpf & Hlru & _).
    mstep_by exact Hrun1.
    apply (insertIntoLeaf_B ks key c g f z); try done.
    rewrite Hc. by destruct (decide (sep <= key)).
Qed.

Lemma inserts_inv ks done fuel t :
  tree_inv done t -> Z.of_nat (length done + length ks) <= INT_MAX ->
  exists t', inserts (S (S fuel)) ks t = Ok tt t' /\ tree_inv (done ++ ks) t'.
Proof.
  revert done t. induction ks as [|k ks IH]; intros done t Hinv Hbound.
  - exists t. by rewrite app_nil_r.
  - destruct (insert_inv done k fuel t Hinv) as (t1 & Hrun1 & Hinv1);
      [cbn in Hbound; lia|].
    destruct (IH _ _ Hinv1) as (t' & Hrun' & Hinv').
    { rewrite length_app. cbn in *. lia. }
    exists t'. cbn [inserts]. mstep_by exact Hrun1.
    split; [done|]. by rewrite <- app_assoc in Hinv'.
Qed.

(** Every run of [main] that does not exhaust the page counter ends, in
    a state that satisfies the invariant. *)
Lemma main_inv ks fuel :
  Z.of_nat (length ks) <= INT_MAX ->
  exists t, main (S (S fuel)) ks = Ok tt t /\ tree_inv ks t.
Proof.
  intros Hbound.
  destruct (inserts_inv ks [] fuel newTree newTree_inv) as (t & Hrun & Hinv);
    [cbn; lia|].
  exists t. unfold main. by rewrite newBPlusTree_run.
Qed.

Lemma treeAfter_run ks :
  Z.of_nat (length ks) <= INT_MAX -> main 2 ks = Ok tt (treeAfter ks).
Proof.
  intros Hbound. unfold treeAfter.
  destruct (main_inv ks 0 Hbound) as (t & Hmain & _). by rewrite Hmain.
Qed.

Lemma treeAfter_inv ks :
  Z.of_nat (length ks) <= INT_MAX -> tree_inv ks (treeAfter ks).
Proof.
  intros Hbound. unfold treeAfter.
  destruct (main_inv ks 0 Hbound) as (t & Hmain & Hinv). by rewrite Hmain.
Qed.

(** ** Pages as the tree reads them *)

Lemma visit_ok p b f b' fr :
  fetchPage p b = Ok f b' -> pool b' !! f = Some fr ->
  visit p b = Some (data fr, b').
Proof. intros Hrun Hfr. unfold visit. by rewrite Hrun, Hfr. Qed.

Lemma visit_inv p b n b' :
  coherent b -> visit p b = Some (n, b') ->
  exists f fr,
    fetchPage p b = Ok f b' /\ fetched p b f b' /\
    pool b' !! f = Some fr /\ data fr = n.
Proof.
  intros Hc Hv. unfold visit in Hv.
  destruct (fetchPage_fetched p b Hc) as (f & b1 & Hrun & Hf & _).
  rewrite Hrun in Hv. destruct (pool b1 !! f) as [fr|] eqn:Hfr; [|done].
  cbn in Hv. injection Hv as <- <-. by exists f, fr.
Qed.

Lemma visit_total p b :
  coherent b ->
  exists f b' fr,
    fetchPage p b = Ok f b' /\ fetched p b f b' /\ pool b' !! f = Some fr /\
    pageID fr = p /\ visit p b = Some (data fr, b').
Proof.
  intros Hc.
  destruct (fetchPage_fetched p b Hc) as (f & b1 & Hrun & Hf & _).
  destruct (fetched_lookup _ _ _ _ Hc Hf) as (_ & _ & fr & Hfr & Hid).
  exists f, b1, fr. repeat (split; [done|]). by eapply visit_ok.
Qed.

(** On the failed stream, what the tree finds on a page is what some
    frame of the pool held before. *)
Lemma visit_frame p b n b' :
  coherent b -> failed (sm b) = true -> visit p b = Some (n, b') ->
  exists g gr, pool b !! g = Some gr /\ data gr = n.
Proof.
  intros Hc Hfail Hv.
  destruct (visit_inv _ _ _ _ Hc Hv) as (f & fr & _ & Hf & Hfr & <-).
  destruct (fetched_frozen _ _ _ _ Hfail Hf) as (_ & _ & Hdata).
  destruct (same_data_inv _ _ _ _ (Hdata f) Hfr) as (gr & Hgr & Hd).
  by exists f, gr.
Qed.

(** The root and its children, as the tree reads them once the first
    split has happened. *)
Lemma visit_root_B ks t :
  tree_inv ks t -> rootPage t = 2 ->
  exists f y x sep b1,
    visit 2 (bm t) = Some (newRootNode sep 0 1, b1) /\
    merge_sort Z.le (take 4 ks) !! 2%nat = Some sep /\
    coherent b1 /\ failed (sm b1) = true /\
    lru b1 = [f; y; x] /\ pageTable b1 !! 2 = Some f /\
    pool b1 = pool (bm t) /\ pageTable b1 = pageTable (bm t) /\
    forall g gr, g ≠ f -> pool b1 !! g = Some gr ->
                 isLeaf (data gr) = true /\ 2 <= numKeys (data gr).
Proof.
  intros [Hc Hfail Hfile Hres Hnodes Hph] Hroot.
  destruct Hph as [(Hr & _)
                  |(_ & Hlen & Hnext & Hl3 & f & fr & sep & Hpf & Hfr & Hdata
                    & Hsep & Hleaves)]; [congruence|].
  assert (Hin : f ∈ lru (bm t)) by (by apply (coh_table _ Hc) in Hpf as [? _]).
  destruct (touched_three f _ (coherent_nodup _ Hc) Hl3 Hin) as (y & x & Ht).
  pose proof (fetchPage_hit 2 f (bm t) Hpf) as Hrun1. rewrite Ht in Hrun1.
  set (b1 := mkBuffer _ _ _ _ _ _) in Hrun1.
  assert (Hc1 : coherent b1).
  { apply (fetched_coherent 2 (bm t) f); [done|]. by apply fetched_hit. }
  exists f, y, x, sep, b1. split.
  { rewrite <- Hdata. by apply (visit_ok 2 (bm t) f b1 fr). }
  done.
Qed.

Lemma visit_child_B b f y x c :
  coherent b -> failed (sm b) = true -> lru b = [f; y; x] ->
  pageTable b !! 2 = Some f -> c ≠ 2 ->
  (forall g gr, g ≠ f -> pool b !! g = Some gr -> isLeaf (data gr) = true) ->
  exists l b2, visit c b = Some (l, b2) /\ isLeaf l = true.
Proof.
  intros Hc Hfail Hlru Hpf Hc2 Hleaves.
  destruct (descend_child b f y x 2 c Hc Hfail Hlru Hpf Hc2)
    as (g & b2 & z & Hrun2 & Hgf & Hc2' & _ & _ & _ & Hpg2 & _ & _ & Hdata2 & _).
  destruct (coherent_resident_frame _ _ _ Hc2' Hpg2) as [gr Hgr].
  destruct (same_data_inv _ _ _ _ (Hdata2 g) Hgr) as (gr0 & Hgr0 & Hd0).
  exists (data gr), b2. split; [by eapply visit_ok|].
  rewrite <- Hd0. by eapply Hleaves.
Qed.

(** Only the root and its two children are reached. *)
Lemma reachable_B ks t q :
  tree_inv ks t -> rootPage t = 2 -> reachable t q -> q = 2 \/ q = 0 \/ q = 1.
Proof.
  intros Hinv Hroot Hreach.
  destruct (visit_root_B ks t Hinv Hroot)
    as (f & y & x & sep & b1 & Hv & _ & Hc1 & Hfail1 & Hlru1 & Hpf1 & _ & _ & Hleaves).
  unfold reachable in Hreach. rewrite Hroot in Hreach.
  inversion Hreach as [|b p n b' i c q' Hv' Hint Hi Hch Hrest]; subst; [by left|].
  rewrite Hv in Hv'. injection Hv' as <- <-. right.
  cbn in Hi, Hch.
  assert (c = 0 \/ c = 1) as Hc01.
  { destruct i as [|[|i]]; [left|right|lia]; cbn in Hch; congruence. }
  assert (Hc2 : c ≠ 2) by lia.
  destruct (visit_child_B b1 f y x c Hc1 Hfail1 Hlru1 Hpf1 Hc2) as (l & b2 & Hvc & Hleaf).
  { intros g gr Hg Hgr. by apply (Hleaves g gr). }
  inversion Hrest as [|b p n b' i' c' q' Hv' Hint' Hi' Hch' Hrest']; subst; [done|].
  rewrite Hvc in Hv'. injection Hv' as <- <-. congruence.
Qed.

(** While the root is a leaf, only the root is reached. *)
Lemma reachable_A ks t q :
  tree_inv ks t -> rootPage t = 0 -> reachable t q -> q = 0.
Proof.
  intros [Hc Hfail Hfile Hres Hnodes Hph] Hroot Hreach.
  destruct Hph as [(_ & Hn & Hle & Hlru & fr & Hfr & Hid & Hleaf & _)
                  |(Hr & _)]; [|congruence].
  unfold reachable in Hreach. rewrite Hroot in Hreach.
  inversion Hreach as [|b p n b' i c q' Hv' Hint Hi Hch Hrest]; subst; [done|].
  assert (Hp0 : pageTable (bm t) !! 0 = Some 0%nat).
  { rewrite <- Hid. apply coherent_frame_page; [done| |done].
    rewrite Hlru. by apply list_elem_of_singleton. }
  rewrite (visit_ok 0 (bm t) 0%nat _ fr (fetchPage_hit 0 0%nat (bm t) Hp0) Hfr) in Hv'.
  injection Hv' as <- _. congruence.
Qed.

(** ** Leaves in order, with no bound on the run *)

Lemma bind_inv {S A B} (c : M S A) (k : A -> M S B) s b s' :
  bind c k s = Ok b s' -> exists a s1, c s = Ok a s1 /\ k a s1 = Ok b s'.
Proof. unfold bind. destruct (c s) as [a s1| |]; [|done..]. by exists a, s1. Qed.

Lemma frame_sound_zero : frame_sound zeroPage.
Proof. split; [by split|]. intros H. discriminate H. Qed.

Lemma frame_sound_root key l r : frame_sound (newRootNode key l r).
Proof. split; [by split|]. intros H. discriminate H. Qed.

Lemma node_ok_sound ks n : node_ok ks n -> frame_sound n.
Proof.
  intros [H1 _ _ H4]. split; [done|]. intros Hl.
  destruct (H4 Hl) as [? ? _ _]. done.
Qed.

(** A full leaf in order is a leaf of a tree holding its own keys. *)
Lemma frame_sound_leaf n :
  frame_sound n -> isLeaf n = true -> leaf_ok (leafKeys n) n.
Proof. intros [_ H] Hl. destruct (H Hl). by split. Qed.

Lemma frame_sound_split key n :
  frame_sound n -> isLeaf n = true -> numKeys n = MAX_KEYS ->
  frame_sound (splitOld key n) /\ frame_sound (splitNew key n).
Proof.
  intros Hs Hl Hfull.
  destruct (leaf_ok_split (leafKeys n) key n (proj1 Hs) (frame_sound_leaf n Hs Hl) Hfull)
    as [[H1 H2 _ _] [H3 H4 _ _]].
  split; (split; [|done]).
  - apply wellSized_splitOld, Hs.
  - apply wellSized_splitNew, Hs.
Qed.

Lemma frame_sound_placed n arr :
  frame_sound n -> isLeaf n = true -> numKeys n < MAX_KEYS ->
  length arr = length (keys n) ->
  StronglySorted Z.le (take (S (Z.to_nat (numKeys n))) arr) ->
  frame_sound (set_numKeys (numKeys n + 1) (set_keys arr n)).
Proof.
  intros [[Hk Hch] Hs] Hl Hlt Hlen Hsort. destruct (Hs Hl) as [Hc _].
  split; [split; cbn; [congruence|done]|]. intros _. cbn [numKeys set_numKeys].
  split; [lia|]. unfold leafKeys. cbn [numKeys keys set_numKeys set_keys].
  by replace (Z.to_nat (numKeys n + 1)) with (S (Z.to_nat (numKeys n))) by lia.
Qed.

Lemma pool_sound_ext b b' :
  sm b' = sm b -> pool b' = pool b -> pageTable b' = pageTable b ->
  lru b' = lru b -> pool_sound b -> pool_sound b'.
Proof.
  intros Hsm Hpool Hpt Hlru [H1 H2 H3 H4]. split; rewrite ?Hsm, ?Hpool; try done.
  by apply (coherent_ext b).
Qed.

Lemma fetched_sound p b f b' :
  pool_sound b -> fetched p b f b' -> pool_sound b'.
Proof.
  intros [Hc Hfail Hfile Hfr] Hf.
  destruct (fetched_frozen _ _ _ _ Hfail Hf) as (Hsm & _ & Hdata).
  split; [by eapply fetched_coherent|by rewrite Hsm|by rewrite Hsm|].
  intros g gr Hgr.
  destruct (same_data_inv _ _ _ _ (Hdata g) Hgr) as (gr0 & Hgr0 & <-).
  by apply (Hfr g gr0).
Qed.

(** Rewriting the data of a frame with data in order. *)
Lemma write_sound b f fr d pg c :
  pool_sound b -> pool b !! f = Some fr -> frame_sound pg ->
  pool_sound (mkBuffer (sm b) (<[f := mkFrame (pageID fr) d pg]> (pool b))
                (pageTable b) (lru b) (nextPageID b) c).
Proof.
  intros [Hc Hfail Hfile Hfrs] Hfr Hpg.
  split; cbn; [by apply coherent_set_data|done|done|].
  intros g gr. destruct (decide (g = f)) as [->|Hg].
  - erewrite lookup_set_pool by done. by intros [= <-].
  - rewrite list_lookup_insert_ne by done. apply Hfrs.
Qed.

Lemma allocatePage_sound b :
  pool_sound b ->
  exists f b',
    allocatePage b = Ok (nextPageID b) b' /\ pool_sound b' /\
    pageTable b' !! nextPageID b = Some f /\
    pool b' !! f = Some (mkFrame (nextPageID b) true zeroPage) /\
    (forall q g,
       lru b !! 0%nat = Some g -> pageTable b !! q = Some g ->
       q ≠ nextPageID b ->
       pageTable b' !! q = Some g /\ pool b' !! g = pool b !! g /\ g ≠ f).
Proof.
  intros Hs. pose proof (ps_coh _ Hs) as Hc.
  destruct (allocatePage_run b Hc) as (f & b1 & b' & Hrun & Hf & How & Hn).
  pose proof (fetched_sound _ _ _ _ Hs Hf) as Hs1.
  destruct (fetched_lookup _ _ _ _ Hc Hf) as (Hpf & _ & fr & Hfr & Hid).
  pose proof (overwritten_pool _ _ _ _ _ How) as Hpool.
  exists f, b'. split; [done|]. split; [|split; [|split]].
  - destruct How as [_ _ _ Hsm Hpt Hlru _].
    apply (pool_sound_ext
             (mkBuffer (sm b1) (<[f := mkFrame (pageID fr) true zeroPage]> (pool b1))
                (pageTable b1) (lru b1) (nextPageID b1) [])); try done.
    + cbn. by rewrite Hpool, Hid.
    + apply write_sound; [done..|apply frame_sound_zero].
  - by rewrite (ow_pageTable _ _ _ _ _ How).
  - apply How.
  - intros q g Hhd Hq Hne.
    destruct (fetched_survives (nextPageID b) b f b1 q g 0 Hc Hf Hq Hhd)
      as (Hq1 & Hg1 & _); [change (Z.to_nat BUFFER_CAPACITY) with 3%nat; lia|].
    assert (Hgf : g ≠ f)
      by exact (coherent_two_frames b1 q (nextPageID b) g f (ps_coh _ Hs1) Hq1 Hpf Hne).
    split; [by rewrite (ow_pageTable _ _ _ _ _ How)|]. split; [|done].
    by rewrite (ow_others _ _ _ _ _ How) by done.
Qed.

(** The descent, when it returns, returns a page it has just fetched
    and found to be a leaf. *)
Lemma findLeaf_sound fuel p key t lp t' :
  pool_sound (bm t) -> findLeaf fuel p key t = Ok lp t' ->
  pool_sound (bm t') /\ rootPage t' = rootPage t /\
  exists f fr,
    pageTable (bm t') !! lp = Some f /\ lru (bm t') !! 0%nat = Some f /\
    pool (bm t') !! f = Some fr /\ isLeaf (data fr) = true.
Proof.
  revert p t. induction fuel as [|fuel IH]; intros p t Hs Hrun; [done|].
  destruct (fetchPage_fetched p (bm t) (ps_coh _ Hs)) as (f & b1 & Hrun1 & Hf & _).
  destruct (fetched_lookup _ _ _ _ (ps_coh _ Hs) Hf) as (Hpf & Hhd & fr & Hfr & _).
  pose proof (fetched_sound _ _ _ _ Hs Hf) as Hs1.
  rewrite (findLeaf_step fuel p key t f b1 fr Hrun1 Hfr) in Hrun.
  destruct (isLeaf (data fr)) eqn:Hleaf.
  - injection Hrun as <- <-. split; [done|]. split; [done|].
    exists f, fr. split; [done|]. split; [by apply head_lookup_0|done].
  - destruct (scanKeys key (keys (data fr)) 0 (Z.to_nat (numKeys (data fr))))
      as [i|]; [|done].
    destruct (children (data fr) !! i) as [child|]; [|done].
    destruct (IH child (mkTree b1 (rootPage t)) Hs1 Hrun) as (H1 & H2 & H3).
    done.
Qed.

Lemma hit_sound p f b :
  pool_sound b -> pageTable b !! p = Some f ->
  exists b',
    fetchPage p b = Ok f b' /\ pool_sound b' /\ pool b' = pool b /\
    pageTable b' = pageTable b /\ lru b' = touched f (lru b) /\
    nextPageID b' = nextPageID b.
Proof.
  intros Hs Hp. eexists. split; [by apply fetchPage_hit|].
  split; [|done].
  destruct (fetchPage_fetched p b (ps_coh _ Hs)) as (f' & b' & Hrun & Hf & _).
  rewrite (fetchPage_hit p f b Hp) in Hrun. injection Hrun as <- <-.
  by eapply fetched_sound.
Qed.

Lemma insertIntoParent_sound left key right t :
  pool_sound (bm t) ->
  exists t', insertIntoParent left key right t = Ok tt t' /\ pool_sound (bm t').
Proof.
  intros Hs. destruct (decide (left = rootPage t)) as [Hroot|Hne].
  - destruct (allocatePage_sound (bm t) Hs) as (f & b1 & Hrun1 & Hs1 & Hpf & Hfr & _).
    destruct (hit_sound _ _ _ Hs1 Hpf) as (b2 & Hrun2 & Hs2 & Hpool & _).
    rewrite <- Hpool in Hfr.
    destruct (insertIntoParent_root left key right t _ b1 f b2 _
                Hroot Hrun1 Hrun2 Hfr eq_refl) as [c Hrun].
    eexists. split; [exact Hrun|]. cbn [bm].
    apply write_sound; [done|done|apply frame_sound_root].
  - exists t. split; [by apply insertIntoParent_other|done].
Qed.

(** The split when the page counter, having wrapped, hands out the
    number of the leaf being split: both pointers are the one frame, which
    the allocation has zeroed. *)
Lemma splitLeaf_run_same key lp t b1 f b2 b3 fr :
  allocatePage (set_cout (TreeNodeFull :: cout (bm t)) (bm t)) = Ok lp b1 ->
  fetchPage lp b1 = Ok f b2 -> fetchPage lp b2 = Ok f b3 ->
  pageTable b3 !! lp = Some f -> pool b3 !! f = Some fr -> data fr = zeroPage ->
  exists k c pg,
    splitLeaf lp key t =
      insertIntoParent lp k lp
        (mkTree
           (mkBuffer (sm b3) (<[f := mkFrame (pageID fr) true pg]> (pool b3))
              (pageTable b3) (lru b3) (nextPageID b3) c)
           (rootPage t)) /\
    frame_sound pg.
Proof.
  intros Hrun1 Hrun2 Hrun3 Hp3 Hf3 Hzero.
  destruct fr as [idr dr pg]. cbn [data pageID] in *. subst pg.
  pose proof (merge_sort_Permutation Z.le [0; 0; 0; key]) as Hperm.
  pose proof (StronglySorted_merge_sort Z.le [0; 0; 0; key]) as Hsort.
  apply Permutation_length in Hperm.
  unfold splitLeaf.
  mstep.
  mstep_by (apply liftB_ok; exact Hrun1).
  mstep_by (apply liftB_ok; exact Hrun2).
  mstep_by (apply liftB_ok; exact Hrun3).
  mstep_by (apply liftB_ok, deref_ok; exact Hf3).
  norm. cbn [data keys length]. change (Z.to_nat MAX_KEYS) with 3%nat.
  rewrite decide_False by lia. cbn [take app].
  destruct (merge_sort Z.le [0; 0; 0; key]) as [|t0 [|t1 [|t2 [|t3 [|]]]]];
    try discriminate Hperm.
  clear Hperm. norm.
  change ((MAX_KEYS + 1) `div` 2) with 2.
  change (MAX_KEYS + 1 - 2) with 2.
  clear Hrun1 Hrun2 Hrun3.
  destruct b3 as [sm3 pool3 pt3 lru3 n3 cout3]. cbn in Hf3, Hp3.
  mstep_by (apply liftB_ok, setNode_ok; pool_lookup). norm.
  mstep_by (apply liftB_ok, setNode_ok; pool_lookup). norm.
  mstep_by (apply liftB_ok, setNode_ok; pool_lookup). norm.
  mstep_by (apply liftB_ok, deref_ok; pool_lookup). norm.
  change (Z.to_nat 2) with 2%nat.
  cbn [copyKeys Nat.add lookup list_lookup].
  mstep_by (rewrite liftB_bind;
            mstep_by (eapply liftB_ok, writeKey_ok;
                      [pool_lookup|by apply store_ok; cbn; lia]);
            rewrite liftB_bind;
            mstep_by (eapply liftB_ok, writeKey_ok;
                      [pool_lookup|by apply store_ok; cbn; lia]);
            reflexivity).
  norm.
  mstep_by (apply liftB_ok, deref_ok; pool_lookup). norm.
  change (Z.to_nat 2) with 2%nat.
  cbn [copyKeys Nat.add lookup list_lookup].
  mstep_by (rewrite liftB_bind;
            mstep_by (eapply liftB_ok, writeKey_ok;
                      [pool_lookup|by apply store_ok; cbn; lia]);
            rewrite liftB_bind;
            mstep_by (eapply liftB_ok, writeKey_ok;
                      [pool_lookup|by apply store_ok; cbn; lia]);
            reflexivity).
  norm.
  mstep_by (eapply liftB_ok, markDirty_ok; [exact Hp3|pool_lookup]). norm.
  mstep_by (eapply liftB_ok, markDirty_ok; [exact Hp3|pool_lookup]). norm.
  mstep. norm.
  mstep_by (apply liftB_ok, deref_ok; pool_lookup). norm.
  cbn [list_insert lookup list_lookup take drop app].
  rewrite !list_insert_insert_eq.
  exists t2. eexists. eexists. split; [reflexivity|].
  split; [by split|]. intros _. cbn [numKeys]. split; [unfold MAX_KEYS; lia|].
  unfold leafKeys. cbn [numKeys keys]. change (Z.to_nat 2) with 2%nat.
  cbn [take].
  apply StronglySorted_cons in Hsort as [_ Hsort].
  apply StronglySorted_cons in Hsort as [_ Hsort].
  apply StronglySorted_cons in Hsort as [H23 _].
  apply Forall_cons in H23 as [H23 _].
  repeat constructor. done.
Qed.

Lemma splitLeaf_sound key lp t g fr :
  pool_sound (bm t) -> pageTable (bm t) !! lp = Some g ->
  lru (bm t) !! 0%nat = Some g -> pool (bm t) !! g = Some fr ->
  isLeaf (data fr) = true -> numKeys (data fr) = MAX_KEYS ->
  exists t', splitLeaf lp key t = Ok tt t' /\ pool_sound (bm t').
Proof.
  intros Hs Hpg Hhd Hfr Hleaf Hfull.
  set (b0 := set_cout (TreeNodeFull :: cout (bm t)) (bm t)).
  assert (Hs0 : pool_sound b0) by (by apply (pool_sound_ext (bm t))).
  destruct (allocatePage_sound b0 Hs0)
    as (f & b1 & Hrun1 & Hs1 & Hpf1 & Hfr1 & Hkeep).
  change (nextPageID b0) with (nextPageID (bm t)) in *.
  destruct (decide (lp = nextPageID (bm t))) as [Heq|Hne].
  - rewrite <- Heq in *.
    destruct (hit_sound _ _ _ Hs1 Hpf1) as (b2 & Hrun2 & Hs2 & Hpool2 & Hpt2 & _).
    assert (Hpf2 : pageTable b2 !! lp = Some f) by (by rewrite Hpt2).
    destruct (hit_sound _ _ _ Hs2 Hpf2) as (b3 & Hrun3 & Hs3 & Hpool3 & Hpt3 & _).
    assert (Hpf3 : pageTable b3 !! lp = Some f) by (by rewrite Hpt3).
    assert (Hfr3 : pool b3 !! f = Some (mkFrame lp true zeroPage))
      by (by rewrite Hpool3, Hpool2).
    destruct (splitLeaf_run_same key lp t b1 f b2 b3 _
                Hrun1 Hrun2 Hrun3 Hpf3 Hfr3 eq_refl) as (k & c & pg & Hrun & Hpg').
    rewrite Hrun. apply insertIntoParent_sound. cbn [bm].
    by apply write_sound.
  - destruct (Hkeep lp g Hhd Hpg Hne) as (Hpg1 & Hg1 & Hgf).
    change (pool b0) with (pool (bm t)) in Hg1. rewrite Hfr in Hg1.
    destruct (hit_sound _ _ _ Hs1 Hpg1) as (b2 & Hrun2 & Hs2 & Hpool2 & Hpt2 & _).
    assert (Hpf2 : pageTable b2 !! nextPageID (bm t) = Some f) by (by rewrite Hpt2).
    destruct (hit_sound _ _ _ Hs2 Hpf2) as (b3 & Hrun3 & Hs3 & Hpool3 & Hpt3 & _).
    assert (Hpf3 : pageTable b3 !! nextPageID (bm t) = Some f) by (by rewrite Hpt3).
    assert (Hpg3 : pageTable b3 !! lp = Some g) by (by rewrite Hpt3, Hpt2).
    assert (Hfr3 : pool b3 !! f = Some (mkFrame (nextPageID (bm t)) true zeroPage))
      by (by rewrite Hpool3, Hpool2).
    assert (Hg3 : pool b3 !! g = Some fr) by (by rewrite Hpool3, Hpool2).
    destruct (frame_sound_split key (data fr) (ps_frames _ Hs g fr Hfr) Hleaf Hfull)
      as [Hold Hnew].
    destruct (splitLeaf_run key lp t _ b1 g b2 f b3 fr _
                Hrun1 Hrun2 Hrun3 Hpg3 Hpf3 Hg3 Hfr3 Hgf
                (proj1 (ps_frames _ Hs g fr Hfr)) eq_refl) as (k & c & _ & Hrun).
    rewrite Hrun. apply insertIntoParent_sound. cbn [bm].
    pose proof (write_sound b3 g fr true _ c Hs3 Hg3 Hold) as Hs4.
    eapply pool_sound_ext; [..|eapply (write_sound _ f _ true _ c Hs4); [|exact Hnew]];
      [reflexivity..|].
    cbn [pool]. rewrite list_lookup_insert_ne by done. exact Hfr3.
Qed.

Lemma insertIntoLeaf_sound key lp t g fr :
  pool_sound (bm t) -> pageTable (bm t) !! lp = Some g ->
  lru (bm t) !! 0%nat = Some g -> pool (bm t) !! g = Some fr ->
  isLeaf (data fr) = true ->
  exists t', insertIntoLeaf lp key t = Ok tt t' /\ pool_sound (bm t').
Proof.
  intros Hs Hpg Hhd Hfr Hleaf.
  destruct (hit_sound _ _ _ Hs Hpg) as (b1 & Hrun1 & Hs1 & Hpool1 & Hpt1 & Hlru1 & _).
  assert (Hpg1 : pageTable b1 !! lp = Some g) by (by rewrite Hpt1).
  assert (Hfr1 : pool b1 !! g = Some fr) by (by rewrite Hpool1).
  pose proof (ps_frames _ Hs g fr Hfr) as Hfs.
  destruct Hfs as [Hws Hl]. destruct (Hl Hleaf) as [Hcount Hsorted].
  destruct (decide (numKeys (data fr) < MAX_KEYS)) as [Hroom|Hfull].
  - destruct (insertIntoLeaf_room key lp t g b1 fr Hrun1 Hpg1 Hfr1)
      as (arr & c & Hrun & Hlen & Hsort & _); [lia|done|done|].
    eexists. split; [exact Hrun|]. cbn [bm].
    apply write_sound; [done|done|].
    by apply frame_sound_placed.
  - rewrite (insertIntoLeaf_full key lp t g b1 fr Hrun1 Hfr1) by lia.
    apply (splitLeaf_sound key lp _ g fr); cbn [bm]; try done; [|lia].
    rewrite Hlru1. done.
Qed.

(** An insert that returns leaves every frame in order. *)
Lemma insert_sound fuel key t t' :
  pool_sound (bm t) -> insert fuel key t = Ok tt t' -> pool_sound (bm t').
Proof.
  intros Hs Hrun. unfold insert in Hrun.
  erewrite bind_ok in Hrun by reflexivity.
  erewrite bind_ok in Hrun by reflexivity.
  set (t0 := mkTree _ _) in Hrun.
  assert (Hs0 : pool_sound (bm t0)) by (by apply (pool_sound_ext (bm t))).
  apply bind_inv in Hrun as (lp & t1 & Hfind & Hrun).
  destruct (findLeaf_sound _ _ _ _ _ _ Hs0 Hfind)
    as (Hs1 & _ & f & fr & Hpf & Hhd & Hfr & Hleaf).
  destruct (insertIntoLeaf_sound key lp t1 f fr Hs1 Hpf Hhd Hfr Hleaf)
    as (t2 & Hrun2 & Hs2).
  congruence.
Qed.

Lemma inserts_sound fuel ks t t' :
  pool_sound (bm t) -> inserts fuel ks t = Ok tt t' -> pool_sound (bm t').
Proof.
  revert t. induction ks as [|k ks IH]; intros t Hs Hrun.
  - cbn in Hrun. injection Hrun as <-. done.
  - cbn [inserts] in Hrun. apply bind_inv in Hrun as (u & t1 & Hrun1 & Hrun).
    destruct u. eapply IH; [|exact Hrun]. by eapply insert_sound.
Qed.

Lemma tree_inv_sound ks t : tree_inv ks t -> pool_sound (bm t).
Proof.
  intros Hinv. split; [apply Hinv..|].
  intros f fr Hfr. eapply node_ok_sound, (ti_nodes _ _ Hinv), Hfr.
Qed.

(** Every run of [main] that returns leaves every frame in order. *)
Lemma main_sound fuel ks t : main fuel ks = Ok tt t -> pool_sound (bm t).
Proof.
  unfold main. rewrite newBPlusTree_run.
  apply inserts_sound, (tree_inv_sound []), newTree_inv.
Qed.

(** A leaf, in the pool or as a fetch returns it, is a leaf in order. *)
Lemma content_sound b p pg :
  pool_sound b -> content b p = Some pg -> frame_sound pg.
Proof.
  intros Hs Hpg. unfold content in Hpg.
  destruct (pageTable b !! p) as [f|].
  - destruct (pool b !! f) as [fr|] eqn:Hfr; [|done].
    injection Hpg as <-. by apply (ps_frames _ Hs f fr).
  - by rewrite (ps_file _ Hs), lookup_empty in Hpg.
Qed.

Lemma visit_sound p b :
  pool_sound b ->
  exists pg b', visit p b = Some (pg, b') /\ frame_sound pg /\ pool_sound b'.
Proof.
  intros Hs.
  destruct (visit_total p b (ps_coh _ Hs)) as (f & b' & fr & _ & Hf & Hfr & _ & Hv).
  pose proof (fetched_sound _ _ _ _ Hs Hf) as Hs'.
  exists (data fr), b'. split; [done|]. split; [|done].
  by apply (ps_frames _ Hs' f fr).
Qed.

(** * The claims *)

(** ** The buffer manager *)

(** C5. Cache coherence: after any sequence of [fetchPage],
    [allocatePage] and [markDirty] calls on a new buffer manager, that is
    between two calls, the page table holds exactly the pages resident in
    occupied frames, a page sits in one frame only, table and recency list
    never exceed [BUFFER_CAPACITY] entries, and the recency list is in
    one-to-one correspondence with the page table.  When the page numbers
    fetched and allocated are non-negative, the occupied frames are those
    whose [pageID] is not the marker [-1]. *)
Theorem cache_coherence_always s cs :
  exists pids b,
    calls cs (newBufferManager s) = Ok pids b /\
    cache_coherence b /\
    ((forall p, CallFetchPage p ∈ cs -> 0 <= p) ->
     (forall p, p ∈ pids -> 0 <= p) ->
     forall f fr, pool b !! f = Some fr -> pageID fr = -1 <-> ~ occupied b f).
Proof.
  destruct (calls_coherent cs _ (newBufferManager_coherent s))
    as (pids & b & Hrun & Hc & _).
  exists pids, b. split; [done|]. split; [by apply coherent_coherence|].
  intros Hcs Hpids f fr Hfr.
  apply bm_inv_marker; [|done].
  exact (calls_inv cs _ pids b Hrun Hcs Hpids (newBufferManager_inv s)).
Qed.

(** C9 as the specification states it fails: the page counter is an
    [int], and the allocation that follows page [INT_MAX] returns
    [INT_MIN]: the numbers returned are not increasing. *)
Lemma allocatePage_wraps :
  coherent lastPageManager /\
  exists b',
    calls [CallAllocatePage; CallAllocatePage] lastPageManager
      = Ok [INT_MAX; INT_MIN] b' /\
    ~ StronglySorted Z.lt [INT_MAX; INT_MIN].
Proof.
  split; [by apply (coherent_ext (newBufferManager newStorageManager)),
            newBufferManager_coherent|].
  eexists. split; [vm_compute; reflexivity|].
  intros H. apply StronglySorted_cons in H as [H _].
  apply Forall_cons in H as [H _]. unfold INT_MIN, INT_MAX in H. lia.
Qed.

(** C9 (as amended). [allocatePage] returns the next page number and
    leaves the page resident, zero-filled and dirty; the counter goes on
    to the next [int].  Over any sequence of calls that does not take
    the counter past [INT_MAX], the numbers returned are consecutive, hence
    strictly increasing and never reused. *)
Theorem allocatePage_next b :
  coherent b ->
  (exists f b',
     allocatePage b = Ok (nextPageID b) b' /\
     nextPageID b' = wrap (nextPageID b + 1) /\
     pageTable b' !! nextPageID b = Some f /\
     pool b' !! f = Some (mkFrame (nextPageID b) true zeroPage) /\
     coherent b') /\
  (forall cs, exists pids b',
     calls cs b = Ok pids b' /\
     pids = counted (nextPageID b) (length pids) /\
     (INT_MIN <= nextPageID b ->
      nextPageID b + Z.of_nat (length pids) <= INT_MAX + 1 ->
      pids = seqZ (nextPageID b) (Z.of_nat (length pids)) /\
      StronglySorted Z.lt pids /\ NoDup pids)).
Proof.
  intros Hc. split.
  - destruct (allocatePage_coherent b Hc) as (f & b' & Hrun & Hc' & Hn & Hp & Hf).
    by exists f, b'.
  - intros cs. destruct (calls_coherent cs b Hc) as (pids & b' & Hrun & _ & Hp).
    exists pids, b'. split; [done|]. split; [done|]. intros Hlo Hhi.
    rewrite counted_seqZ in Hp by done. split; [done|].
    rewrite Hp. split; [apply seqZ_increasing|apply NoDup_seqZ].
Qed.

(** C6 fails on the code: the write of a dirty victim never reaches the
    file.  In the tree of [main], page 0 is the least recently used page
    and is dirty; [evict] picks its frame and calls [writeDisk], which
    prints its line, but the stream has been in its failed state since the
    first read, nothing is transferred, and page 0, out of the pool, is
    not in the file either. *)
Theorem evict_write_dropped :
  exists fr b',
    lru (bm demoTree) = [1; 2; 0]%nat /\
    pool (bm demoTree) !! 0%nat = Some fr /\
    pageID fr = 0 /\ dirty fr = true /\ leafKeys (data fr) = [10; 20] /\
    failed (sm (bm demoTree)) = true /\
    evict (bm demoTree) = Ok 0%nat b' /\
    cout b' = DiskWriting 0 :: EvictKicking 0 :: cout (bm demoTree) /\
    pageTable b' !! 0 = None /\
    dbFile (sm b') = ∅ /\ content b' 0 = None.
Proof.
  eexists _, _. split; [by vm_compute|]. split; [vm_compute; reflexivity|].
  split; [reflexivity|]. split; [reflexivity|]. split; [reflexivity|].
  split; [by vm_compute|]. split; [vm_compute; reflexivity|].
  split; [by vm_compute|]. split; [by vm_compute|]. split; by vm_compute.
Qed.

(** ** The tree *)

(** C1. [insertIntoParent(left, key, right)] with [left] other than the
    root does nothing: the tree, its root and every page are as they were.
    In the trees [main] builds, the pages from 3 on, which are the new
    siblings of the splits below the root, are allocated and no descent
    from the root reaches them. *)
Theorem insertIntoParent_below_root t left key right :
  left ≠ rootPage t ->
  insertIntoParent left key right t = Ok tt t /\
  (forall fuel ks,
     Z.of_nat (length ks) <= INT_MAX ->
     main (S (S fuel)) ks = Ok tt t ->
     3 <= right < nextPageID (bm t) ->
     ~ reachable t right).
Proof.
  intros Hne. split; [by apply insertIntoParent_other|].
  intros fuel ks Hbound Hmain Hright Hreach.
  destruct (main_inv ks fuel Hbound) as (t' & Hmain' & Hinv).
  rewrite Hmain in Hmain'. injection Hmain' as <-.
  destruct (ti_phase _ _ Hinv) as [(_ & Hn & _)|(Hroot & _)]; [lia|].
  destruct (reachable_B ks t right Hinv Hroot Hreach); lia.
Qed.


(** C7. [findLeaf(page, key)] returns a leaf page itself; on an internal
    page it goes on into [children[i]], [i] being the first index with
    [key < keys[i]], or [numKeys] when there is none, so that a key equal to
    a stored key goes to the right of it.  The node is the one [fetchPage]
    returns for the page: the frame of the page when the page is in the
    pool. *)
Theorem findLeaf_descent fuel page key t :
  coherent (bm t) ->
  exists n b',
    visit page (bm t) = Some (n, b') /\
    (forall f, pageTable (bm t) !! page = Some f ->
               content (bm t) page = Some n) /\
    (wellSized n -> 0 <= numKeys n <= MAX_KEYS ->
     descent_post fuel page key n b' t).
Proof.
  intros Hc.
  destruct (visit_total page (bm t) Hc) as (f & b' & fr & Hrun & Hf & Hfr & _ & Hv).
  exists (data fr), b'. split; [done|]. split.
  { intros g Hg. unfold content. rewrite Hg.
    destruct (fetchPage_resident page g (bm t) Hg)
      as (b2 & Hrun2 & _ & Hpool & _).
    rewrite Hrun in Hrun2. injection Hrun2 as -> ->.
    by rewrite <- Hpool, Hfr. }
  intros [Hk Hch] Hn.
  pose proof (findLeaf_step fuel page key t f b' fr Hrun Hfr) as Hstep.
  split.
  - intros Hleaf. by rewrite Hleaf in Hstep.
  - intros Hint. rewrite Hint in Hstep.
    destruct (scanKeys_spec key (keys (data fr)) (Z.to_nat (numKeys (data fr))) 0)
      as (i & Hscan & Hi & Hbelow & Hat); [rewrite Hk; unfold MAX_KEYS in *; lia|].
    rewrite Hscan in Hstep.
    destruct (lookup_lt_is_Some_2 (children (data fr)) i) as [child Hchild].
    { rewrite Hch. unfold MAX_KEYS in *. lia. }
    rewrite Hchild in Hstep.
    exists i, child. split; [lia|]. split; [|split; [|split; [done|split; [done|]]]].
    + intros j k Hj Hjk. specialize (Hbelow j k ltac:(lia) Hjk). lia.
    + intros Hlt. apply Hat. lia.
    + intros Hsorted j Hj Hjk.
      destruct (decide (j < i)%nat) as [|Hge]; [done|exfalso].
      destruct Hat as (k & Hik & Hlt); [lia|].
      destruct (decide (i = j)) as [->|Hne]; [rewrite Hjk in Hik; injection Hik; lia|].
      assert (k <= key); [|lia].
      eapply (sorted_lookup_le (leafKeys (data fr)) i j); [done|lia| |];
        unfold leafKeys; rewrite lookup_take_lt by lia; done.
Qed.

(** C4 as the specification states it fails: a key inserted twice sits
    twice in its leaf, which is then not in strictly ascending order. *)
Lemma leaf_order_strict_counterexample :
  exists t pg,
    main 2 [10; 10] = Ok tt t /\
    content (bm t) 0 = Some pg /\ isLeaf pg = true /\
    leafKeys pg = [10; 10] /\ ~ StronglySorted Z.lt (leafKeys pg).
Proof.
  eexists _, _. split; [vm_compute; reflexivity|].
  split; [vm_compute; reflexivity|]. split; [reflexivity|].
  split; [reflexivity|]. cbn. intros H.
  apply StronglySorted_cons in H as [H _].
  apply Forall_cons in H as [H _]. lia.
Qed.

(** C4 (as amended). After any sequence of inserts into a new tree, the
    keys of every leaf are in ascending order, duplicates allowed, and no
    leaf holds more than [MAX_KEYS] keys: this for every run of [main]
    that returns, however long.  A sequence the [int] page counter can
    number does return, and when its keys are pairwise distinct the order
    is strict.  A leaf is any page the tree finds to be one: a page of
    the pool, or a page fetched from anywhere. *)
Theorem leaf_order_invariant fuel ks :
  (forall t,
     main fuel ks = Ok tt t ->
     (forall p pg,
        content (bm t) p = Some pg -> isLeaf pg = true ->
        StronglySorted Z.le (leafKeys pg) /\ 0 <= numKeys pg <= MAX_KEYS) /\
     (forall p, exists pg b',
        visit p (bm t) = Some (pg, b') /\
        (isLeaf pg = true ->
         StronglySorted Z.le (leafKeys pg) /\ 0 <= numKeys pg <= MAX_KEYS))) /\
  (Z.of_nat (length ks) <= INT_MAX ->
   exists t,
     main (S (S fuel)) ks = Ok tt t /\
     (forall p pg,
        content (bm t) p = Some pg -> isLeaf pg = true ->
        StronglySorted Z.le (leafKeys pg) /\
        0 <= numKeys pg <= MAX_KEYS /\
        (NoDup ks -> StronglySorted Z.lt (leafKeys pg))) /\
     (forall p, exists pg b',
        visit p (bm t) = Some (pg, b') /\
        (isLeaf pg = true ->
         StronglySorted Z.le (leafKeys pg) /\
         0 <= numKeys pg <= MAX_KEYS /\
         (NoDup ks -> StronglySorted Z.lt (leafKeys pg))))).
Proof.
  split.
  { intros t Hmain. pose proof (main_sound _ _ _ Hmain) as Hs. split.
    - intros p pg Hpg Hl.
      destruct (content_sound _ _ _ Hs Hpg) as [_ H]. destruct (H Hl). done.
    - intros p. destruct (visit_sound p (bm t) Hs) as (pg & b' & Hv & [_ H] & _).
      exists pg, b'. split; [done|]. intros Hl. destruct (H Hl). done. }
  intros Hbound. destruct (main_inv ks fuel Hbound) as (t & Hmain & Hinv).
  exists t. split; [done|].
  assert (Hleaf : forall g gr,
    pool (bm t) !! g = Some gr -> isLeaf (data gr) = true ->
    StronglySorted Z.le (leafKeys (data gr)) /\
    0 <= numKeys (data gr) <= MAX_KEYS /\
    (NoDup ks -> StronglySorted Z.lt (leafKeys (data gr)))).
  { intros g gr Hgr Hl.
    destruct (no_leaf _ _ (ti_nodes _ _ Hinv g gr Hgr) Hl) as [H1 H2 H3 H4].
    split; [done|]. split; [done|]. intros Hnd.
    apply sorted_nodup_strict; auto. }
  split.
  - intros p pg Hpg Hl. unfold content in Hpg.
    destruct (pageTable (bm t) !! p) as [f|] eqn:Hp.
    + destruct (pool (bm t) !! f) as [fr|] eqn:Hfr; [|done].
      injection Hpg as <-. by apply (Hleaf f fr).
    + by rewrite (ti_file _ _ Hinv), lookup_empty in Hpg.
  - intros p.
    destruct (visit_total p (bm t) (ti_coh _ _ Hinv))
      as (f & b' & fr & _ & _ & _ & _ & Hv).
    exists (data fr), b'. split; [done|]. intros Hl.
    destruct (visit_frame _ _ _ _ (ti_coh _ _ Hinv) (ti_failed _ _ Hinv) Hv)
      as (g & gr & Hgr & Hd).
    rewrite <- Hd in Hl |- *. by apply (Hleaf g gr).
Qed.

(** C8. The tree has one of two shapes: while at most [MAX_KEYS] keys
    have been inserted the root is a leaf; afterwards, that is from the
    first split on, the root is an internal node with one key over two
    leaves; and a descent from the root always ends on a leaf within two
    fetches.  The sequence is one the [int] page counter can number. *)
Theorem tree_shapes fuel ks :
  Z.of_nat (length ks) <= INT_MAX ->
  exists t,
    main (S (S fuel)) ks = Ok tt t /\
    (single_leaf t <-> Z.of_nat (length ks) <= MAX_KEYS) /\
    (one_internal_level t <-> MAX_KEYS < Z.of_nat (length ks)) /\
    (forall q, reachable t q -> q = rootPage t \/ q = 0 \/ q = 1) /\
    (forall key, exists leaf t', findLeaf 2 (rootPage t) key t = Ok leaf t').
Proof.
  intros Hbound. destruct (main_inv ks fuel Hbound) as (t & Hmain & Hinv).
  exists t. split; [done|].
  assert (Hshape :
    (Z.of_nat (length ks) <= MAX_KEYS /\ single_leaf t /\ ~ one_internal_level t) \/
    (MAX_KEYS < Z.of_nat (length ks) /\ one_internal_level t /\ ~ single_leaf t)).
  { pose proof Hinv as [Hc Hfail Hfile Hres Hnodes Hph].
    destruct Hph as [(Hroot & Hn & Hle & Hlru & fr & Hfr & Hid & Hleaf & _)
                    |(Hroot & Hlt & _)].
    - left. split; [done|].
      assert (Hp0 : pageTable (bm t) !! 0 = Some 0%nat).
      { rewrite <- Hid. apply coherent_frame_page; [done| |done].
        rewrite Hlru. by apply list_elem_of_singleton. }
      assert (Hv : visit (rootPage t) (bm t)
                   = Some (data fr, mkBuffer (sm (bm t)) (pool (bm t))
                                      (pageTable (bm t)) (touched 0 (lru (bm t)))
                                      (nextPageID (bm t))
                                      (BufferHit 0 :: cout (bm t)))).
      { rewrite Hroot. eapply visit_ok; [by apply fetchPage_hit|done]. }
      split.
      + by eexists _, _.
      + intros (r & b1 & c0 & c1 & Hv' & Hint & _). rewrite Hv in Hv'.
        injection Hv' as <- _. congruence.
    - right. split; [done|].
      destruct (visit_root_B ks t Hinv Hroot)
        as (f & y & x & sep & b1 & Hv & _ & Hc1 & Hfail1 & Hlru1 & Hpf1 & Hpool1
            & Hpt1 & Hleaves).
      split.
      + exists (newRootNode sep 0 1), b1, 0, 1. rewrite Hroot.
        repeat (split; [done|]). intros c Hc01. split.
        * apply (visit_child_B b1 f y x c); try done; [lia|].
          intros g gr Hg Hgr. by apply (Hleaves g gr).
        * intros l Hl. unfold content in Hl.
          destruct (pageTable (bm t) !! c) as [g|] eqn:Hg.
          -- destruct (pool (bm t) !! g) as [gr|] eqn:Hgr; [|done].
             injection Hl as <-. rewrite <- Hpool1 in Hgr.
             apply (Hleaves g gr); [|done].
             rewrite <- Hpt1 in Hg.
             refine (coherent_two_frames b1 c 2 g f Hc1 Hg Hpf1 _). lia.
          -- by rewrite Hfile, lookup_empty in Hl.
      + intros (n & b' & Hv' & Hl). rewrite Hroot, Hv in Hv'.
        by injection Hv' as <- _. }
  split; [|split; [|split]].
  - destruct Hshape as [(H1 & H2 & H3)|(H1 & H2 & H3)]; split; try done; lia.
  - destruct Hshape as [(H1 & H2 & H3)|(H1 & H2 & H3)]; split; try done; lia.
  - intros q Hq.
    destruct (ti_phase _ _ Hinv) as [(Hroot & _)|(Hroot & _)].
    + right. left. exact (reachable_A ks t q Hinv Hroot Hq).
    + rewrite Hroot. exact (reachable_B ks t q Hinv Hroot Hq).
  - intros key.
    destruct (ti_phase _ _ Hinv) as [(Hroot & _)|(Hroot & _)]; rewrite Hroot.
    + destruct (findLeaf_A ks key 1 t Hinv Hroot) as (t' & Hrun & _). eauto.
    + destruct (findLeaf_B ks key 0 t Hinv Hroot)
        as (c & g & f & z & t' & sep & Hrun & _). eauto.
Qed.

(** C10 fails on the code: a page does not keep the link fields it was
    given.  The sibling page 1, created by the first split with
    [parentPage] 0, is evicted by a later split, its write is dropped, and
    when it is fetched again it takes over a frame with the bytes of
    page 0: from then on page 1 carries the [parentPage] -1 of the
    constructor.  In the same way page 0 ends up with the [parentPage] 0
    of a sibling. *)
Theorem sibling_link_not_kept :
  exists t1 n1 n2 n0 t3 n3,
    main 2 [9; 24; 34; 37] = Ok tt t1 /\
    content (bm t1) 1 = Some n1 /\ isLeaf n1 = true /\ parentPage n1 = 0 /\
    main 2 [9; 24; 34; 37; 23; 14; 36] = Ok tt relabelledTree /\
    content (bm relabelledTree) 1 = Some n2 /\ isLeaf n2 = true /\
    parentPage n2 = -1 /\
    content (bm demoTree) 0 = Some n0 /\ parentPage n0 = -1 /\
    main 2 [10; 20; 30; 40; 50; 60; 5] = Ok tt t3 /\
    content (bm t3) 0 = Some n3 /\ isLeaf n3 = true /\ parentPage n3 = 0.
Proof.
  eexists _, _, _, _, _, _. split; [vm_compute; reflexivity|].
  split; [vm_compute; reflexivity|]. split; [reflexivity|]. split; [reflexivity|].
  split; [vm_compute; reflexivity|].
  split; [vm_compute; reflexivity|]. split; [reflexivity|]. split; [reflexivity|].
  split; [vm_compute; reflexivity|]. split; [reflexivity|].
  split; [vm_compute; reflexivity|].
  split; [vm_compute; reflexivity|]. split; reflexivity.
Qed.

(** C2. The run of [main]: after the inserts 10, 20, 30, 40, 50 into a
    new tree, leaf page 0 holds [10, 20], leaf page 1 holds [30, 40, 50],
    the root is the internal page 2 with the key 30 and the children 0
    and 1, the pages allocated are 0, 1 and 2, and nothing was evicted. *)
Theorem demo_scenario :
  exists t p0 p1 p2,
    main 2 [10; 20; 30; 40; 50] = Ok tt t /\
    rootPage t = 2 /\
    content (bm t) 0 = Some p0 /\ isLeaf p0 = true /\ leafKeys p0 = [10; 20] /\
    content (bm t) 1 = Some p1 /\ isLeaf p1 = true /\ leafKeys p1 = [30; 40; 50] /\
    content (bm t) 2 = Some p2 /\ isLeaf p2 = false /\ leafKeys p2 = [30] /\
    take (S (Z.to_nat (numKeys p2))) (children p2) = [0; 1] /\
    nextPageID (bm t) = 3 /\
    allocations (cout (bm t)) = [0; 1; 2] /\
    evictions (cout (bm t)) = 0%nat.
Proof.
  eexists _, _, _, _. split; [vm_compute; reflexivity|].
  split; [reflexivity|].
  split; [vm_compute; reflexivity|]. split; [reflexivity|]. split; [reflexivity|].
  split; [vm_compute; reflexivity|]. split; [reflexivity|]. split; [reflexivity|].
  split; [vm_compute; reflexivity|]. split; [reflexivity|]. split; [reflexivity|].
  split; [reflexivity|]. split; [reflexivity|]. split; reflexivity.
Qed.

(** ** The theorems at work on the trees of [main] *)

Lemma small_bound (ks : list Z) :
  (length ks <= 100)%nat -> Z.of_nat (length ks) <= INT_MAX.
Proof. unfold INT_MAX. lia. Qed.

Lemma demoTree_coherent : coherent (bm demoTree).
Proof. apply ti_coh with (ks := [10; 20; 30; 40; 50]), treeAfter_inv, small_bound. cbn. lia. Qed.

Lemma insertIntoParent_below_root_witness :
  1 ≠ rootPage gapTree /\
  (insertIntoParent 1 50 3 gapTree = Ok tt gapTree /\
   (forall fuel ks,
      Z.of_nat (length ks) <= INT_MAX ->
      main (S (S fuel)) ks = Ok tt gapTree ->
      3 <= 3 < nextPageID (bm gapTree) ->
      ~ reachable gapTree 3)).
Proof.
  assert (H : 1 ≠ rootPage gapTree) by (vm_compute; discriminate).
  split; [exact H|]. exact (insertIntoParent_below_root gapTree 1 50 3 H).
Defined.

Lemma allocatePage_next_witness :
  coherent (bm demoTree) /\
  ((exists f b',
      allocatePage (bm demoTree) = Ok (nextPageID (bm demoTree)) b' /\
      nextPageID b' = wrap (nextPageID (bm demoTree) + 1) /\
      pageTable b' !! nextPageID (bm demoTree) = Some f /\
      pool b' !! f = Some (mkFrame (nextPageID (bm demoTree)) true zeroPage) /\
      coherent b') /\
   (forall cs, exists pids b',
      calls cs (bm demoTree) = Ok pids b' /\
      pids = counted (nextPageID (bm demoTree)) (length pids) /\
      (INT_MIN <= nextPageID (bm demoTree) ->
       nextPageID (bm demoTree) + Z.of_nat (length pids) <= INT_MAX + 1 ->
       pids = seqZ (nextPageID (bm demoTree)) (Z.of_nat (length pids)) /\
       StronglySorted Z.lt pids /\ NoDup pids))).
Proof.
  split; [exact demoTree_coherent|].
  exact (allocatePage_next (bm demoTree) demoTree_coherent).
Defined.

Lemma findLeaf_descent_witness :
  coherent (bm demoTree) /\
  exists n b',
    visit 2 (bm demoTree) = Some (n, b') /\
    (forall f, pageTable (bm demoTree) !! 2 = Some f ->
               content (bm demoTree) 2 = Some n) /\
    (wellSized n -> 0 <= numKeys n <= MAX_KEYS ->
     descent_post 1 2 30 n b' demoTree).
Proof.
  split; [exact demoTree_coherent|].
  exact (findLeaf_descent 1 2 30 demoTree demoTree_coherent).
Defined.

Lemma leaf_order_invariant_witness :
  main 2 [10; 20; 30; 40; 50; 60; 5] = Ok tt (treeAfter [10; 20; 30; 40; 50; 60; 5]) /\
  Z.of_nat (length [10; 20; 30; 40; 50; 60; 5]) <= INT_MAX /\
  ((forall p pg,
      content (bm (treeAfter [10; 20; 30; 40; 50; 60; 5])) p = Some pg ->
      isLeaf pg = true ->
      StronglySorted Z.le (leafKeys pg) /\ 0 <= numKeys pg <= MAX_KEYS) /\
   (forall p, exists pg b',
      visit p (bm (treeAfter [10; 20; 30; 40; 50; 60; 5])) = Some (pg, b') /\
      (isLeaf pg = true ->
       StronglySorted Z.le (leafKeys pg) /\ 0 <= numKeys pg <= MAX_KEYS))) /\
  exists t,
    main 2 [10; 20; 30; 40; 50; 60; 5] = Ok tt t /\
    (forall p pg,
       content (bm t) p = Some pg -> isLeaf pg = true ->
       StronglySorted Z.le (leafKeys pg) /\
       0 <= numKeys pg <= MAX_KEYS /\
       (NoDup [10; 20; 30; 40; 50; 60; 5] -> StronglySorted Z.lt (leafKeys pg))) /\
    (forall p, exists pg b',
       visit p (bm t) = Some (pg, b') /\
       (isLeaf pg = true ->
        StronglySorted Z.le (leafKeys pg) /\
        0 <= numKeys pg <= MAX_KEYS /\
        (NoDup [10; 20; 30; 40; 50; 60; 5] -> StronglySorted Z.lt (leafKeys pg)))).
Proof.
  assert (H : Z.of_nat (length [10; 20; 30; 40; 50; 60; 5]) <= INT_MAX)
    by (vm_compute; discriminate).
  assert (Hm : main 2 [10; 20; 30; 40; 50; 60; 5]
               = Ok tt (treeAfter [10; 20; 30; 40; 50; 60; 5]))
    by (vm_compute; reflexivity).
  split; [exact Hm|]. split; [exact H|]. split.
  - exact (proj1 (leaf_order_invariant 2 [10; 20; 30; 40; 50; 60; 5]) _ Hm).
  - exact (proj2 (leaf_order_invariant 0 [10; 20; 30; 40; 50; 60; 5]) H).
Defined.

Lemma tree_shapes_witness :
  Z.of_nat (length [10; 20; 30; 40; 50; 60]) <= INT_MAX /\
  exists t,
    main 2 [10; 20; 30; 40; 50; 60] = Ok tt t /\
    (single_leaf t <-> Z.of_nat (length [10; 20; 30; 40; 50; 60]) <= MAX_KEYS) /\
    (one_internal_level t <-> MAX_KEYS < Z.of_nat (length [10; 20; 30; 40; 50; 60])) /\
    (forall q, reachable t q -> q = rootPage t \/ q = 0 \/ q = 1) /\
    (forall key, exists leaf t', findLeaf 2 (rootPage t) key t = Ok leaf t').
Proof.
  assert (H : Z.of_nat (length [10; 20; 30; 40; 50; 60]) <= INT_MAX)
    by (vm_compute; discriminate).
  split; [exact H|]. exact (tree_shapes 0 [10; 20; 30; 40; 50; 60] H).
Defined.

(** * Further properties *)

(** ** The buffer manager *)

(** X1. The pool always holds the most recently used pages: after any
    sequence of [fetchPage], [allocatePage] and [markDirty] calls on a new
    buffer manager, the pages in the pool, from the front of the recency
    list to its back, are the [BUFFER_CAPACITY] most recently fetched or
    allocated distinct pages, the latest first. *)
Theorem pool_holds_most_recent s cs :
  exists pids b,
    calls cs (newBufferManager s) = Ok pids b /\
    residentPages b = take (Z.to_nat BUFFER_CAPACITY) (recency (accesses 0 cs)).
Proof.
  apply (calls_recency cs (newBufferManager s) []).
  - apply newBufferManager_coherent.
  - apply NoDup_nil_2.
  - done.
Qed.

(** X2. A pointer returned by [fetchPage] is good for the next
    [BUFFER_CAPACITY - 1] fetches, whatever pages they name: after one and
    after two further fetches the page is still in the frame the pointer
    designates, and the frame (page number, dirty flag and data) is as the
    first fetch left it. *)
Theorem pointer_valid_two_fetches p q r b :
  coherent b ->
  exists f b1 g b2 h b3,
    fetchPage p b = Ok f b1 /\
    fetchPage q b1 = Ok g b2 /\
    fetchPage r b2 = Ok h b3 /\
    pageTable b1 !! p = Some f /\
    pageTable b2 !! p = Some f /\ pool b2 !! f = pool b1 !! f /\
    pageTable b3 !! p = Some f /\ pool b3 !! f = pool b1 !! f.
Proof.
  intros Hc.
  destruct (fetchPage_fetched p b Hc) as (f & b1 & Hrun1 & Hf1 & _).
  pose proof (fetched_coherent _ _ _ _ Hc Hf1) as Hc1.
  destruct (fetched_lookup _ _ _ _ Hc Hf1) as (Hp1 & Hh1 & _).
  apply head_lookup_0 in Hh1.
  destruct (fetchPage_fetched q b1 Hc1) as (g & b2 & Hrun2 & Hf2 & _).
  pose proof (fetched_coherent _ _ _ _ Hc1 Hf2) as Hc2.
  destruct (fetched_survives q b1 g b2 p f 0 Hc1 Hf2 Hp1 Hh1)
    as (Hp2 & Hpool2 & j & Hj & Hlru2);
    [change (Z.to_nat BUFFER_CAPACITY) with 3%nat; lia|].
  destruct (fetchPage_fetched r b2 Hc2) as (h & b3 & Hrun3 & Hf3 & _).
  destruct (fetched_survives r b2 h b3 p f j Hc2 Hf3 Hp2 Hlru2)
    as (Hp3 & Hpool3 & _);
    [change (Z.to_nat BUFFER_CAPACITY) with 3%nat; lia|].
  exists f, b1, g, b2, h, b3.
  repeat (split; [done|]). by rewrite Hpool3.
Qed.

Lemma pointer_valid_two_fetches_witness :
  coherent (bm demoTree) /\
  exists f b1 g b2 h b3,
    fetchPage 0 (bm demoTree) = Ok f b1 /\
    fetchPage 1 b1 = Ok g b2 /\
    fetchPage 2 b2 = Ok h b3 /\
    pageTable b1 !! 0 = Some f /\
    pageTable b2 !! 0 = Some f /\ pool b2 !! f = pool b1 !! f /\
    pageTable b3 !! 0 = Some f /\ pool b3 !! f = pool b1 !! f.
Proof.
  split; [exact demoTree_coherent|].
  exact (pointer_valid_two_fetches 0 1 2 (bm demoTree) demoTree_coherent).
Defined.

(** X3. The pointer is good for no longer: when the three fetches that
    follow [fetchPage(p)] all miss, the third evicts page [p] and returns
    the very frame the pointer designates, which then holds the third
    page. *)
Theorem pointer_stale_after_three_misses p q1 q2 q3 b :
  coherent b ->
  exists f b1 g1 b2 g2 b3 g3 b4,
    fetchPage p b = Ok f b1 /\
    fetchPage q1 b1 = Ok g1 b2 /\
    fetchPage q2 b2 = Ok g2 b3 /\
    fetchPage q3 b3 = Ok g3 b4 /\
    (pageTable b1 !! q1 = None -> pageTable b2 !! q2 = None ->
     pageTable b3 !! q3 = None ->
     g3 = f /\ pageTable b4 !! p = None /\
     exists fr, pool b4 !! f = Some fr /\ pageID fr = q3).
Proof.
  intros Hc.
  destruct (fetchPage_fetched p b Hc) as (f & b1 & Hrun1 & Hf1 & _).
  pose proof (fetched_coherent _ _ _ _ Hc Hf1) as Hc1.
  destruct (fetched_lookup _ _ _ _ Hc Hf1) as (Hp & Hh & _).
  apply head_lookup_0 in Hh.
  destruct (fetchPage_fetched q1 b1 Hc1) as (g1 & b2 & Hrun2 & Hf2 & _).
  pose proof (fetched_coherent _ _ _ _ Hc1 Hf2) as Hc2.
  destruct (fetchPage_fetched q2 b2 Hc2) as (g2 & b3 & Hrun3 & Hf3 & _).
  pose proof (fetched_coherent _ _ _ _ Hc2 Hf3) as Hc3.
  destruct (fetchPage_fetched q3 b3 Hc3) as (g3 & b4 & Hrun4 & Hf4 & _).
  exists f, b1, g1, b2, g2, b3, g3, b4. repeat (split; [done|]).
  intros Hm1 Hm2 Hm3.
  pose proof (fetched_miss_shift q1 b1 g1 b2 p f 0 Hc1 Hf2 Hm1 Hp Hh) as H.
  rewrite decide_True in H
    by (change (Z.to_nat BUFFER_CAPACITY) with 3%nat; lia).
  destruct H as (Hpb2 & _ & Hl2).
  pose proof (fetched_miss_shift q2 b2 g2 b3 p f 1 Hc2 Hf3 Hm2 Hpb2 Hl2) as H.
  rewrite decide_True in H
    by (change (Z.to_nat BUFFER_CAPACITY) with 3%nat; lia).
  destruct H as (Hpb3 & _ & Hl3).
  pose proof (fetched_miss_shift q3 b3 g3 b4 p f 2 Hc3 Hf4 Hm3 Hpb3 Hl3) as H.
  rewrite decide_False in H
    by (change (Z.to_nat BUFFER_CAPACITY) with 3%nat; lia).
  destruct H as (-> & Hgone).
  destruct (fetched_lookup _ _ _ _ Hc3 Hf4) as (_ & _ & fr & Hfr & Hid).
  split; [done|]. split; [done|]. by exists fr.
Qed.

Lemma pointer_stale_after_three_misses_witness :
  coherent (bm demoTree) /\
  exists f b1 g1 b2 g2 b3 g3 b4,
    fetchPage 3 (bm demoTree) = Ok f b1 /\
    fetchPage 0 b1 = Ok g1 b2 /\
    fetchPage 2 b2 = Ok g2 b3 /\
    fetchPage 1 b3 = Ok g3 b4 /\
    (pageTable b1 !! 0 = None -> pageTable b2 !! 2 = None ->
     pageTable b3 !! 1 = None ->
     g3 = f /\ pageTable b4 !! 3 = None /\
     exists fr, pool b4 !! f = Some fr /\ pageID fr = 1).
Proof.
  split; [exact demoTree_coherent|].
  exact (pointer_stale_after_three_misses 3 0 2 1 (bm demoTree) demoTree_coherent).
Defined.

(** The three fetches of that example do miss: pages 0, 1 and 2 are in
    the pool, and fetching 3, 0, 2, 1 in this order evicts each of them
    just before it is wanted. *)
Example three_misses_in_a_row :
  exists f b1 g1 b2 g2 b3,
    fetchPage 3 (bm demoTree) = Ok f b1 /\
    fetchPage 0 b1 = Ok g1 b2 /\
    fetchPage 2 b2 = Ok g2 b3 /\
    pageTable (bm demoTree) !! 0 = Some f /\
    pageTable b1 !! 0 = None /\ pageTable b2 !! 2 = None /\
    pageTable b3 !! 1 = None.
Proof.
  eexists _, _, _, _, _, _. split; [vm_compute; reflexivity|].
  split; [vm_compute; reflexivity|]. split; [vm_compute; reflexivity|].
  split; [by vm_compute|]. split; [by vm_compute|].
  split; by vm_compute.
Qed.

(** X4. The eviction policy, as the code has it: with fewer than
    [BUFFER_CAPACITY] frames in use, [evict] returns the number in use and
    changes nothing; otherwise the victim is the frame at the back of the
    recency list, [writeDisk] is called on it exactly when it is dirty, and
    its page table entry and recency entry are gone when its index is
    returned.  What the call to [writeDisk] does is up to the stream:
    nothing once the stream has failed. *)
Theorem evict_policy b :
  coherent b ->
  (Z.of_nat (length (lru b)) < BUFFER_CAPACITY ->
   evict b = Ok (length (lru b)) b) /\
  (BUFFER_CAPACITY <= Z.of_nat (length (lru b)) ->
   exists l v fr b',
     lru b = l ++ [v] /\ pool b !! v = Some fr /\
     evict b = Ok v b' /\
     sm b' = (if dirty fr then afterWrite (sm b) (pageID fr) (data fr)
              else sm b) /\
     (failed (sm b) = true -> sm b' = sm b) /\
     cout b' = (if dirty fr then [DiskWriting (pageID fr)] else [])
                 ++ EvictKicking (pageID fr) :: cout b /\
     pageTable b' = delete (pageID fr) (pageTable b) /\
     pageTable b' !! pageID fr = None /\
     lru b' = l /\ (v ∉ lru b') /\
     pool b' = pool b /\ nextPageID b' = nextPageID b).
Proof.
  intros Hc. split; [apply evict_room|]. intros Hge.
  destruct (last (lru b)) as [v|] eqn:Hlast.
  2:{ apply last_None in Hlast. rewrite Hlast in Hge. done. }
  destruct (last_snoc_inv _ _ Hlast) as [l Hl].
  assert (Hv : v ∈ lru b) by (rewrite Hl, elem_of_app, list_elem_of_singleton; by right).
  destruct (coherent_frame b v Hc) as [fr Hfr].
  { apply (coherent_elem _ _ Hc) in Hv. pose proof (coh_cap _ Hc). lia. }
  eexists l, v, fr, _. split; [done|]. split; [done|].
  split; [by eapply evict_victim|]. cbn.
  split; [done|]. split; [by apply flushed_failed|].
  split; [done|]. split; [done|].
  split; [apply lookup_delete_eq|]. split; [done|]. split; [|done].
  pose proof (coherent_nodup _ Hc) as Hnd. rewrite Hl in Hnd.
  apply NoDup_app in Hnd as (_ & Hnd & _). intros Hin.
  apply (Hnd v Hin), list_elem_of_singleton. done.
Qed.

Lemma evict_policy_witness :
  coherent (bm demoTree) /\
  ((Z.of_nat (length (lru (bm demoTree))) < BUFFER_CAPACITY ->
    evict (bm demoTree) = Ok (length (lru (bm demoTree))) (bm demoTree)) /\
   (BUFFER_CAPACITY <= Z.of_nat (length (lru (bm demoTree))) ->
    exists l v fr b',
      lru (bm demoTree) = l ++ [v] /\ pool (bm demoTree) !! v = Some fr /\
      evict (bm demoTree) = Ok v b' /\
      sm b' = (if dirty fr
               then afterWrite (sm (bm demoTree)) (pageID fr) (data fr)
               else sm (bm demoTree)) /\
      (failed (sm (bm demoTree)) = true -> sm b' = sm (bm demoTree)) /\
      cout b' = (if dirty fr then [DiskWriting (pageID fr)] else [])
                  ++ EvictKicking (pageID fr) :: cout (bm demoTree) /\
      pageTable b' = delete (pageID fr) (pageTable (bm demoTree)) /\
      pageTable b' !! pageID fr = None /\
      lru b' = l /\ (v ∉ lru b') /\
      pool b' = pool (bm demoTree) /\
      nextPageID b' = nextPageID (bm demoTree))).
Proof.
  split; [exact demoTree_coherent|].
  exact (evict_policy (bm demoTree) demoTree_coherent).
Defined.

(** X10. Nothing reaches the file before the pool overflows: as long as
    the calls on a new buffer manager fetch or allocate no more than
    [BUFFER_CAPACITY] distinct pages, the file is left as it was, whatever
    was marked dirty: no call flushes a page. *)
Theorem no_write_below_capacity s cs :
  (length (remove_dups (accesses 0 cs)) <= Z.to_nat BUFFER_CAPACITY)%nat ->
  exists pids b,
    calls cs (newBufferManager s) = Ok pids b /\ dbFile (sm b) = dbFile s.
Proof.
  intros Hlen. rewrite <- recency_length in Hlen.
  apply (calls_no_write cs (newBufferManager s) []); try done.
  - apply newBufferManager_coherent.
  - apply NoDup_nil_2.
Qed.

Lemma no_write_below_capacity_witness :
  (length (remove_dups
             (accesses 0
                [CallAllocatePage; CallFetchPage 0; CallMarkDirty 0;
                 CallAllocatePage; CallAllocatePage; CallFetchPage 1;
                 CallMarkDirty 1; CallFetchPage 0]))
   <= Z.to_nat BUFFER_CAPACITY)%nat /\
  exists pids b,
    calls [CallAllocatePage; CallFetchPage 0; CallMarkDirty 0;
           CallAllocatePage; CallAllocatePage; CallFetchPage 1;
           CallMarkDirty 1; CallFetchPage 0]
      (newBufferManager newStorageManager) = Ok pids b /\
    dbFile (sm b) = dbFile newStorageManager.
Proof.
  assert (H : (length (remove_dups
             (accesses 0
                [CallAllocatePage; CallFetchPage 0; CallMarkDirty 0;
                 CallAllocatePage; CallAllocatePage; CallFetchPage 1;
                 CallMarkDirty 1; CallFetchPage 0]))
   <= Z.to_nat BUFFER_CAPACITY)%nat) by (vm_compute; lia).
  split; [exact H|].
  exact (no_write_below_capacity newStorageManager _ H).
Defined.

(** ** The file *)

(** A fetch on an empty file leaves it empty and the stream failed: a
    hit needs a page in the pool, which an earlier fetch put there. *)
Lemma fetched_stream p b f b' :
  coherent b -> dbFile (sm b) = ∅ -> (lru b ≠ [] -> failed (sm b) = true) ->
  fetched p b f b' ->
  dbFile (sm b') = ∅ /\ failed (sm b') = true.
Proof.
  intros Hc Hfile Hfail
    [Hp Hsm Hpool Hpt Hlru | fr Hp Hlt -> Hfr Hsm Hpool Hpt Hlru
    | l fr Hp Hlen Hl Hfr Hsm Hpool Hpt Hlru]; rewrite Hsm.
  - split; [done|]. apply Hfail. apply (coh_table _ Hc) in Hp as [Hin _].
    intros Hnil. rewrite Hnil in Hin. by apply elem_of_nil in Hin.
  - destruct (afterRead_empty (sm b) p (data fr) Hfile). done.
  - rewrite flushed_failed.
    + destruct (afterRead_empty (sm b) p (data fr) Hfile). done.
    + apply Hfail. rewrite Hl. by destruct l.
Qed.

Lemma calls_stream cs b :
  coherent b -> dbFile (sm b) = ∅ -> (lru b ≠ [] -> failed (sm b) = true) ->
  exists pids b',
    calls cs b = Ok pids b' /\ dbFile (sm b') = ∅ /\
    (lru b' ≠ [] -> failed (sm b') = true) /\
    (failed (sm b) = true \/ accesses (nextPageID b) cs ≠ [] ->
     failed (sm b') = true).
Proof.
  revert b. induction cs as [|c cs IH]; intros b Hc Hfile Hfail.
  - exists [], b. split; [done|]. split; [done|]. split; [done|].
    by intros [?|?].
  - destruct c as [p| |p]; cbn [calls accesses].
    + destruct (fetchPage_fetched p b Hc) as (f & b1 & Hrun & Hf & Hn).
      destruct (fetched_stream _ _ _ _ Hc Hfile Hfail Hf) as [Hfile1 Hfail1].
      destruct (IH b1 (fetched_coherent _ _ _ _ Hc Hf) Hfile1 (fun _ => Hfail1))
        as (pids & b' & Hcs & Hfile' & Hfail' & Hkeep).
      exists pids, b'. mstep_by exact Hrun. split; [done|]. split; [done|].
      split; [done|]. intros _. apply Hkeep. by left.
    + destruct (allocatePage_run b Hc) as (f & b1 & b2 & Hrun & Hf & Hw & Hn).
      destruct (fetched_stream _ _ _ _ Hc Hfile Hfail Hf) as [Hfile1 Hfail1].
      pose proof (fetched_coherent _ _ _ _ Hc Hf) as Hc1.
      destruct (fetched_lookup _ _ _ _ Hc Hf) as (Hp1 & _).
      destruct (IH b2) as (pids & b' & Hcs & Hfile' & Hfail' & Hkeep).
      { by eapply overwrite_coherent. }
      { by rewrite (ow_sm _ _ _ _ _ Hw). }
      { intros _. by rewrite (ow_sm _ _ _ _ _ Hw). }
      exists (nextPageID b :: pids), b'. mstep_by exact Hrun.
      mstep_by exact Hcs. split; [done|]. split; [done|]. split; [done|].
      intros _. apply Hkeep. left. by rewrite (ow_sm _ _ _ _ _ Hw).
    + destruct (markDirty_run p b Hc) as (b1 & Hrun & Hcase).
      assert (Hb1 : coherent b1 /\ sm b1 = sm b /\ lru b1 = lru b
                    /\ nextPageID b1 = nextPageID b).
      { destruct Hcase as [[_ ->]|(f & fr & Hp & Hfr & Hw)]; [done|].
        split; [by eapply overwrite_coherent|by destruct Hw]. }
      destruct Hb1 as (Hc1 & Hsm1 & Hlru1 & Hn1).
      destruct (IH b1 Hc1) as (pids & b' & Hcs & Hfile' & Hfail' & Hkeep).
      { by rewrite Hsm1. }
      { by rewrite Hsm1, Hlru1. }
      exists pids, b'. mstep_by exact Hrun. split; [done|]. split; [done|].
      split; [done|]. rewrite <- Hsm1, <- Hn1. exact Hkeep.
Qed.

(** X5. Nothing is ever written: on a new storage manager, whose file
    the constructor has truncated, the first fetch reads at the end of the
    file and leaves the stream failed; no sequence of calls on the buffer
    manager stores a block in the file. *)
Theorem file_never_written cs :
  exists pids b,
    calls cs (newBufferManager newStorageManager) = Ok pids b /\
    dbFile (sm b) = ∅ /\
    (accesses 0 cs ≠ [] -> failed (sm b) = true).
Proof.
  destruct (calls_stream cs (newBufferManager newStorageManager))
    as (pids & b & Hrun & Hfile & _ & Hfail);
    [apply newBufferManager_coherent|done|done|].
  exists pids, b. split; [done|]. split; [done|]. intros H. apply Hfail. by right.
Qed.

(** X6. A page that is fetched again comes with the bytes of another
    page: once the stream has failed, a miss leaves in the frame it takes
    the bytes the frame held, under the number of the page asked for and
    with the dirty flag cleared; in a full pool these are the bytes of the
    page just evicted. *)
Theorem refetch_takes_victim_bytes p b :
  coherent b -> failed (sm b) = true -> pageTable b !! p = None ->
  exists f fr b',
    fetchPage p b = Ok f b' /\ pool b !! f = Some fr /\
    pool b' !! f = Some (mkFrame p false (data fr)) /\
    pageTable b' !! p = Some f /\ sm b' = sm b /\
    (length (lru b) = Z.to_nat BUFFER_CAPACITY ->
     last (lru b) = Some f /\ pageTable b !! pageID fr = Some f /\
     pageTable b' !! pageID fr = None).
Proof.
  intros Hc Hfail Hmiss.
  destruct (fetchPage_fetched p b Hc) as (f & b' & Hrun & Hf & _).
  destruct (fetched_lookup _ _ _ _ Hc Hf) as (Hpf & _).
  destruct Hf as [Hp Hsm Hpool Hpt Hlru | fr Hp Hlt -> Hfr Hsm Hpool Hpt Hlru
                 | l fr Hp Hlen Hl Hfr Hsm Hpool Hpt Hlru]; [congruence| |].
  - rewrite afterRead_failed in Hsm by done.
    rewrite readBlock_failed in Hpool by done.
    exists (length (lru b)), fr, b'. split; [done|]. split; [done|].
    split; [rewrite Hpool; by eapply lookup_set_pool|]. split; [done|].
    split; [done|]. lia.
  - rewrite flushed_failed in Hsm, Hpool by done.
    rewrite afterRead_failed in Hsm by done.
    rewrite readBlock_failed in Hpool by done.
    exists f, fr, b'. split; [done|]. split; [done|].
    split; [rewrite Hpool; by eapply lookup_set_pool|]. split; [done|].
    split; [done|]. intros _. split; [by rewrite Hl, last_snoc|].
    assert (Hold : pageTable b !! pageID fr = Some f).
    { apply coherent_frame_page; [done| |done]. rewrite Hl.
      rewrite elem_of_app, list_elem_of_singleton. by right. }
    split; [done|]. rewrite Hpt, lookup_insert_ne by congruence.
    apply lookup_delete_eq.
Qed.

Lemma refetch_takes_victim_bytes_witness :
  (coherent (bm gapTree) /\ failed (sm (bm gapTree)) = true /\
   pageTable (bm gapTree) !! 0 = None) /\
  exists f fr b',
    fetchPage 0 (bm gapTree) = Ok f b' /\ pool (bm gapTree) !! f = Some fr /\
    pool b' !! f = Some (mkFrame 0 false (data fr)) /\
    pageTable b' !! 0 = Some f /\ sm b' = sm (bm gapTree) /\
    (length (lru (bm gapTree)) = Z.to_nat BUFFER_CAPACITY ->
     last (lru (bm gapTree)) = Some f /\
     pageTable (bm gapTree) !! pageID fr = Some f /\
     pageTable b' !! pageID fr = None).
Proof.
  assert (H1 : coherent (bm gapTree)).
  { apply ti_coh with (ks := [10; 20; 30; 40; 50; 60]), treeAfter_inv, small_bound.
    cbn. lia. }
  assert (H2 : failed (sm (bm gapTree)) = true) by (by vm_compute).
  assert (H3 : pageTable (bm gapTree) !! 0 = None) by (by vm_compute).
  split; [exact (conj H1 (conj H2 H3))|].
  exact (refetch_takes_victim_bytes 0 (bm gapTree) H1 H2 H3).
Defined.

(** ** The tree *)

Lemma fetched_other_frames p b f b' g :
  fetched p b f b' -> g ≠ f -> pool b' !! g = pool b !! g.
Proof.
  intros [Hp Hsm Hpool Hpt Hlru | fr Hp Hlt -> Hfr Hsm Hpool Hpt Hlru
         | l fr Hp Hlen Hl Hfr Hsm Hpool Hpt Hlru] Hg; rewrite Hpool;
    [done|by rewrite list_lookup_insert_ne..].
Qed.

(** X9. The split of a full leaf, where it works: when the old leaf is
    the most recently used page, as it is when [insertIntoLeaf] calls
    [splitLeaf], the allocation of the new page leaves it in its frame, and
    the split does what it is meant to: the sorted sequence of the
    [MAX_KEYS] keys and the new key goes by halves to the old and to the new
    leaf, both frames end dirty, the new leaf has the link fields of a
    zero-filled page, and the call goes on as
    [insertIntoParent(old, first key of the new leaf, new page)]. *)
Theorem splitLeaf_most_recent key old fo fro l t :
  coherent (bm t) ->
  pageTable (bm t) !! old = Some fo -> lru (bm t) = fo :: l ->
  pool (bm t) !! fo = Some fro ->
  old ≠ nextPageID (bm t) -> wellSized (data fro) ->
  isLeaf (data fro) = true -> numKeys (data fro) = MAX_KEYS ->
  split_post key old fo (data fro) t.
Proof.
  intros Hc Hpo Hlru Hfro Hold Hsized Hleaf Hfull.
  set (pg := data fro) in *. set (n := nextPageID (bm t)) in *.
  destruct (splitKeys_facts key pg Hsized)
    as (t0 & t1 & t2 & t3 & k0 & k1 & k2 & Hkeys & Htemp & Hsort & Hperm).
  assert (Hlk : leafKeys pg = [k0; k1; k2]).
  { unfold leafKeys. by rewrite Hfull, Hkeys. }
  assert (Hsorted : merge_sort Z.le (leafKeys pg ++ [key]) = [t0; t1; t2; t3]).
  { rewrite <- Htemp. unfold splitKeys. by rewrite Hlk, Hkeys. }
  set (b0 := set_cout (TreeNodeFull :: cout (bm t)) (bm t)).
  assert (Hc0 : coherent b0) by (by apply (coherent_ext (bm t))).
  destruct (allocatePage_run b0 Hc0) as (fn & b1 & b2 & Hrun1 & Hf1 & How & Hn2).
  change (nextPageID b0) with n in Hrun1, Hf1, How, Hn2.
  pose proof (fetched_coherent _ _ _ _ Hc0 Hf1) as Hc1.
  destruct (fetched_lookup _ _ _ _ Hc0 Hf1) as (Hpn1 & _ & _).
  destruct (fetched_survives n b0 fn b1 old fo 0 Hc0 Hf1 Hpo) as (Hpo1 & Hfo1 & _);
    [by cbn; rewrite Hlru|change (Z.to_nat BUFFER_CAPACITY) with 3%nat; lia|].
  assert (Hne : fo ≠ fn)
    by exact (coherent_two_frames b1 old n fo fn Hc1 Hpo1 Hpn1 Hold).
  pose proof (overwrite_coherent _ _ _ _ _ Hc1 Hpn1 How) as Hc2.
  pose proof (overwritten_pool _ _ _ _ _ How) as Hpool2.
  destruct How as [Hfn2 Hoth2 _ Hsm2 Hpt2 Hlru2 _].
  assert (Hpo2 : pageTable b2 !! old = Some fo) by (by rewrite Hpt2).
  assert (Hpn2 : pageTable b2 !! n = Some fn) by (by rewrite Hpt2).
  assert (Hfo2 : pool b2 !! fo = Some fro).
  { rewrite Hoth2 by done. by rewrite Hfo1. }
  destruct (fetchPage_resident old fo b2 Hpo2)
    as (b3 & Hrun3 & _ & Hpool3 & Hpt3 & _ & Hn3).
  assert (Hpn3 : pageTable b3 !! n = Some fn) by (by rewrite Hpt3).
  destruct (fetchPage_resident n fn b3 Hpn3)
    as (b4 & Hrun4 & _ & Hpool4 & Hpt4 & _ & Hn4).
  destruct (splitLeaf_run key old t n b2 fo b3 fn b4 fro (mkFrame n true zeroPage))
    as (k & c0 & Hk & Hrun5); try done.
  { by rewrite Hpt4, Hpt3. }
  { by rewrite Hpt4. }
  { by rewrite Hpool4, Hpool3. }
  { by rewrite Hpool4, Hpool3. }
  unfold split_post. cbn zeta. rewrite Hsorted, Hlk.
  split; [done|]. split; [done|].
  assert (Hidfo : pageID fro = old)
    by exact (coherent_pageID _ _ _ _ Hc Hpo Hfro).
  eexists _, k, fn, (splitOld key pg), (splitNew key pg).
  split; [exact Hrun5|]. cbn [nextPageID pageTable pool pageID].
  fold pg. rewrite Hidfo.
  assert (Ho : leafKeys (splitOld key pg) = [t0; t1]).
  { unfold leafKeys, splitOld. cbn. by rewrite Htemp, Hkeys. }
  assert (Hnw : leafKeys (splitNew key pg) = [t2; t3]).
  { unfold leafKeys, splitNew. cbn. by rewrite Htemp. }
  rewrite Ho, Hnw.
  assert (k = t2) as ->.
  { unfold splitNew in Hk. cbn [keys set_keys set_numKeys set_isLeaf] in Hk.
    change (data fro) with pg in Hk. rewrite Htemp in Hk.
    change (Z.to_nat mid) with 2%nat in Hk. cbn in Hk. congruence. }
  split; [by rewrite Hn4, Hn3, Hn2|]. split; [by apply not_eq_sym|].
  split; [by rewrite Hpt4, Hpt3|].
  split.
  { rewrite list_lookup_insert_ne by done. eapply lookup_set_pool.
    by rewrite Hpool4, Hpool3. }
  split; [by rewrite Hpt4|].
  split.
  { eapply lookup_set_pool. rewrite list_lookup_insert_ne by done.
    by rewrite Hpool4, Hpool3. }
  split.
  { intros g Hgo Hgn. rewrite !list_lookup_insert_ne by done.
    rewrite Hpool4, Hpool3, Hoth2 by done.
    exact (fetched_other_frames _ _ _ _ g Hf1 Hgn). }
  repeat (split; [done|]). done.
Qed.

Lemma splitLeaf_most_recent_witness :
  (coherent (bm fullLeafTree) /\
   pageTable (bm fullLeafTree) !! 0 = Some 0%nat /\
   lru (bm fullLeafTree) = [0%nat] /\
   pool (bm fullLeafTree) !! 0%nat = Some (mkFrame 0 true fullLeaf) /\
   0 ≠ nextPageID (bm fullLeafTree) /\ wellSized fullLeaf /\
   isLeaf fullLeaf = true /\ numKeys fullLeaf = MAX_KEYS) /\
  split_post 40 0 0 fullLeaf fullLeafTree.
Proof.
  assert (H1 : coherent (bm fullLeafTree)).
  { apply ti_coh with (ks := [10; 20; 30]), treeAfter_inv, small_bound. cbn. lia. }
  assert (H2 : pageTable (bm fullLeafTree) !! 0 = Some 0%nat) by (by vm_compute).
  assert (H3 : lru (bm fullLeafTree) = [0%nat]) by (by vm_compute).
  assert (H4 : pool (bm fullLeafTree) !! 0%nat = Some (mkFrame 0 true fullLeaf))
    by (by vm_compute).
  assert (H5 : 0 ≠ nextPageID (bm fullLeafTree)) by (vm_compute; discriminate).
  assert (H6 : wellSized fullLeaf) by (split; reflexivity).
  assert (H7 : isLeaf fullLeaf = true) by reflexivity.
  assert (H8 : numKeys fullLeaf = MAX_KEYS) by reflexivity.
  split; [exact (conj H1 (conj H2 (conj H3 (conj H4 (conj H5 (conj H6 (conj H7 H8)))))))|].
  exact (splitLeaf_most_recent 40 0 0 (mkFrame 0 true fullLeaf) [] fullLeafTree
           H1 H2 H3 H4 H5 H6 H7 H8).
Defined.

(** X7. The key of the root never changes: once more than [MAX_KEYS]
    keys have been inserted, the root is page 2, it is in the pool, and it
    holds one key, the third smallest of the first four keys inserted, with
    the children 0 and 1 and the link fields of a zero-filled page. *)
Theorem root_key_fixed fuel ks :
  Z.of_nat (length ks) <= INT_MAX -> MAX_KEYS < Z.of_nat (length ks) ->
  exists t sep f,
    main (S (S fuel)) ks = Ok tt t /\ rootPage t = 2 /\
    merge_sort Z.le (take 4 ks) !! 2%nat = Some sep /\
    pageTable (bm t) !! 2 = Some f /\
    content (bm t) 2 = Some (newRootNode sep 0 1).
Proof.
  intros Hbound Hlen. destruct (main_inv ks fuel Hbound) as (t & Hmain & Hinv).
  destruct (ti_phase _ _ Hinv)
    as [(_ & _ & Hle & _)|(Hroot & _ & _ & _ & f & fr & sep & Hpf & Hfr & Hdata & Hsep & _)];
    [lia|].
  exists t, sep, f. repeat (split; [done|]).
  unfold content. by rewrite Hpf, Hfr, <- Hdata.
Qed.

Lemma root_key_fixed_witness :
  (Z.of_nat (length [10; 20; 30; 40; 50; 60]) <= INT_MAX /\
   MAX_KEYS < Z.of_nat (length [10; 20; 30; 40; 50; 60])) /\
  exists t sep f,
    main 2 [10; 20; 30; 40; 50; 60] = Ok tt t /\ rootPage t = 2 /\
    merge_sort Z.le (take 4 [10; 20; 30; 40; 50; 60]) !! 2%nat = Some sep /\
    pageTable (bm t) !! 2 = Some f /\
    content (bm t) 2 = Some (newRootNode sep 0 1).
Proof.
  assert (H1 : Z.of_nat (length [10; 20; 30; 40; 50; 60]) <= INT_MAX)
    by (vm_compute; discriminate).
  assert (H2 : MAX_KEYS < Z.of_nat (length [10; 20; 30; 40; 50; 60]))
    by (by vm_compute).
  split; [exact (conj H1 H2)|].
  exact (root_key_fixed 0 [10; 20; 30; 40; 50; 60] H1 H2).
Defined.

(** X8. The tree is what the pool holds: once more than [MAX_KEYS] keys
    have been inserted, the file is still empty, and the three frames hold
    the root and two leaves with two or three of the inserted keys each,
    however many keys were inserted; a page that is not in the pool is
    stored nowhere. *)
Theorem tree_is_the_pool fuel ks :
  Z.of_nat (length ks) <= INT_MAX -> MAX_KEYS < Z.of_nat (length ks) ->
  exists t f,
    main (S (S fuel)) ks = Ok tt t /\
    dbFile (sm (bm t)) = ∅ /\ failed (sm (bm t)) = true /\
    length (pool (bm t)) = 3%nat /\
    pageTable (bm t) !! rootPage t = Some f /\
    (forall g gr,
       g ≠ f -> pool (bm t) !! g = Some gr ->
       isLeaf (data gr) = true /\ 2 <= numKeys (data gr) <= MAX_KEYS /\
       leafKeys (data gr) ⊆ ks) /\
    (forall p, pageTable (bm t) !! p = None -> content (bm t) p = None).
Proof.
  intros Hbound Hlen. destruct (main_inv ks fuel Hbound) as (t & Hmain & Hinv).
  destruct (ti_phase _ _ Hinv)
    as [(_ & _ & Hle & _)|(Hroot & _ & _ & _ & f & fr & sep & Hpf & Hfr & Hdata & Hsep & Hleaves)];
    [lia|].
  exists t, f. split; [done|]. split; [apply Hinv|]. split; [apply Hinv|].
  split; [exact (coh_pool _ (ti_coh _ _ Hinv))|]. split; [by rewrite Hroot|].
  split.
  - intros g gr Hg Hgr. destruct (Hleaves g gr Hg Hgr) as [Hl Hmin].
    destruct (no_leaf _ _ (ti_nodes _ _ Hinv g gr Hgr) Hl) as [H1 H2 H3 H4].
    split; [done|]. split; [lia|done].
  - intros p Hp. unfold content. by rewrite Hp, (ti_file _ _ Hinv), lookup_empty.
Qed.

Lemma tree_is_the_pool_witness :
  (Z.of_nat (length [10; 20; 30; 40; 50; 60]) <= INT_MAX /\
   MAX_KEYS < Z.of_nat (length [10; 20; 30; 40; 50; 60])) /\
  exists t f,
    main 2 [10; 20; 30; 40; 50; 60] = Ok tt t /\
    dbFile (sm (bm t)) = ∅ /\ failed (sm (bm t)) = true /\
    length (pool (bm t)) = 3%nat /\
    pageTable (bm t) !! rootPage t = Some f /\
    (forall g gr,
       g ≠ f -> pool (bm t) !! g = Some gr ->
       isLeaf (data gr) = true /\ 2 <= numKeys (data gr) <= MAX_KEYS /\
       leafKeys (data gr) ⊆ [10; 20; 30; 40; 50; 60]) /\
    (forall p, pageTable (bm t) !! p = None -> content (bm t) p = None).
Proof.
  assert (H1 : Z.of_nat (length [10; 20; 30; 40; 50; 60]) <= INT_MAX)
    by (vm_compute; discriminate).
  assert (H2 : MAX_KEYS < Z.of_nat (length [10; 20; 30; 40; 50; 60]))
    by (by vm_compute).
  split; [exact (conj H1 H2)|].
  exact (tree_is_the_pool 0 [10; 20; 30; 40; 50; 60] H1 H2).
Defined.

(** X11. No insert writes a link field: in every frame, whatever page
    it holds by now, [nextLeaf] is the 0 of [memset] and [parentPage] is
    that 0 or the -1 the constructor gave the first root. *)
Theorem links_in_frames fuel ks :
  Z.of_nat (length ks) <= INT_MAX ->
  exists t,
    main (S (S fuel)) ks = Ok tt t /\
    forall f fr,
      pool (bm t) !! f = Some fr ->
      nextLeaf (data fr) = 0 /\
      (parentPage (data fr) = 0 \/ parentPage (data fr) = -1).
Proof.
  intros Hbound. destruct (main_inv ks fuel Hbound) as (t & Hmain & Hinv).
  exists t. split; [done|]. intros f fr Hfr.
  destruct (ti_nodes _ _ Hinv f fr Hfr) as [_ H2 H3 _]. done.
Qed.

Lemma links_in_frames_witness :
  Z.of_nat (length [9; 24; 34; 37; 23; 14; 36]) <= INT_MAX /\
  exists t,
    main 2 [9; 24; 34; 37; 23; 14; 36] = Ok tt t /\
    forall f fr,
      pool (bm t) !! f = Some fr ->
      nextLeaf (data fr) = 0 /\
      (parentPage (data fr) = 0 \/ parentPage (data fr) = -1).
Proof.
  assert (H : Z.of_nat (length [9; 24; 34; 37; 23; 14; 36]) <= INT_MAX)
    by (vm_compute; discriminate).
  split; [exact H|]. exact (links_in_frames 0 [9; 24; 34; 37; 23; 14; 36] H).
Defined.

(** X12. Keys are lost: after the inserts 10, 20, 30, 40, 50, 60 the
    keys 10 and 20, which were on page 0, are in no frame and not in the
    file; a search for 10 ends on page 0, which it fetches into the frame
    of page 1 and finds holding 30, 40. *)
Theorem keys_lost :
  exists lp t' pg,
    main 2 [10; 20; 30; 40; 50; 60] = Ok tt gapTree /\
    (forall f fr, pool (bm gapTree) !! f = Some fr ->
                  (10 ∉ leafKeys (data fr)) /\ (20 ∉ leafKeys (data fr))) /\
    dbFile (sm (bm gapTree)) = ∅ /\
    content (bm gapTree) 0 = None /\
    findLeaf 2 (rootPage gapTree) 10 gapTree = Ok lp t' /\ lp = 0 /\
    content (bm t') 0 = Some pg /\ isLeaf pg = true /\
    leafKeys pg = [30; 40] /\
    content (bm t') 1 = None.
Proof.
  eexists _, _, _. split; [vm_compute; reflexivity|]. split.
  { assert (Hpool : pool (bm gapTree) =
      [mkFrame 3 true (mkNode true 2 0 [50; 60; 0] [0; 0; 0; 0] 0);
       mkFrame 1 true (mkNode true 2 0 [30; 40; 50] [0; 0; 0; 0] 0);
       mkFrame 2 true (mkNode false 1 0 [30; 0; 0] [0; 1; 0; 0] 0)])
      by (vm_compute; reflexivity).
    rewrite Hpool. intros f fr Hfr.
    destruct f as [|[|[|f]]]; [| | |discriminate Hfr];
      injection Hfr as <-;
      split; (eapply bool_decide_unpack; vm_compute; exact I). }
  split; [by vm_compute|]. split; [by vm_compute|].
  split; [vm_compute; reflexivity|]. split; [reflexivity|].
  split; [vm_compute; reflexivity|]. split; [reflexivity|].
  split; [reflexivity|]. by vm_compute.
Qed.
